(** * BT_Electron: the host <-> worker protocol layer

    A shallow embedding of the Electron preload script (the boundary
    [invoke] and the subscriptions [on]), of the main process
    ([PythonService] and the [ipcMain.handle] handlers) and of the async
    functions of the renderer's [ImportData] component, followed by the
    properties of the specification that concern them and by further
    properties of the code.

    JavaScript values are embedded as the inductive [jsval]; the event loop
    is embedded as a deterministic transition system over the record [host],
    whose timers are the defunctionalised closures handed to [setTimeout]. *)

From Stdlib Require Import Ascii String.
From stdpp Require Import base option list strings pretty gmap.

(** ** JavaScript values *)

(** The values that cross the IPC boundary and that the handlers build.
    Numbers are the integers ([lines.length - 1], file sizes); an object is a
    finite map from property names to values. *)
#[warnings="-register-all"]
Inductive jsval :=
| JUndefined
| JNull
| JBool (b : bool)
| JNum (n : Z)
| JStr (s : string)
| JArr (elems : list jsval)
| JObj (props : gmap string jsval).

(** An object literal [{k1: v1, ...}]. *)
Definition obj (fields : list (string * jsval)) : jsval :=
  JObj (list_to_map fields).

(** ToBoolean: [undefined], [null], [false], [0] and the empty string are
    falsy. *)
Definition truthy (v : jsval) : bool :=
  match v with
  | JUndefined | JNull => false
  | JBool b => b
  | JNum n => negb (n =? 0)%Z
  | JStr s => negb (String.eqb s EmptyString)
  | JArr _ | JObj _ => true
  end.

(** [a || b] *)
Definition js_or (a b : jsval) : jsval := if truthy a then a else b.

(** Property read [v.k] on a value that is neither [undefined] nor [null];
    a property that is absent reads as [undefined]. *)
Definition getprop (v : jsval) (k : string) : jsval :=
  match v with
  | JObj m => default JUndefined (m !! k)
  | _ => JUndefined
  end.

(** ToString, as [new Error(x)] applies it to a message that is not a
    string. A number is written with all its digits, which is what
    JavaScript does for the integers below 1e21. *)
Fixpoint ToString (v : jsval) : string :=
  match v with
  | JUndefined => "undefined"
  | JNull => "null"
  | JBool true => "true"
  | JBool false => "false"
  | JNum n => pretty n
  | JStr s => s
  | JArr l =>
      String.concat ","
        (map (fun x => match x with
                       | JUndefined | JNull => EmptyString
                       | _ => ToString x
                       end) l)
  | JObj _ => "[object Object]"
  end.

(** ** Strings *)

(** [s.split(c)] for a one-character separator. *)
Fixpoint split (sep : ascii) (s : string) : list string :=
  match s with
  | EmptyString => [EmptyString]
  | String c rest =>
      if Ascii.eqb c sep then EmptyString :: split sep rest
      else match split sep rest with
           | [] => [String c EmptyString]
           | w :: ws => String c w :: ws
           end
  end.

(** White space and line terminators among the code units below 256. *)
Definition is_space (c : ascii) : bool :=
  let n := nat_of_ascii c in
  bool_decide (n ∈ [9; 10; 11; 12; 13; 32; 160]).

Fixpoint trimStart (s : string) : string :=
  match s with
  | EmptyString => EmptyString
  | String c rest => if is_space c then trimStart rest else s
  end.

Fixpoint trimEnd (s : string) : string :=
  match s with
  | EmptyString => EmptyString
  | String c rest =>
      match trimEnd rest with
      | EmptyString => if is_space c then EmptyString else String c EmptyString
      | r => String c r
      end
  end.

(** [s.trim()] *)
Definition trim (s : string) : string := trimEnd (trimStart s).

Definition dquote : ascii := ascii_of_nat 34.
Definition newline : ascii := ascii_of_nat 10.
Definition comma : ascii := ascii_of_nat 44.

(** [s.replace] of every double-quote character by the empty string. *)
Fixpoint strip_quotes (s : string) : string :=
  match s with
  | EmptyString => EmptyString
  | String c rest =>
      if Ascii.eqb c dquote then strip_quotes rest
      else String c (strip_quotes rest)
  end.

(** ** Exceptions and promises *)

(** Every value thrown in the modelled code is an [Error] instance: the
    explicit [new Error(...)] of the handlers and the TypeErrors of the
    runtime. The [catch] clauses read its [message]. *)
Inductive js_error := Error (msg : string).

Definition message (e : js_error) : string :=
  match e with Error m => m end.

(** The settled state of a promise. *)
Inductive outcome :=
| Resolved (v : jsval)
| Rejected (e : js_error).

(** The completion of a block that may throw. *)
Inductive completion (A : Type) :=
| Normal (a : A)
| Throw (e : js_error).
Arguments Normal {A} a.
Arguments Throw {A} e.

(** [const { k } = v]: destructuring [undefined] or [null] is a TypeError. *)
Definition destructure (v : jsval) (k name : string) : completion jsval :=
  match v with
  | JUndefined =>
      Throw (Error ("Cannot destructure property '" +:+ k +:+ "' of '" +:+ name
                    +:+ "' as it is undefined."))
  | JNull =>
      Throw (Error ("Cannot destructure property '" +:+ k +:+ "' of '" +:+ name
                    +:+ "' as it is null."))
  | _ => Normal (getprop v k)
  end.

(** [v.k] where [v] may be [undefined] or [null]. *)
Definition member (v : jsval) (k : string) : completion jsval :=
  match v with
  | JUndefined =>
      Throw (Error ("Cannot read properties of undefined (reading '" +:+ k +:+ "')"))
  | JNull =>
      Throw (Error ("Cannot read properties of null (reading '" +:+ k +:+ "')"))
  | _ => Normal (getprop v k)
  end.

(** ** The platform the main process observes *)

Inductive fsnode :=
| RegularFile (text : string)
| Directory (size : Z).

(** Bytes of the UTF-8 encoding of a text whose code units are below 256. *)
Fixpoint utf8_size (s : string) : Z :=
  match s with
  | EmptyString => 0%Z
  | String c rest =>
      ((if Nat.ltb (nat_of_ascii c) 128 then 1 else 2) + utf8_size rest)%Z
  end.

(** [fs.statSync(p).size] *)
Definition node_size (n : fsnode) : Z :=
  match n with
  | RegularFile text => utf8_size text
  | Directory size => size
  end.

(** What the platform gives the program. [join] is [path.join], which
    depends on the platform (the separator it writes, the separators it
    reads, how it normalises); the program is modelled for whatever the
    platform's [path.join] returns. *)
Record env := {
  disk : gmap string fsnode;               (* the file system, by path *)
  cwd : string;                            (* process.cwd() *)
  homedir : string;                        (* os.homedir() *)
  version : string;                        (* app.getVersion() *)
  join : list string -> string;            (* path.join(...segments) *)
  JSON_parse : string -> option jsval;     (* None: JSON.parse throws *)
  toISOString : nat -> string              (* new Date().toISOString() at a clock reading *)
}.

(** [path.join] on a POSIX platform, as Node computes it: the segments that
    are not empty are put together with [/] and the result is normalised.
    Empty segments and [.] are dropped, [..] takes the segment before it
    away (a relative path keeps the [..] it cannot resolve), and a [/] at
    the end is kept. The segments are collected last segment first. *)
Definition slash : ascii := ascii_of_nat 47.

Definition normalize_segment (allowAboveRoot : bool) (res : list string)
    (segment : string) : list string :=
  if String.eqb segment EmptyString || String.eqb segment "." then res
  else if String.eqb segment ".." then
    match res with
    | last :: before =>
        if String.eqb last ".." then (if allowAboveRoot then ".." :: res else res)
        else before
    | [] => if allowAboveRoot then [".."] else []
    end
  else segment :: res.

Fixpoint ends_with (c : ascii) (s : string) : bool :=
  match s with
  | EmptyString => false
  | String c' EmptyString => Ascii.eqb c' c
  | String _ rest => ends_with c rest
  end.

Definition posix_normalize (path : string) : string :=
  match path with
  | EmptyString => "."
  | String c _ =>
      let isAbsolute := Ascii.eqb c slash in
      let trailingSeparator := ends_with slash path in
      let segments :=
        reverse (foldl (normalize_segment (negb isAbsolute)) [] (split slash path)) in
      match segments with
      | [] => if isAbsolute then "/" else if trailingSeparator then "./" else "."
      | _ =>
          (if isAbsolute then "/" else EmptyString)
          +:+ String.concat "/" segments
          +:+ (if trailingSeparator then "/" else EmptyString)
      end
  end.

Definition posix_join (segments : list string) : string :=
  match filter (fun segment => segment ≠ EmptyString) segments with
  | [] => "."
  | parts => posix_normalize (String.concat "/" parts)
  end.

(** ** State of the main process *)

Abbreviation pid := nat (only parsing).    (* a child process object returned by spawn *)
Abbreviation prom := nat (only parsing).   (* a promise object *)

(** Who awaits the promise returned by [sendToPython]. *)
Inductive waiter :=
| WNobody
| WHealth (h : prom)                    (* health-check, line 198 *)
| WPing (h : prom)                      (* ping-python, line 236 *)
| WImport (h : prom) (symbol : jsval).  (* import-data, line 356 *)

(** Who awaits the promise returned by [start]. *)
Inductive start_caller :=
| ByAppReady                                                  (* line 163 *)
| BySend (c : prom) (action : string) (data : jsval) (w : waiter).  (* line 56 *)

(** The closures handed to [setTimeout]. *)
Inductive timer :=
| StartTimer (s : prom) (k : start_caller)              (* lines 43-50 *)
| MockTimer (c : prom) (action : string) (w : waiter).  (* lines 70-77 *)

(** What the program does to the outside world, in order. *)
Inductive effect :=
| IpcInvoke (channel : string) (data : jsval)   (* ipcRenderer.invoke *)
| SpawnPython (p : pid) (script : string)       (* child_process.spawn *)
| KillPython (p : pid)
| StdinWrite (p : pid) (request : jsval)        (* JSON.stringify(request) + newline *)
| ExistsSync (path : jsval)
| ReadFileSync (path : string)
| StatSync (path : string)
| ShowOpenDialog (h : prom)
| CreateWindow
| ConsoleLog (text : string) (args : list jsval)
| ConsoleError (text : string) (args : list jsval).

Record host := {
  pythonProcess : option pid;           (* this.pythonProcess *)
  running : gset pid;                   (* children whose 'close' has not fired *)
  next_pid : pid;
  now : nat;                            (* the clock, in milliseconds *)
  timers : list (nat * timer);          (* due time and closure, in setTimeout order *)
  next_prom : prom;
  settled : gmap prom outcome;          (* the promises settled so far *)
  dialogs : gset prom;                  (* open-file-dialog calls awaiting the user *)
  mainWindow : bool;                    (* mainWindow !== null *)
  journal : list effect;
  world : env
}.

Definition set_pythonProcess (v : option pid) (st : host) : host :=
  {| pythonProcess := v; running := running st; next_pid := next_pid st;
     now := now st; timers := timers st; next_prom := next_prom st;
     settled := settled st; dialogs := dialogs st; mainWindow := mainWindow st;
     journal := journal st; world := world st |}.

Definition set_running (v : gset pid) (st : host) : host :=
  {| pythonProcess := pythonProcess st; running := v; next_pid := next_pid st;
     now := now st; timers := timers st; next_prom := next_prom st;
     settled := settled st; dialogs := dialogs st; mainWindow := mainWindow st;
     journal := journal st; world := world st |}.

Definition set_next_pid (v : pid) (st : host) : host :=
  {| pythonProcess := pythonProcess st; running := running st; next_pid := v;
     now := now st; timers := timers st; next_prom := next_prom st;
     settled := settled st; dialogs := dialogs st; mainWindow := mainWindow st;
     journal := journal st; world := world st |}.

Definition set_now (v : nat) (st : host) : host :=
  {| pythonProcess := pythonProcess st; running := running st; next_pid := next_pid st;
     now := v; timers := timers st; next_prom := next_prom st;
     settled := settled st; dialogs := dialogs st; mainWindow := mainWindow st;
     journal := journal st; world := world st |}.

Definition set_timers (v : list (nat * timer)) (st : host) : host :=
  {| pythonProcess := pythonProcess st; running := running st; next_pid := next_pid st;
     now := now st; timers := v; next_prom := next_prom st;
     settled := settled st; dialogs := dialogs st; mainWindow := mainWindow st;
     journal := journal st; world := world st |}.

Definition set_next_prom (v : prom) (st : host) : host :=
  {| pythonProcess := pythonProcess st; running := running st; next_pid := next_pid st;
     now := now st; timers := timers st; next_prom := v;
     settled := settled st; dialogs := dialogs st; mainWindow := mainWindow st;
     journal := journal st; world := world st |}.

Definition set_settled (v : gmap prom outcome) (st : host) : host :=
  {| pythonProcess := pythonProcess st; running := running st; next_pid := next_pid st;
     now := now st; timers := timers st; next_prom := next_prom st;
     settled := v; dialogs := dialogs st; mainWindow := mainWindow st;
     journal := journal st; world := world st |}.

Definition set_dialogs (v : gset prom) (st : host) : host :=
  {| pythonProcess := pythonProcess st; running := running st; next_pid := next_pid st;
     now := now st; timers := timers st; next_prom := next_prom st;
     settled := settled st; dialogs := v; mainWindow := mainWindow st;
     journal := journal st; world := world st |}.

Definition set_mainWindow (v : bool) (st : host) : host :=
  {| pythonProcess := pythonProcess st; running := running st; next_pid := next_pid st;
     now := now st; timers := timers st; next_prom := next_prom st;
     settled := settled st; dialogs := dialogs st; mainWindow := v;
     journal := journal st; world := world st |}.

Definition set_journal (v : list effect) (st : host) : host :=
  {| pythonProcess := pythonProcess st; running := running st; next_pid := next_pid st;
     now := now st; timers := timers st; next_prom := next_prom st;
     settled := settled st; dialogs := dialogs st; mainWindow := mainWindow st;
     journal := v; world := world st |}.

(** Append effects to the journal. *)
Definition emit (es : list effect) (st : host) : host :=
  set_journal (journal st ++ es) st.

(** [setTimeout(closure, delay)] *)
Definition setTimeout (t : timer) (delay : nat) (st : host) : host :=
  set_timers (timers st ++ [(now st + delay, t)]) st.

(** A fresh promise object. *)
Definition new_promise (st : host) : prom * host :=
  (next_prom st, set_next_prom (S (next_prom st)) st).

(** [resolve(v)] or [reject(e)]: a promise settles once, later calls do
    nothing. *)
Definition settle (p : prom) (o : outcome) (st : host) : host :=
  match settled st !! p with
  | Some _ => st
  | None => set_settled (<[p := o]> (settled st)) st
  end.

(** ** Code that reads and changes the state and may throw *)

Definition js (A : Type) : Type := host -> completion A * host.

#[global] Instance js_ret : MRet js := fun A a st => (Normal a, st).
#[global] Instance js_bind : MBind js := fun A B f m st =>
  match m st with
  | (Normal a, st') => f a st'
  | (Throw e, st') => (Throw e, st')
  end.

(** [throw e] *)
Definition throw {A} (e : js_error) : js A := fun st => (Throw e, st).

(** [try { body } catch (error) { handler }] *)
Definition try_catch {A} (body : js A) (handler : js_error -> js A) : js A :=
  fun st =>
    match body st with
    | (Normal a, st') => (Normal a, st')
    | (Throw e, st') => handler e st'
    end.

Definition lift {A} (c : completion A) : js A := fun st => (c, st).
Definition perform (es : list effect) : js unit := fun st => (Normal tt, emit es st).
Definition inspect {A} (f : host -> A) : js A := fun st => (Normal (f st), st).

(** [this.pythonProcess = v] *)
Definition assign_pythonProcess (v : option pid) : js unit :=
  fun st => (Normal tt, set_pythonProcess v st).

(** [if (!c) throw new Error(s)] *)
Definition unless_throw (c : bool) (s : string) : js unit :=
  if c then mret tt else throw (Error s).

(** [await p] once [p] has settled with [o]. *)
Definition await (o : outcome) : js jsval :=
  match o with
  | Resolved v => mret v
  | Rejected e => throw e
  end.

(** The promise of an async function settles with the completion of its
    body. *)
Definition finish (h : prom) (r : completion jsval * host) : host :=
  match r with
  | (Normal v, st) => settle h (Resolved v) st
  | (Throw e, st) => settle h (Rejected e) st
  end.

(** [fs.existsSync]: false for what is not a path. *)
Definition existsSync (path : jsval) : js bool := fun st =>
  (Normal match path with
          | JStr s => bool_decide (is_Some (disk (world st) !! s))
          | _ => false
          end,
   emit [ExistsSync path] st).

(** [fs.statSync(path).size] *)
Definition statSync_size (path : string) : js Z := fun st =>
  (match disk (world st) !! path with
   | Some n => Normal (node_size n)
   | None => Throw (Error ("ENOENT: no such file or directory, stat '" +:+ path +:+ "'"))
   end,
   emit [StatSync path] st).

(** [fs.readFileSync(path, 'utf8')] *)
Definition readFileSync (path : jsval) : js string := fun st =>
  match path with
  | JStr s =>
      (match disk (world st) !! s with
       | Some (RegularFile text) => Normal text
       | Some (Directory _) =>
           Throw (Error "EISDIR: illegal operation on a directory, read")
       | None =>
           Throw (Error ("ENOENT: no such file or directory, open '" +:+ s +:+ "'"))
       end,
       emit [ReadFileSync s] st)
  | _ =>
      (Throw (Error "The path argument must be of type string or an instance of Buffer or URL."),
       st)
  end.

(** [{ error: error.message }] *)
Definition error_object (e : js_error) : jsval :=
  obj [("error", JStr (message e))].

(** ** The handlers' code after their [await] *)

(** [getDatabasePath()], and the path the health check probes. *)
Definition getDatabasePath (w : env) : string :=
  join w [homedir w; ".byod_backtesting"; "trading_data.db"].

(** [new Date().toISOString()] *)
Definition timestamp_now : js string :=
  inspect (fun st => toISOString (world st) (now st)).

(** [app.getVersion()] *)
Definition getVersion : js string := inspect (fun st => version (world st)).

Definition databasePath : js string :=
  inspect (fun st => getDatabasePath (world st)).

(** [JSON.parse(text)] *)
Definition parse_json (text : string) : js jsval := fun st =>
  (match JSON_parse (world st) text with
   | Some v => Normal v
   | None => Throw (Error "Unexpected token in JSON")
   end, st).

(** health-check, lines 199-219: the [try] block after the await. *)
Definition health_check_body (o : outcome) : js jsval :=
  pythonHealth ← await o;
  dbPath ← databasePath;
  dbExists ← existsSync (JStr dbPath);
  dbSize ← (if dbExists : bool then statSync_size dbPath else mret 0%Z);
  timestamp ← timestamp_now;
  appVersion ← getVersion;
  mret (obj [("status", JStr "ok");
             ("database", JStr (if dbExists : bool then "connected" else "created"));
             ("timestamp", JStr timestamp);
             ("version", JStr appVersion);
             ("python_backend", pythonHealth);
             ("electron_main", obj [("ok", JBool true); ("from", JStr "main")]);
             ("database_info", obj [("path", JStr dbPath);
                                    ("exists", JBool dbExists);
                                    ("size", JNum dbSize)])]).

(** health-check, lines 220-227: the [catch] block. *)
Definition health_check_catch (e : js_error) : js jsval :=
  timestamp ← timestamp_now;
  appVersion ← getVersion;
  mret (obj [("status", JStr "error");
             ("timestamp", JStr timestamp);
             ("version", JStr appVersion);
             ("error", JStr (message e))]).

(** ping-python, lines 235-239. *)
Definition ping_python_body (o : outcome) : js jsval := await o.
Definition ping_python_catch (e : js_error) : js jsval := mret (error_object e).

(** import-data, lines 356-371: the [try] block from the await on. *)
Definition import_data_body (symbol : jsval) (o : outcome) : js jsval :=
  result ← await o;
  err ← lift (member result "error");
  _ ← (if truthy err then throw (Error (ToString err)) else mret tt);
  _ ← perform [ConsoleLog "Data import successful:" [result]];
  mret (obj [("success", JBool true);
             ("rowsImported", js_or (getprop result "rows_imported") (JNum 0));
             ("symbol", symbol)]).

(** import-data, lines 372-377: the [catch] block. *)
Definition import_data_catch (e : js_error) : js jsval :=
  _ ← perform [ConsoleError "Error in import-data:" [JStr (message e)]];
  mret (error_object e).

(** The awaiting handler runs on when the promise of [sendToPython] has
    settled with [o]. *)
Definition resume (w : waiter) (o : outcome) (st : host) : host :=
  match w with
  | WNobody => st
  | WHealth h => finish h (try_catch (health_check_body o) health_check_catch st)
  | WPing h => finish h (try_catch (ping_python_body o) ping_python_catch st)
  | WImport h symbol =>
      finish h (try_catch (import_data_body symbol o) import_data_catch st)
  end.

(** ** PythonService *)

(** The placeholder that [sendToPython] resolves with, lines 71-76. *)
Definition mock_response (action : string) : jsval :=
  obj [("status", JStr "ok");
       ("message", JStr "Request sent to Python backend");
       ("action", JStr action);
       ("python_alive", JBool true)].

(** [createWindow()], as far as the handlers observe it. *)
Definition createWindow (st : host) : host :=
  set_mainWindow true (emit [CreateWindow] st).

(** [start()], lines 15-52: spawn unconditionally, take the new child as
    [this.pythonProcess], and arm the one-second timer that settles the
    returned promise. The caller [k] awaits that promise.

    [spawn] returns a child object whether or not the operating system
    could start the program, and the code registers no ['error'] listener:
    what it observes of a child are the events on [stdout] and [stderr] and
    the ['close'] event. The child is kept in [running] until its ['close']
    event; a child that could not be started is one more child that has not
    closed, and for as long as no ['close'] arrives for it the handle keeps
    it. *)
Definition start (k : start_caller) (st : host) : prom * host :=
  let script := join (world st) [cwd (world st); "backend"; "main.py"] in
  let p := next_pid st in
  let st := emit [ConsoleLog "Starting Python backend:" [JStr script];
                  SpawnPython p script] st in
  let st := set_next_pid (S p) st in
  let st := set_running ({[p]} ∪ running st) st in
  let st := set_pythonProcess (Some p) st in
  let '(s, st) := new_promise st in
  (s, setTimeout (StartTimer s k) 1000 st).

(** The promise executor of [sendToPython], lines 59-78. *)
Definition send_body (c : prom) (action : string) (data : jsval) (w : waiter)
    (st : host) : host :=
  let request := obj [("action", JStr action);
                      ("data", data);
                      ("timestamp", JStr (toISOString (world st) (now st)))] in
  match pythonProcess st with
  | Some p =>
      setTimeout (MockTimer c action w) 100
        (emit [StdinWrite p request; ConsoleLog "Sent to Python:" [request]] st)
  | None =>
      let e := Error "Cannot read properties of null (reading 'stdin')" in
      resume w (Rejected e) (settle c (Rejected e) st)
  end.

(** [sendToPython(action, data)], lines 54-79; [w] awaits the result. *)
Definition sendToPython (action : string) (data : jsval) (w : waiter)
    (st : host) : prom * host :=
  let '(c, st) := new_promise st in
  match pythonProcess st with
  | None => (c, (start (BySend c action data w) st).2)
  | Some _ => (c, send_body c action data w st)
  end.

(** [stop()], lines 88-93. *)
Definition stop (st : host) : host :=
  match pythonProcess st with
  | Some p => set_pythonProcess None (emit [KillPython p] st)
  | None => st
  end.

(** The stdout listener, lines 23-31. *)
Definition on_stdout (chunk : string) : js unit :=
  try_catch
    (response ← parse_json chunk;
     perform [ConsoleLog "Python response:" [response]])
    (fun _ => perform [ConsoleLog "Python stdout:" [JStr chunk]]).

(** The stderr listener, lines 33-35. *)
Definition on_stderr (chunk : string) : js unit :=
  perform [ConsoleError "Python stderr:" [JStr chunk]].

(** The close listener, lines 37-40. *)
Definition on_close (code : Z) : js unit :=
  _ ← perform [ConsoleLog "Python process exited with code" [JNum code]];
  assign_pythonProcess None.

(** A timer fires. *)
Definition fire (t : timer) (st : host) : host :=
  match t with
  | StartTimer s k =>
      match pythonProcess st with
      | Some _ =>
          let st := emit [ConsoleLog "Python backend process started" []] st in
          let st := settle s (Resolved (JBool true)) st in
          match k with
          | ByAppReady =>
              createWindow
                (emit [ConsoleLog "Python backend service initialized" []] st)
          | BySend c action data w => send_body c action data w st
          end
      | None =>
          let e := Error "Failed to start Python process" in
          let st := settle s (Rejected e) st in
          match k with
          | ByAppReady =>
              createWindow
                (emit [ConsoleError "Failed to start Python backend:"
                         [JStr (message e)]] st)
          | BySend c action data w => resume w (Rejected e) (settle c (Rejected e) st)
          end
      end
  | MockTimer c action w =>
      let v := mock_response action in
      resume w (Resolved v) (settle c (Resolved v) st)
  end.

(** ** The [ipcMain.handle] handlers *)

(** Lines 308 and 313: split at commas, trim each cell and drop its
    double quotes. *)
Definition cells (line : string) : list string :=
  map (fun v => strip_quotes (trim v)) (split comma line).

(** [row[col] = v] on a plain object: assigning a string to [__proto__]
    creates no property. *)
Definition set_prop (col : string) (v : jsval) (row : gmap string jsval) :
    gmap string jsval :=
  if String.eqb col "__proto__" then row else <[col := v]> row.

(** Lines 314-318: [columns.forEach((col, index) => row[col] = values[index] || '')]. *)
Definition make_row (columns values : list string) : jsval :=
  JObj (foldl (fun row '(index, col) =>
                 set_prop col
                   (js_or (from_option JStr JUndefined (values !! index))
                          (JStr EmptyString))
                   row)
              ∅ (imap pair columns)).

(** The loop of lines 312-321, from index [i] for [count] rounds; reading
    [lines[i].split] past the end is a TypeError. *)
Fixpoint preview_rows (lines columns : list string) (i count : nat) :
    completion (list jsval) :=
  match count with
  | 0 => Normal []
  | S n =>
      match lines !! i with
      | None =>
          Throw (Error "Cannot read properties of undefined (reading 'split')")
      | Some line =>
          match preview_rows lines columns (S i) n with
          | Normal rows => Normal (make_row columns (cells line) :: rows)
          | Throw e => Throw e
          end
      end
  end.

(** [fileContent.split('\n').filter(line => line.trim())] *)
Definition nonblank_lines (fileContent : string) : list string :=
  filter (fun line => truthy (JStr (trim line)) = true) (split newline fileContent).

(** preview-file, lines 290-333: the [try] block. *)
Definition preview_file_body (data : jsval) : js jsval :=
  filePath ← lift (destructure data "filePath" "data");
  _ ← unless_throw (truthy filePath) "No file path provided";
  found ← existsSync filePath;
  _ ← unless_throw found "File does not exist";
  fileContent ← readFileSync filePath;
  let lines := nonblank_lines fileContent in
  _ ← unless_throw (negb (length lines =? 0)%nat) "File is empty";
  let columns := cells (hd EmptyString lines) in
  let maxPreviewRows := Nat.min 10 (length lines - 1) in
  preview ← lift (preview_rows lines columns 1 maxPreviewRows);
  _ ← perform [ConsoleLog "File preview generated:"
                 [obj [("columns", JNum (Z.of_nat (length columns)));
                       ("previewRows", JNum (Z.of_nat (length preview)));
                       ("totalRows", JNum (Z.of_nat (length lines - 1)))]]];
  mret (obj [("preview", JArr preview);
             ("columns", JArr (JStr <$> columns));
             ("rows_total", JNum (Z.of_nat (length lines - 1)))]).

(** preview-file, lines 334-339: the [catch] block. *)
Definition preview_file_catch (e : js_error) : js jsval :=
  _ ← perform [ConsoleError "Error in preview-file:" [JStr (message e)]];
  mret (error_object e).

Definition handle_preview_file (data : jsval) (st : host) : prom * host :=
  let '(h, st) := new_promise st in
  (h, finish h (try_catch (preview_file_body data) preview_file_catch st)).

(** import-data, lines 345-353: the [try] block up to the await. *)
Definition import_data_checks (data : jsval) : js (jsval * jsval) :=
  filePath ← lift (destructure data "filePath" "data");
  symbol ← lift (destructure data "symbol" "data");
  _ ← unless_throw (truthy filePath) "No file path provided";
  found ← existsSync filePath;
  _ ← unless_throw found "File does not exist";
  mret (filePath, symbol).

Definition handle_import_data (data : jsval) (st : host) : prom * host :=
  let '(h, st) := new_promise st in
  match import_data_checks data st with
  | (Normal (filePath, symbol), st) =>
      (h, (sendToPython "import-data"
             (obj [("file_path", filePath); ("symbol", symbol)])
             (WImport h symbol) st).2)
  | (Throw e, st) => (h, finish h (import_data_catch e st))
  end.

Definition handle_health_check (st : host) : prom * host :=
  let '(h, st) := new_promise st in
  (h, (sendToPython "health-check" JUndefined (WHealth h) st).2).

Definition handle_ping_python (st : host) : prom * host :=
  let '(h, st) := new_promise st in
  (h, (sendToPython "ping" JUndefined (WPing h) st).2).

(** Line 231. *)
Definition handle_ping (st : host) : prom * host :=
  let '(h, st) := new_promise st in
  (h, settle h (Resolved (obj [("ok", JBool true); ("from", JStr "main")])) st).

(** open-file-dialog, lines 243-285, up to the dialog being shown. *)
Definition handle_open_file_dialog (st : host) : prom * host :=
  let '(h, st) := new_promise st in
  if mainWindow st then
    (h, set_dialogs ({[h]} ∪ dialogs st) (emit [ShowOpenDialog h] st))
  else
    let e := Error "Main window not available" in
    (h, settle h (Resolved (obj [("canceled", JBool false);
                                 ("error", JStr (message e))]))
          (emit [ConsoleError "Error in open-file-dialog:" [JStr (message e)]] st)).

(** open-file-dialog, lines 263-277: the user has closed the dialog. *)
Definition dialog_result (canceled : bool) (filePaths : list string) : js jsval :=
  if canceled then mret (obj [("canceled", JBool true)])
  else match filePaths with
       | [] => mret (obj [("canceled", JBool true)])
       | filePath :: _ =>
           _ ← perform [ConsoleLog "File selected:" [JStr filePath]];
           mret (obj [("canceled", JBool false); ("filePath", JStr filePath)])
       end.

(** What [ipcRenderer.invoke(channel, data)] sets off in the main process:
    the handler registered for the channel, or a rejection when none is. *)
Definition ipc_invoke (channel : string) (data : jsval) (st : host) : prom * host :=
  let st := emit [IpcInvoke channel data] st in
  if String.eqb channel "health-check" then handle_health_check st
  else if String.eqb channel "ping" then handle_ping st
  else if String.eqb channel "ping-python" then handle_ping_python st
  else if String.eqb channel "open-file-dialog" then handle_open_file_dialog st
  else if String.eqb channel "preview-file" then handle_preview_file data st
  else if String.eqb channel "import-data" then handle_import_data data st
  else
    let '(h, st) := new_promise st in
    (h, settle h (Rejected (Error ("Error invoking remote method '" +:+ channel
                                   +:+ "': Error: No handler registered for '"
                                   +:+ channel +:+ "'"))) st).

(** ** The preload script: [window.electronAPI] *)

Definition validChannels : list string :=
  ["health-check"; "open-file-dialog"; "preview-file"; "import-data";
   "run-backtest"; "get-strategies"; "save-strategy"; "get-price-data";
   "get-backtest-results"].

(** [electronAPI.invoke(channel, data)], lines 18-37 of the preload script:
    the promise of [ipcRenderer.invoke], or a thrown [Error]. *)
Definition invoke (channel : string) (data : jsval) : js prom := fun st =>
  if bool_decide (channel ∈ validChannels) then
    let '(h, st') := ipc_invoke channel data st in (Normal h, st')
  else (Throw (Error ("Invalid channel: " +:+ channel)), st).

(** [electronAPI.ping()] and [electronAPI.pingPython()] *)
Definition ping : js prom := fun st =>
  let '(h, st') := ipc_invoke "ping" JUndefined st in (Normal h, st').
Definition pingPython : js prom := fun st =>
  let '(h, st') := ipc_invoke "ping-python" JUndefined st in (Normal h, st').

(** ** Subscriptions: [electronAPI.on] *)

(** The listeners [ipcRenderer] holds, by channel and in the order they were
    added. A callback is known by its identity. *)
Abbreviation callback := nat (only parsing).
Abbreviation registry := (gmap string (list nat)) (only parsing).

(** [ipcRenderer.listeners(channel)] *)
Definition listeners (r : registry) (channel : string) : list callback :=
  default [] (r !! channel).

(** [ipcRenderer.on(channel, cb)]: the callback is added after the others,
    also when it is there already. *)
Definition ipcRenderer_on (channel : string) (cb : callback) (r : registry) :
    registry :=
  <[channel := listeners r channel ++ [cb]]> r.

Fixpoint remove_first (cb : callback) (l : list callback) : list callback :=
  match l with
  | [] => []
  | x :: l' => if decide (x = cb) then l' else x :: remove_first cb l'
  end.

(** [ipcRenderer.removeListener(channel, cb)]: the list is searched from its
    end, and the most recently added instance of the callback, if there is
    one, is removed. *)
Definition removeListener (channel : string) (cb : callback) (r : registry) :
    registry :=
  alter (fun l => reverse (remove_first cb (reverse l))) channel r.

(** The channels the renderer may subscribe to, line 41 of the preload
    script. *)
Definition on_validChannels : list string := ["progress-update"; "error-occurred"].

(** The closure returned at line 46. *)
Inductive cleanup := Cleanup (channel : string) (cb : callback).

(** [electronAPI.on(channel, callback)], lines 40-50 of the preload script. *)
Definition on (channel : string) (cb : callback) (r : registry) :
    completion cleanup * registry :=
  if bool_decide (channel ∈ on_validChannels) then
    (Normal (Cleanup channel cb), ipcRenderer_on channel cb r)
  else (Throw (Error ("Invalid channel: " +:+ channel)), r).

(** Calling the closure that [on] returned. *)
Definition run_cleanup (c : cleanup) (r : registry) : registry :=
  match c with Cleanup channel cb => removeListener channel cb r end.

(** ** The event loop *)

(** What the environment can make happen, one macrotask each. *)
Inductive event :=
| Tick                                        (* one millisecond passes *)
| Stdout (p : pid) (chunk : string)           (* 'data' on the child's stdout *)
| Stderr (p : pid) (chunk : string)           (* 'data' on the child's stderr *)
| Close (p : pid) (code : Z)                  (* the child's 'close' *)
| ApiInvoke (channel : string) (data : jsval) (* the renderer calls electronAPI.invoke *)
| ApiPing
| ApiPingPython
| DialogClosed (h : prom) (canceled : bool) (filePaths : list string)
| WindowClosed.                               (* mainWindow's 'closed' *)

(** A timer is due once the clock has reached its time. *)
Definition is_due (t : nat) (x : nat * timer) : Prop := (x.1 ≤ t)%nat.

#[global] Instance is_due_dec t x : Decision (is_due t x).
Proof. unfold is_due. apply _. Defined.

(** One millisecond passes: the timers now due fire in the order they were
    set. A timer set meanwhile is due 100 or 1000 ms later. *)
Definition tick (st : host) : host :=
  let t := S (now st) in
  let due := filter (is_due t) (timers st) in
  let rest := filter (fun x => ¬ is_due t x) (timers st) in
  foldl (fun st x => fire x.2 st) (set_timers rest (set_now t st)) due.

(** A child that has closed emits nothing more; the renderer and the dialog
    are not constrained. *)
Definition step (st : host) (e : event) : host :=
  match e with
  | Tick => tick st
  | Stdout p chunk =>
      if bool_decide (p ∈ running st) then (on_stdout chunk st).2 else st
  | Stderr p chunk =>
      if bool_decide (p ∈ running st) then (on_stderr chunk st).2 else st
  | Close p code =>
      if bool_decide (p ∈ running st)
      then (on_close code (set_running (running st ∖ {[p]}) st)).2
      else st
  | ApiInvoke channel data => (invoke channel data st).2
  | ApiPing => (ping st).2
  | ApiPingPython => (pingPython st).2
  | DialogClosed h canceled filePaths =>
      if bool_decide (h ∈ dialogs st)
      then finish h (dialog_result canceled filePaths
                       (set_dialogs (dialogs st ∖ {[h]}) st))
      else st
  | WindowClosed => set_mainWindow false st
  end.

Definition run (st : host) (es : list event) : host := foldl step st es.

(** [n] milliseconds pass with nothing else happening. *)
Definition wait (n : nat) : list event := replicate n Tick.

(** The number of milliseconds that pass during a trace. *)
Fixpoint elapsed (es : list event) : nat :=
  match es with
  | [] => 0
  | Tick :: es => S (elapsed es)
  | _ :: es => elapsed es
  end.

(** The main process when the module has loaded. *)
Definition loaded (w : env) : host :=
  {| pythonProcess := None; running := ∅; next_pid := 0; now := 0;
     timers := []; next_prom := 0; settled := ∅; dialogs := ∅;
     mainWindow := false; journal := []; world := w |}.

(** [app.whenReady().then(...)], lines 160-177: [pythonService.start()] is
    awaited, then the window is created. *)
Definition booted (w : env) : host := (start ByAppReady (loaded w)).2.


(** ** The renderer: the [ImportData] component *)

Module ImportData.

(** The state hooks of the component, lines 45-52, and the console of the
    renderer. *)
Record state := {
  filePath : jsval;
  preview : jsval;
  columns : jsval;
  loading : bool;
  error : string;
  rowsTotal : jsval;
  importing : bool;
  importSuccess : string;
  console : list effect
}.

(** The state of the first render. *)
Definition initial : state :=
  {| filePath := JStr EmptyString; preview := JArr []; columns := JArr [];
     loading := false; error := EmptyString; rowsTotal := JNum 0;
     importing := false; importSuccess := EmptyString; console := [] |}.

Definition setFilePath (v : jsval) (u : state) : state :=
  {| filePath := v; preview := preview u; columns := columns u;
     loading := loading u; error := error u; rowsTotal := rowsTotal u;
     importing := importing u; importSuccess := importSuccess u;
     console := console u |}.

Definition setPreview (v : jsval) (u : state) : state :=
  {| filePath := filePath u; preview := v; columns := columns u;
     loading := loading u; error := error u; rowsTotal := rowsTotal u;
     importing := importing u; importSuccess := importSuccess u;
     console := console u |}.

Definition setColumns (v : jsval) (u : state) : state :=
  {| filePath := filePath u; preview := preview u; columns := v;
     loading := loading u; error := error u; rowsTotal := rowsTotal u;
     importing := importing u; importSuccess := importSuccess u;
     console := console u |}.

Definition setLoading (v : bool) (u : state) : state :=
  {| filePath := filePath u; preview := preview u; columns := columns u;
     loading := v; error := error u; rowsTotal := rowsTotal u;
     importing := importing u; importSuccess := importSuccess u;
     console := console u |}.

Definition setError (v : string) (u : state) : state :=
  {| filePath := filePath u; preview := preview u; columns := columns u;
     loading := loading u; error := v; rowsTotal := rowsTotal u;
     importing := importing u; importSuccess := importSuccess u;
     console := console u |}.

Definition setRowsTotal (v : jsval) (u : state) : state :=
  {| filePath := filePath u; preview := preview u; columns := columns u;
     loading := loading u; error := error u; rowsTotal := v;
     importing := importing u; importSuccess := importSuccess u;
     console := console u |}.

Definition setImporting (v : bool) (u : state) : state :=
  {| filePath := filePath u; preview := preview u; columns := columns u;
     loading := loading u; error := error u; rowsTotal := rowsTotal u;
     importing := v; importSuccess := importSuccess u;
     console := console u |}.

Definition setImportSuccess (v : string) (u : state) : state :=
  {| filePath := filePath u; preview := preview u; columns := columns u;
     loading := loading u; error := error u; rowsTotal := rowsTotal u;
     importing := importing u; importSuccess := v;
     console := console u |}.

(** [console.log] and [console.error] in the renderer. *)
Definition log (es : list effect) (u : state) : state :=
  {| filePath := filePath u; preview := preview u; columns := columns u;
     loading := loading u; error := error u; rowsTotal := rowsTotal u;
     importing := importing u; importSuccess := importSuccess u;
     console := console u ++ es |}.

(** An async function of the component: it has returned with the state it
    has set, or it is at [await window.electronAPI.invoke(channel, data)]
    and goes on with the value the promise resolves with, or with the error
    that the promise is rejected with or that [invoke] throws. *)
Inductive task :=
| Return (u : state)
| Await (channel : string) (data : jsval) (k : completion jsval -> task).

(** [handleSelectFile], lines 85-90: the [catch] and the [finally]
    clause. *)
Definition select_failed (e : js_error) (u : state) : task :=
  Return (setLoading false
            (log [ConsoleError "File selection error:" [JStr (message e)]]
               (setError (message e) u))).

(** [handleSelectFile]: the [finally] clause after the [try] block has
    returned. *)
Definition select_done (u : state) : task := Return (setLoading false u).

(** [handleSelectFile], lines 75-84: the preview of the path that was
    chosen. *)
Definition previewSelected (selectedPath : jsval) (u : state) : task :=
  Await "preview-file" (obj [("filePath", selectedPath)]) (fun r =>
    match r with
    | Throw e => select_failed e u
    | Normal previewResult =>
        match member previewResult "error" with
        | Throw e => select_failed e u
        | Normal err =>
            if truthy err then select_failed (Error (ToString err)) u
            else
              select_done
                (setError EmptyString
                   (setRowsTotal
                      (js_or (getprop previewResult "rows_total") (JNum 0))
                      (setColumns
                         (js_or (getprop previewResult "columns") (JArr []))
                         (setPreview
                            (js_or (getprop previewResult "preview") (JArr []))
                            u))))
        end
    end).

(** [handleSelectFile], lines 54-91; [api] tells whether
    [window.electronAPI] is there. *)
Definition handleSelectFile (api : bool) (u : state) : task :=
  if negb api then
    Return (setError "Electron API not available. Running in browser?" u)
  else
    let u := setError EmptyString (setLoading true u) in
    Await "open-file-dialog" JUndefined (fun r =>
      match r with
      | Throw e => select_failed e u
      | Normal result =>
          match member result "canceled" with
          | Throw e => select_failed e u
          | Normal canceled =>
              if truthy canceled then select_done u
              else if truthy (getprop result "error") then
                select_failed (Error (ToString (getprop result "error"))) u
              else
                let selectedPath := getprop result "filePath" in
                previewSelected selectedPath (setFilePath selectedPath u)
          end
      end).

(** [handleImportData], lines 119-124: the [catch] and the [finally]
    clause. *)
Definition import_failed (e : js_error) (u : state) : task :=
  Return (setImporting false
            (log [ConsoleError "Import error:" [JStr (message e)]]
               (setError (message e) u))).

(** [handleImportData], lines 93-125; [symbolInput] is the value of the
    input element [symbol], if the element is there. *)
Definition handleImportData (api : bool) (symbolInput : option string)
    (u : state) : task :=
  if negb api || negb (truthy (filePath u)) then
    Return (setError "No file selected or Electron API not available" u)
  else
    let path := filePath u in
    let u := setImportSuccess EmptyString
               (setError EmptyString (setImporting true u)) in
    let symbol := js_or (from_option (fun v => JStr (trim v)) JUndefined symbolInput)
                        (JStr "DEFAULT") in
    Await "import-data" (obj [("filePath", path); ("symbol", symbol)]) (fun r =>
      match r with
      | Throw e => import_failed e u
      | Normal result =>
          match member result "error" with
          | Throw e => import_failed e u
          | Normal err =>
              if truthy err then import_failed (Error (ToString err)) u
              else
                Return
                  (setImporting false
                     (log [ConsoleLog "Import successful:" [result]]
                        (setImportSuccess
                           ("Successfully imported "
                            +:+ ToString (js_or (getprop result "rowsImported")
                                                (JNum 0))
                            +:+ " rows of " +:+ ToString symbol +:+ " data")
                           u)))
          end
      end).

End ImportData.

(** The main process up to the event in which the promise [h] settles: the
    outcome, the state then, and the events that are left. [None]: the
    promise is pending when the events are over. *)
Fixpoint settle_wait (h : prom) (st : host) (es : list event) :
    option (outcome * host * list event) :=
  match settled st !! h with
  | Some o => Some (o, st, es)
  | None =>
      match es with
      | [] => None
      | e :: es' => settle_wait h (step st e) es'
      end
  end.

(** A function of the component runs while the events [es] happen in the
    main process: each call goes through [electronAPI.invoke], and the
    function goes on after the event in which the promise has settled.
    [None]: it is still waiting when the events are over. *)
Fixpoint drive (t : ImportData.task) (st : host) (es : list event) :
    option (ImportData.state * host) :=
  match t with
  | ImportData.Return u => Some (u, run st es)
  | ImportData.Await channel data k =>
      match invoke channel data st with
      | (Throw e, st') => drive (k (Throw e)) st' es
      | (Normal h, st') =>
          match settle_wait h st' es with
          | None => None
          | Some (Resolved v, st'', es') => drive (k (Normal v)) st'' es'
          | Some (Rejected e, st'', es') => drive (k (Throw e)) st'' es'
          end
      end
  end.

(** ** Notions used by the properties *)

(** The promises a timer closure holds on to. *)
Definition waiter_refs (w : waiter) : list prom :=
  match w with
  | WNobody => []
  | WHealth h | WPing h | WImport h _ => [h]
  end.

Definition caller_refs (k : start_caller) : list prom :=
  match k with
  | ByAppReady => []
  | BySend c _ _ w => c :: waiter_refs w
  end.

Definition refs (t : timer) : list prom :=
  match t with
  | StartTimer s k => s :: caller_refs k
  | MockTimer c _ w => c :: waiter_refs w
  end.



(** The timer a firing timer sets. *)
Definition spawned_timers (t : timer) (st : host) : list (nat * timer) :=
  match t, pythonProcess st with
  | StartTimer _ (BySend c action _ w), Some _ => [(now st + 100, MockTimer c action w)]
  | _, _ => []
  end.

(** Promise objects are allocated in order: whatever the state mentions has
    been allocated before. *)
Definition wf (st : host) : Prop :=
  (∀ h, is_Some (settled st !! h) → h < next_prom st) ∧
  (∀ x h, x ∈ timers st → h ∈ refs x.2 → h < next_prom st) ∧
  (∀ h, h ∈ dialogs st → h < next_prom st).

(** Every child that has not closed is the one [this.pythonProcess] holds. *)
Definition one_worker (st : host) : Prop :=
  ∀ p, p ∈ running st → pythonProcess st = Some p.

(** A transition that spawns nothing, allocates no promise and leaves the
    clock, the process handle and the dialogs alone. *)
Definition quiet (st st' : host) : Prop :=
  pythonProcess st' = pythonProcess st ∧ running st' = running st ∧
  next_pid st' = next_pid st ∧ next_prom st' = next_prom st ∧
  now st' = now st ∧ dialogs st' = dialogs st ∧ world st' = world st.

(** A transition that leaves the process handle and the children alone. *)
Definition same_worker (st st' : host) : Prop :=
  pythonProcess st' = pythonProcess st ∧ running st' = running st ∧
  next_pid st' = next_pid st.

(** The journal is only ever appended to. *)
Definition extends (st st' : host) : Prop :=
  ∃ es : list effect, journal st' = (journal st ++ es)%list.

(** A computation that changes nothing but the journal, which it extends. *)
Definition logs_only {A} (m : js A) : Prop :=
  ∀ st, ∃ es, (m st).2 = emit es st.

(** A computation that never throws. *)
Definition total {A} (m : js A) : Prop :=
  ∀ st, ∃ a, (m st).1 = Normal a.

(** The line the stdout listener logs for a chunk. *)
Definition stdout_line (w : env) (chunk : string) : effect :=
  match JSON_parse w chunk with
  | Some response => ConsoleLog "Python response:" [response]
  | None => ConsoleLog "Python stdout:" [JStr chunk]
  end.

(** The events a child process causes, and the passing of time. *)
Definition worker_event (p : pid) (e : event) : Prop :=
  match e with
  | Tick => True
  | Stdout q _ | Stderr q _ | Close q _ => q = p
  | _ => False
  end.


(** Whether a character occurs in a text. *)
Fixpoint has_char (c : ascii) (s : string) : bool :=
  match s with
  | EmptyString => false
  | String c' rest => Ascii.eqb c' c || has_char c rest
  end.

(** A text of white space and line terminators only. *)
Fixpoint all_space (s : string) : bool :=
  match s with
  | EmptyString => true
  | String c rest => is_space c && all_space rest
  end.

(** A line of a text file: no line feed inside, and not blank. *)
Definition is_line (l : string) : Prop :=
  has_char newline l = false ∧ all_space l = false.

(** The text of a file with the given lines, with or without a line feed
    after the last one. *)
Definition file_of_lines (ls : list string) (final_newline : bool) : string :=
  String.append (String.concat (String newline EmptyString) ls)
    (if final_newline then String newline EmptyString else EmptyString).

(** A comma-separated line with the given fields, written as they are. *)
Definition csv_line (fields : list string) : string := String.concat "," fields.

(** Whether a text begins, or ends, with white space. *)
Definition begins_blank (s : string) : bool :=
  match s with
  | EmptyString => false
  | String c _ => is_space c
  end.

Fixpoint ends_blank (s : string) : bool :=
  match s with
  | EmptyString => false
  | String c EmptyString => is_space c
  | String _ rest => ends_blank rest
  end.

(** A field that a comma-separated line can hold as it is: it has no comma
    and no double quote, and no white space at either end. *)
Definition plain (field : string) : Prop :=
  has_char comma field = false ∧ has_char dquote field = false ∧
  begins_blank field = false ∧ ends_blank field = false.

(** The object [{name1: value1, ...}] of a row. *)
Definition record (names values : list string) : jsval :=
  obj (zip names (JStr <$> values)).

(** The promise [c] is unsettled, and only the timer [t], set for [due],
    holds it. *)
Definition timer_pending (c : prom) (t : timer) (due : nat) (st : host) : Prop :=
  settled st !! c = None ∧ now st < due ∧ c < next_prom st ∧
  (c ∉ dialogs st) ∧ (due, t) ∈ timers st ∧
  (∀ y, y ∈ timers st → c ∈ refs y.2 → y = (due, t)).

(** What the timer of [start] settles its promise with, lines 44-49. *)
Definition start_verdict (handle : option pid) : outcome :=
  match handle with
  | Some _ => Resolved (JBool true)
  | None => Rejected (Error "Failed to start Python process")
  end.


(** Settled promises stay as they are. *)
Definition keeps_settled (st st' : host) : Prop :=
  ∀ h o, settled st !! h = Some o → settled st' !! h = Some o.

(** A transition that leaves the clock and the promises below [n] alone and
    only adds timers and dialogs that hold promises from [n] on. *)
Definition allocates_from (n : nat) (st st' : host) : Prop :=
  now st' = now st ∧ next_prom st ≤ next_prom st' ∧
  (∀ h, h < n → settled st' !! h = settled st !! h) ∧
  (∀ h, h ∈ dialogs st' → h ∈ dialogs st ∨ n ≤ h) ∧
  ∃ new, timers st' = timers st ++ new ∧
         ∀ y h, y ∈ new → h ∈ refs y.2 → n ≤ h.






(** The requests written to the child's stdin so far, oldest first. *)
Definition stdin_writes (st : host) : list jsval :=
  omap (fun e => match e with StdinWrite _ request => Some request | _ => None end)
    (journal st).


(** ** Further notions used by the properties *)

(** The channels for which the main process calls [ipcMain.handle]. *)
Definition registered_channels : list string :=
  ["health-check"; "ping"; "ping-python"; "open-file-dialog"; "preview-file";
   "import-data"].

(** How often a character occurs in a text. *)
Fixpoint count_char (c : ascii) (s : string) : nat :=
  match s with
  | EmptyString => 0
  | String c' rest => (if Ascii.eqb c' c then 1 else 0) + count_char c rest
  end.

(** The file dialog of the call with the promise [h] is open: the promise is
    unsettled and no timer holds it. *)
Definition dialog_open (h : prom) (st : host) : Prop :=
  h ∈ dialogs st ∧ settled st !! h = None ∧ h < next_prom st ∧
  ∀ y, y ∈ timers st → h ∉ refs y.2.

(** The user closes the dialog of the promise [h]. *)
Definition closes_dialog (h : prom) (e : event) : Prop :=
  match e with
  | DialogClosed h' _ _ => h' = h
  | _ => False
  end.

(** The report of a health check that reached the worker, lines 207-219: at
    the clock reading [t], with the answer [pythonHealth] of
    [sendToPython]. *)
Definition health_report (w : env) (t : nat) (pythonHealth : jsval) : jsval :=
  let dbPath := getDatabasePath w in
  let dbExists := bool_decide (is_Some (disk w !! dbPath)) in
  obj [("status", JStr "ok");
       ("database", JStr (if dbExists then "connected" else "created"));
       ("timestamp", JStr (toISOString w t));
       ("version", JStr (version w));
       ("python_backend", pythonHealth);
       ("electron_main", obj [("ok", JBool true); ("from", JStr "main")]);
       ("database_info",
        obj [("path", JStr dbPath);
             ("exists", JBool dbExists);
             ("size", JNum (from_option node_size 0%Z (disk w !! dbPath)))])].

(** The report of a health check whose [sendToPython] call failed with [e],
    lines 221-226. *)
Definition health_failure (w : env) (t : nat) (e : js_error) : jsval :=
  obj [("status", JStr "error");
       ("timestamp", JStr (toISOString w t));
       ("version", JStr (version w));
       ("error", JStr (message e))].

(** No timer and no dialog holds the promise [q], and it is unsettled. *)
Definition unheld (q : prom) (st : host) : Prop :=
  settled st !! q = None ∧ (q ∉ dialogs st) ∧
  ∀ y, y ∈ timers st → q ∉ refs y.2.

(** The child behind the handle has not closed. *)
Definition handle_live (st : host) : Prop :=
  ∀ p, pythonProcess st = Some p → p ∈ running st.

(** How often [createWindow] has run. *)
Definition windows_created (st : host) : nat :=
  length (omap (fun e => match e with CreateWindow => Some tt | _ => None end)
            (journal st)).

(** The two phases of the startup: the timer of the first [start] is
    waiting and there is no window; the timer has fired, the promise of
    [start] is settled and [createWindow] has run once. *)
Definition starting (st : host) : Prop :=
  timers st = [(1000, StartTimer 0 ByAppReady)] ∧ now st < 1000 ∧
  mainWindow st = false ∧ settled st !! 0 = None ∧ windows_created st = 0.

Definition started (st : host) : Prop :=
  timers st = [] ∧ 1000 ≤ now st ∧ mainWindow st = true ∧
  is_Some (settled st !! 0) ∧ windows_created st = 1.

(** The states a function of the component can return with. *)
Inductive returns : ImportData.task -> ImportData.state -> Prop :=
| returns_now u : returns (ImportData.Return u) u
| returns_later channel data k r u :
    returns (k r) u -> returns (ImportData.Await channel data k) u.

(** ** A test bench *)

Module Bench.

(** A frame the worker could answer an import with:
    [{"symbol":"<symbol>","rows_imported":<rows>}]. *)
Definition frame (symbol rows : string) : string :=
  let q := String dquote EmptyString in
  "{" +:+ q +:+ "symbol" +:+ q +:+ ":" +:+ q +:+ symbol +:+ q +:+ ","
  +:+ q +:+ "rows_imported" +:+ q +:+ ":" +:+ rows +:+ "}".

(** [JSON.parse] on the texts of the bench; any other text is taken to be
    malformed. *)
Definition parse (text : string) : option jsval :=
  if String.eqb text (frame "AAPL" "3") then
    Some (obj [("symbol", JStr "AAPL"); ("rows_imported", JNum 3)])
  else if String.eqb text (frame "MSFT" "7") then
    Some (obj [("symbol", JStr "MSFT"); ("rows_imported", JNum 7)])
  else if String.eqb text "{}" then Some (obj [])
  else None.

Definition header : string := "date,open,close".

Definition rows : list string :=
  ["d1,1,2"; "d2,2,3"; "d3,3,4"; "d4,4,5"; "d5,5,6";
   "d6,6,7"; "d7,7,8"; "d8,8,9"; "d9,9,10"; "d10,10,11"].

Definition csv : string := file_of_lines (header :: rows) false.

(** Eleven lines, of which the sixth is empty. *)
Definition gapped : list string :=
  ["date,open,close"; "d1,1,2"; "d2,2,3"; "d3,3,4"; "d4,4,5"; EmptyString;
   "d5,5,6"; "d6,6,7"; "d7,7,8"; "d8,8,9"; "d9,9,10"].

(** Eleven lines under a header of two names, [Last, First] in double
    quotes and [Close]. *)
Definition quoted : list string :=
  (String dquote "Last, First" +:+ String dquote ",Close")
  :: ["a,b,1"; "c,d,2"; "e,f,3"; "g,h,4"; "i,j,5";
      "k,l,6"; "m,n,7"; "o,p,8"; "q,r,9"; "s,t,10"].

Definition w : env :=
  {| disk := {[ "/data/prices.csv" := RegularFile csv;
                "/data/gapped.csv" := RegularFile (file_of_lines gapped false);
                "/data/quoted.csv" := RegularFile (file_of_lines quoted false);
                "/data" := Directory 4096 ]};
     cwd := "/app"; homedir := "/home/u"; version := "0.1.0";
     join := posix_join; JSON_parse := parse; toISOString := pretty |}.

(** The application one second after its startup, the child 0 alive.
    Promise 0 is the one of the startup; a handler called from here takes
    the next promise for itself and the one after it for its
    [sendToPython] call. *)
Definition up : host := run (booted w) (wait 1000).

End Bench.

(** ** A second test bench *)

Module Desk.

Definition header : string := "date,open,close".

(** Twelve rows. *)
Definition rows : list string :=
  ["d1,1,2"; "d2,2,3"; "d3,3,4"; "d4,4,5"; "d5,5,6"; "d6,6,7";
   "d7,7,8"; "d8,8,9"; "d9,9,10"; "d10,10,11"; "d11,11,12"; "d12,12,13"].

Definition csv : string := file_of_lines (header :: rows) true.

(** Two spaces, a line feed, a tab and a line feed. *)
Definition blank : string :=
  String " " (String " " (String newline
    (String (ascii_of_nat 9) (String newline EmptyString)))).

(** The disk has the two files, and a storage file of zero bytes where
    [getDatabasePath()] points. *)
Definition w : env :=
  {| disk := {[ "/data/long.csv" := RegularFile csv;
                "/data/blank.csv" := RegularFile blank;
                "/home/u/.byod_backtesting/trading_data.db" := RegularFile EmptyString ]};
     cwd := "/app"; homedir := "/home/u"; version := "0.1.0";
     join := posix_join; JSON_parse := Bench.parse; toISOString := pretty |}.

(** The application one second after its startup, the child 0 alive. *)
Definition up : host := run (booted w) (wait 1000).

End Desk.

(** * Properties *)


(** ** The journal and the other fields *)

Lemma emit_nil st : emit [] st = st.
Proof. destruct st; unfold emit, set_journal; simpl. by rewrite app_nil_r. Qed.

Lemma emit_emit es1 es2 st : emit es2 (emit es1 st) = emit (es1 ++ es2) st.
Proof. unfold emit, set_journal; simpl. by rewrite app_assoc. Qed.

Lemma logs_only_ret {A} (a : A) : logs_only (mret a).
Proof. intros st. exists []. by rewrite emit_nil. Qed.

Lemma logs_only_throw {A} e : logs_only (@throw A e).
Proof. intros st. exists []. by rewrite emit_nil. Qed.

Lemma logs_only_lift {A} (c : completion A) : logs_only (lift c).
Proof. intros st. exists []. by rewrite emit_nil. Qed.

Lemma logs_only_inspect {A} (f : host -> A) : logs_only (inspect f).
Proof. intros st. exists []. by rewrite emit_nil. Qed.

Lemma logs_only_perform es : logs_only (perform es).
Proof. intros st. by exists es. Qed.

Lemma logs_only_bind {A B} (m : js A) (f : A -> js B) :
  logs_only m → (∀ a, logs_only (f a)) → logs_only (m ≫= f).
Proof.
  intros Hm Hf st. unfold mbind, js_bind.
  destruct (Hm st) as [es1 E1]. destruct (m st) as [[a|e] st1]; simpl in *; subst.
  - destruct (Hf a (emit es1 st)) as [es2 E2].
    exists (es1 ++ es2). by rewrite E2, emit_emit.
  - by exists es1.
Qed.

Lemma logs_only_try_catch {A} (body : js A) handler :
  logs_only body → (∀ e, logs_only (handler e)) → logs_only (try_catch body handler).
Proof.
  intros Hm Hf st. unfold try_catch.
  destruct (Hm st) as [es1 E1]. destruct (body st) as [[a|e] st1]; simpl in *; subst.
  - by exists es1.
  - destruct (Hf e (emit es1 st)) as [es2 E2].
    exists (es1 ++ es2). by rewrite E2, emit_emit.
Qed.

Lemma logs_only_unless_throw c s : logs_only (unless_throw c s).
Proof. destruct c; [apply logs_only_ret | apply logs_only_throw]. Qed.

Lemma logs_only_await o : logs_only (await o).
Proof. destruct o; [apply logs_only_ret | apply logs_only_throw]. Qed.

Lemma logs_only_existsSync path : logs_only (existsSync path).
Proof. intros st. by eexists. Qed.

Lemma logs_only_statSync_size path : logs_only (statSync_size path).
Proof. intros st. by eexists. Qed.

Lemma logs_only_readFileSync path : logs_only (readFileSync path).
Proof.
  intros st. unfold readFileSync. destruct path; simpl;
    try (exists []; by rewrite emit_nil). by eexists.
Qed.

Lemma logs_only_parse_json text : logs_only (parse_json text).
Proof. intros st. exists []. by rewrite emit_nil. Qed.

Create HintDb logs discriminated.
#[local] Hint Resolve logs_only_ret logs_only_throw logs_only_lift
  logs_only_inspect logs_only_perform logs_only_unless_throw logs_only_await
  logs_only_existsSync logs_only_statSync_size logs_only_readFileSync
  logs_only_parse_json : logs.

Ltac logs_only_tac :=
  repeat first
    [ apply logs_only_bind; [| intros ?]
    | apply logs_only_try_catch; [| intros ?]
    | progress eauto with logs
    | match goal with
      | |- logs_only (if ?b then _ else _) => destruct b
      | |- logs_only (match ?x with _ => _ end) => destruct x
      end ].

Lemma logs_only_on_stdout chunk : logs_only (on_stdout chunk).
Proof. unfold on_stdout. logs_only_tac. Qed.

Lemma logs_only_on_stderr chunk : logs_only (on_stderr chunk).
Proof. unfold on_stderr. logs_only_tac. Qed.

Lemma logs_only_health_check o :
  logs_only (try_catch (health_check_body o) health_check_catch).
Proof.
  unfold health_check_body, health_check_catch, timestamp_now, getVersion,
    databasePath. logs_only_tac.
Qed.

Lemma logs_only_ping_python o :
  logs_only (try_catch (ping_python_body o) ping_python_catch).
Proof. unfold ping_python_body, ping_python_catch. logs_only_tac. Qed.

Lemma logs_only_import_data symbol o :
  logs_only (try_catch (import_data_body symbol o) import_data_catch).
Proof. unfold import_data_body, import_data_catch. logs_only_tac. Qed.

Lemma logs_only_import_data_checks data : logs_only (import_data_checks data).
Proof. unfold import_data_checks. logs_only_tac. Qed.

Lemma logs_only_import_data_catch e : logs_only (import_data_catch e).
Proof. unfold import_data_catch. logs_only_tac. Qed.

Lemma logs_only_preview_file data :
  logs_only (try_catch (preview_file_body data) preview_file_catch).
Proof. unfold preview_file_body, preview_file_catch. logs_only_tac. Qed.

Lemma logs_only_dialog_result canceled filePaths :
  logs_only (dialog_result canceled filePaths).
Proof. unfold dialog_result. logs_only_tac. Qed.

Lemma total_try_catch {A} (body : js A) handler :
  (∀ e, total (handler e)) → total (try_catch body handler).
Proof.
  intros Hh st. unfold try_catch. destruct (body st) as [[a|e] st1]; simpl.
  - by exists a.
  - apply Hh.
Qed.

Lemma total_ret {A} (a : A) : total (mret a).
Proof. intros st. by exists a. Qed.

Lemma total_perform es : total (perform es).
Proof. intros st. by exists tt. Qed.

Lemma total_bind {A B} (m : js A) (f : A -> js B) :
  total m → (∀ a, total (f a)) → total (m ≫= f).
Proof.
  intros Hm Hf st. unfold mbind, js_bind.
  destruct (Hm st) as [a E]. destruct (m st) as [[a'|e] st1]; simpl in *; [|done].
  apply Hf.
Qed.

Lemma total_inspect {A} (f : host -> A) : total (inspect f).
Proof. intros st. by eexists. Qed.

Lemma total_health_check_catch e : total (health_check_catch e).
Proof.
  unfold health_check_catch, timestamp_now, getVersion.
  repeat (apply total_bind; [apply total_inspect | intros ?]). apply total_ret.
Qed.

Lemma total_ping_python_catch e : total (ping_python_catch e).
Proof. apply total_ret. Qed.

Lemma total_import_data_catch e : total (import_data_catch e).
Proof.
  unfold import_data_catch. apply total_bind; [apply total_perform | intros ?].
  apply total_ret.
Qed.

Lemma total_preview_file_catch e : total (preview_file_catch e).
Proof.
  unfold preview_file_catch. apply total_bind; [apply total_perform | intros ?].
  apply total_ret.
Qed.

Lemma total_dialog_result canceled filePaths : total (dialog_result canceled filePaths).
Proof.
  unfold dialog_result. destruct canceled; [apply total_ret|].
  destruct filePaths; [apply total_ret|].
  apply total_bind; [apply total_perform | intros ?]. apply total_ret.
Qed.

Lemma total_on_stdout chunk : total (on_stdout chunk).
Proof. apply total_try_catch. intros _. apply total_perform. Qed.

(** A computation that only logs and never throws returns a value in a
    state that differs by journal entries. *)
Lemma returns_logging {A} (m : js A) st :
  logs_only m → total m → ∃ a es, m st = (Normal a, emit es st).
Proof.
  intros Hl Ht. destruct (Hl st) as [es E], (Ht st) as [a Ea].
  exists a, es. destruct (m st); simpl in *; by subst.
Qed.

(** The awaiting handler, resumed, resolves its own promise. *)
Lemma resume_spec w o st :
  match w with
  | WNobody => resume w o st = st
  | WHealth h | WPing h | WImport h _ =>
      ∃ v es, resume w o st = settle h (Resolved v) (emit es st)
  end.
Proof.
  destruct w as [|h|h|h symbol]; simpl; [done|..].
  - destruct (returns_logging _ st (logs_only_health_check o)
                (total_try_catch _ _ total_health_check_catch)) as (v & es & ->).
    by exists v, es.
  - destruct (returns_logging _ st (logs_only_ping_python o)
                (total_try_catch _ _ total_ping_python_catch)) as (v & es & ->).
    by exists v, es.
  - destruct (returns_logging _ st (logs_only_import_data symbol o)
                (total_try_catch _ _ total_import_data_catch)) as (v & es & ->).
    by exists v, es.
Qed.

(** [settle] touches the table of promises only. *)
Lemma settle_fields p o st :
  let st' := settle p o st in
  pythonProcess st' = pythonProcess st ∧ running st' = running st ∧
  next_pid st' = next_pid st ∧ now st' = now st ∧ timers st' = timers st ∧
  next_prom st' = next_prom st ∧ dialogs st' = dialogs st ∧
  mainWindow st' = mainWindow st ∧ journal st' = journal st ∧
  world st' = world st.
Proof. unfold settle. by destruct (settled st !! p). Qed.

Lemma next_prom_settle p o st : next_prom (settle p o st) = next_prom st.
Proof. apply settle_fields. Qed.

Lemma timers_settle p o st : timers (settle p o st) = timers st.
Proof. apply settle_fields. Qed.

Lemma pythonProcess_settle p o st : pythonProcess (settle p o st) = pythonProcess st.
Proof. apply settle_fields. Qed.

Lemma running_settle p o st : running (settle p o st) = running st.
Proof. apply settle_fields. Qed.

Lemma next_pid_settle p o st : next_pid (settle p o st) = next_pid st.
Proof. apply settle_fields. Qed.

Lemma now_settle p o st : now (settle p o st) = now st.
Proof. apply settle_fields. Qed.

Lemma dialogs_settle p o st : dialogs (settle p o st) = dialogs st.
Proof. apply settle_fields. Qed.

Lemma world_settle p o st : world (settle p o st) = world st.
Proof. apply settle_fields. Qed.

Lemma journal_settle p o st : journal (settle p o st) = journal st.
Proof. apply settle_fields. Qed.

(** ** Promise identifiers stay within the allocated range *)

Lemma wf_ext st st' :
  next_prom st' = next_prom st → settled st' = settled st →
  timers st' = timers st → dialogs st' = dialogs st → wf st → wf st'.
Proof. unfold wf. intros -> -> -> ->. done. Qed.

Lemma wf_emit es st : wf st → wf (emit es st).
Proof. by apply wf_ext. Qed.

Lemma wf_settle p o st : p < next_prom st → wf st → wf (settle p o st).
Proof.
  intros Hp (H1 & H2 & H3). unfold settle. destruct (settled st !! p) eqn:E; [done|].
  split_and!; simpl; [|done..].
  intros h [x Hx]. destruct (decide (p = h)) as [->|]; [done|].
  rewrite lookup_insert_ne in Hx by done. eauto.
Qed.

Lemma wf_setTimeout t delay st :
  (∀ h, h ∈ refs t → h < next_prom st) → wf st → wf (setTimeout t delay st).
Proof.
  intros Ht (H1 & H2 & H3). split_and!; simpl; [done| |done].
  intros x h [Hx| ->%list_elem_of_singleton]%elem_of_app Hh; eauto.
Qed.

Lemma wf_new_promise st : wf st → wf (new_promise st).2.
Proof.
  intros (H1 & H2 & H3). split_and!; simpl; intros; eauto using Nat.lt_lt_succ_r.
Qed.

Lemma wf_resume w o st :
  (∀ h, h ∈ waiter_refs w → h < next_prom st) → wf st → wf (resume w o st).
Proof.
  intros Hw Hwf. pose proof (resume_spec w o st) as R.
  destruct w; [by rewrite R|..]; destruct R as (v & es & ->);
    (apply wf_settle; [apply Hw; simpl; set_solver | by apply wf_emit]).
Qed.

Lemma wf_send_body c action data w st :
  c < next_prom st → (∀ h, h ∈ waiter_refs w → h < next_prom st) →
  wf st → wf (send_body c action data w st).
Proof.
  intros Hc Hw Hwf. unfold send_body. destruct (pythonProcess st).
  - apply wf_setTimeout; [|by apply wf_emit].
    simpl. intros h [->|Hh]%elem_of_cons; eauto.
  - apply wf_resume; [|by apply wf_settle].
    intros h Hh. rewrite next_prom_settle. eauto.
Qed.

#[local] Instance quiet_preorder : PreOrder quiet.
Proof.
  split; [by intros st|].
  intros a b c (?&?&?&?&?&?&?) (?&?&?&?&?&?&?). unfold quiet. split_and!; congruence.
Qed.

Lemma quiet_emit es st : quiet st (emit es st).
Proof. done. Qed.

Lemma quiet_settle p o st : quiet st (settle p o st).
Proof.
  destruct (settle_fields p o st) as (?&?&?&?&?&?&?&?&?&?). by split_and!.
Qed.

Lemma quiet_setTimeout t delay st : quiet st (setTimeout t delay st).
Proof. done. Qed.

Lemma quiet_createWindow st : quiet st (createWindow st).
Proof. done. Qed.

Lemma quiet_resume w o st : quiet st (resume w o st).
Proof.
  pose proof (resume_spec w o st) as R.
  destruct w; [by rewrite R|..]; destruct R as (v & es & ->);
    (etrans; [apply (quiet_emit es) | apply quiet_settle]).
Qed.

Lemma quiet_send_body c action data w st : quiet st (send_body c action data w st).
Proof.
  unfold send_body. destruct (pythonProcess st); [done|].
  etrans; [apply quiet_settle | apply quiet_resume].
Qed.

Lemma quiet_fire t st : quiet st (fire t st).
Proof.
  destruct t as [s k|c action w]; simpl.
  - destruct (pythonProcess st) eqn:E.
    + destruct k.
      * etrans; [|apply quiet_createWindow]. etrans; [|apply quiet_emit].
        etrans; [|apply quiet_settle]. apply quiet_emit.
      * etrans; [|apply quiet_send_body]. etrans; [|apply quiet_settle].
        apply quiet_emit.
    + destruct k.
      * etrans; [|apply quiet_createWindow]. etrans; [|apply quiet_emit].
        apply quiet_settle.
      * etrans; [|apply quiet_resume]. etrans; apply quiet_settle.
  - etrans; [apply quiet_settle | apply quiet_resume].
Qed.

Lemma quiet_fold_fire (due : list (nat * timer)) st : quiet st (foldl (fun st x => fire x.2 st) st due).
Proof.
  revert st. induction due as [|x due IH]; intros st; simpl; [done|].
  etrans; [apply quiet_fire | apply IH].
Qed.

Lemma wf_createWindow st : wf st → wf (createWindow st).
Proof. by apply wf_ext. Qed.

Lemma wf_fire t st :
  (∀ h, h ∈ refs t → h < next_prom st) → wf st → wf (fire t st).
Proof.
  intros Ht Hwf. destruct t as [s k|c action w]; simpl in *.
  - assert (Hs : s < next_prom st) by (apply Ht; set_solver).
    destruct (pythonProcess st) eqn:E; destruct k as [|c action data w]; simpl in *.
    + apply wf_createWindow, wf_emit, wf_settle; [done|by apply wf_emit].
    + apply wf_send_body; rewrite ?next_prom_settle; simpl.
      * apply Ht. set_solver.
      * intros h Hh. apply Ht. set_solver.
      * apply wf_settle; [done|by apply wf_emit].
    + apply wf_createWindow, wf_emit, wf_settle; done.
    + apply wf_resume; rewrite ?next_prom_settle.
      * intros h Hh. apply Ht. set_solver.
      * apply wf_settle; rewrite ?next_prom_settle; [apply Ht; set_solver|].
        by apply wf_settle.
  - apply wf_resume; rewrite ?next_prom_settle.
    + intros h Hh. apply Ht. set_solver.
    + apply wf_settle; [apply Ht; set_solver|done].
Qed.

Lemma wf_fold_fire (due : list (nat * timer)) st :
  (∀ x h, x ∈ due → h ∈ refs x.2 → h < next_prom st) → wf st →
  wf (foldl (fun st x => fire x.2 st) st due).
Proof.
  revert st. induction due as [|x due IH]; intros st Hdue Hwf; simpl; [done|].
  assert (next_prom (fire x.2 st) = next_prom st) as E by apply quiet_fire.
  apply IH.
  - intros y h Hy Hh. rewrite E. eapply Hdue; [|done]. set_solver.
  - apply wf_fire; [|done]. intros h Hh. eapply Hdue; [|done]. set_solver.
Qed.

Lemma wf_tick st : wf st → wf (tick st).
Proof.
  intros (H1 & H2 & H3). unfold tick. apply wf_fold_fire; simpl.
  - intros x h [_ Hx]%list_elem_of_filter Hh. eauto.
  - split_and!; simpl; [done| |done].
    intros x h [_ Hx]%list_elem_of_filter Hh. eauto.
Qed.

#[global] Arguments start : simpl never.
#[global] Arguments send_body : simpl never.
#[global] Arguments resume : simpl never.
#[global] Arguments fire : simpl never.
#[global] Arguments settle : simpl never.
#[global] Arguments sendToPython : simpl never.
#[global] Arguments tick : simpl never.
#[global] Arguments ipc_invoke : simpl never.

Lemma sendToPython_unfold action data w st :
  sendToPython action data w st =
  (next_prom st,
   let st1 := set_next_prom (S (next_prom st)) st in
   match pythonProcess st with
   | None => (start (BySend (next_prom st) action data w) st1).2
   | Some _ => send_body (next_prom st) action data w st1
   end).
Proof. unfold sendToPython, new_promise. simpl. by destruct (pythonProcess st). Qed.

Lemma wf_start k st :
  (∀ h, h ∈ caller_refs k → h < next_prom st) → wf st → wf (start k st).2.
Proof.
  intros Hk Hwf. unfold start, new_promise. simpl.
  apply wf_setTimeout; simpl.
  - intros h [->|Hh]%elem_of_cons; [lia|]. apply Nat.lt_lt_succ_r. eauto.
  - apply (wf_new_promise (set_pythonProcess _ (set_running _ (set_next_pid _ (emit _ st))))).
    revert Hwf. by apply wf_ext.
Qed.

Lemma next_prom_start k st : next_prom (start k st).2 = S (next_prom st).
Proof. done. Qed.

Lemma wf_sendToPython action data w st :
  (∀ h, h ∈ waiter_refs w → h < next_prom st) → wf st →
  wf (sendToPython action data w st).2.
Proof.
  intros Hw Hwf. rewrite sendToPython_unfold. cbn [snd].
  destruct (pythonProcess st).
  - apply wf_send_body; simpl; [lia| |by apply (wf_new_promise st)].
    intros h Hh. apply Nat.lt_lt_succ_r. eauto.
  - apply wf_start; simpl; [|by apply (wf_new_promise st)].
    intros h [->|Hh]%elem_of_cons; [lia|]. apply Nat.lt_lt_succ_r. eauto.
Qed.

Lemma next_prom_sendToPython action data w st :
  next_prom st < next_prom (sendToPython action data w st).2.
Proof.
  rewrite sendToPython_unfold. cbn [snd]. destruct (pythonProcess st).
  - assert (next_prom (send_body (next_prom st) action data w
                         (set_next_prom (S (next_prom st)) st))
            = S (next_prom st)) as -> by apply quiet_send_body. lia.
  - rewrite next_prom_start. simpl. lia.
Qed.

(** One handler call: it allocates its promise first. *)
Lemma wf_handle_health_check st : wf st → wf (handle_health_check st).2.
Proof.
  intros Hwf. unfold handle_health_check, new_promise; simpl.
  apply wf_sendToPython; [|by apply (wf_new_promise st)].
  simpl. intros h ->%list_elem_of_singleton. lia.
Qed.

Lemma wf_handle_ping_python st : wf st → wf (handle_ping_python st).2.
Proof.
  intros Hwf. unfold handle_ping_python, new_promise; simpl.
  apply wf_sendToPython; [|by apply (wf_new_promise st)].
  simpl. intros h ->%list_elem_of_singleton. lia.
Qed.

Lemma wf_handle_ping st : wf st → wf (handle_ping st).2.
Proof.
  intros Hwf. unfold handle_ping, new_promise; simpl.
  apply wf_settle; simpl; [lia|by apply (wf_new_promise st)].
Qed.

Lemma wf_finish h (m : js jsval) st :
  logs_only m → h < next_prom st → wf st → wf (finish h (m st)).
Proof.
  intros Hm Hh Hwf. destruct (Hm st) as [es E].
  destruct (m st) as [[v|e] st1]; simpl in *; subst;
    (apply wf_settle; [done|by apply wf_emit]).
Qed.

Lemma wf_handle_preview_file data st : wf st → wf (handle_preview_file data st).2.
Proof.
  intros Hwf. unfold handle_preview_file, new_promise; simpl.
  apply wf_finish; simpl;
    [apply logs_only_preview_file|lia|by apply (wf_new_promise st)].
Qed.

Lemma wf_handle_import_data data st : wf st → wf (handle_import_data data st).2.
Proof.
  intros Hwf. unfold handle_import_data, new_promise; simpl.
  destruct (logs_only_import_data_checks data (set_next_prom (S (next_prom st)) st))
    as [es E].
  destruct (import_data_checks data _) as [[[filePath symbol]|e] st1];
    simpl in *; subst.
  - apply wf_sendToPython; simpl.
    + intros h ->%list_elem_of_singleton. lia.
    + apply wf_emit. by apply (wf_new_promise st).
  - apply wf_settle; simpl; [lia|].
    do 2 apply wf_emit. by apply (wf_new_promise st).
Qed.

Lemma wf_handle_open_file_dialog st : wf st → wf (handle_open_file_dialog st).2.
Proof.
  intros Hwf. unfold handle_open_file_dialog, new_promise; simpl.
  destruct (mainWindow st); simpl.
  - destruct (wf_new_promise st Hwf) as (H1 & H2 & H3).
    split_and!; simpl in *; [done..|].
    intros h [->%elem_of_singleton|Hh]%elem_of_union; [lia|eauto].
  - apply wf_settle; simpl; [lia|]. apply wf_emit. by apply (wf_new_promise st).
Qed.

Lemma wf_ipc_invoke channel data st : wf st → wf (ipc_invoke channel data st).2.
Proof.
  intros Hwf%(wf_emit [IpcInvoke channel data]). unfold ipc_invoke.
  destruct (String.eqb channel "health-check"); [by apply wf_handle_health_check|].
  destruct (String.eqb channel "ping"); [by apply wf_handle_ping|].
  destruct (String.eqb channel "ping-python"); [by apply wf_handle_ping_python|].
  destruct (String.eqb channel "open-file-dialog");
    [by apply wf_handle_open_file_dialog|].
  destruct (String.eqb channel "preview-file"); [by apply wf_handle_preview_file|].
  destruct (String.eqb channel "import-data"); [by apply wf_handle_import_data|].
  unfold new_promise. cbn [snd].
  apply wf_settle; [simpl; lia|]. by apply (wf_new_promise (emit _ st)).
Qed.

Lemma forwarded_state (r : nat * host) :
  (let '(h, st') := r in (@Normal nat h, st')).2 = r.2.
Proof. by destruct r. Qed.

Lemma step_api_invoke st channel data :
  step st (ApiInvoke channel data) =
  if bool_decide (channel ∈ validChannels) then (ipc_invoke channel data st).2
  else st.
Proof.
  simpl. unfold invoke. case_bool_decide; [|done]. apply forwarded_state.
Qed.

Lemma step_api_ping st : step st ApiPing = (ipc_invoke "ping" JUndefined st).2.
Proof. apply forwarded_state. Qed.

Lemma step_api_pingPython st :
  step st ApiPingPython = (ipc_invoke "ping-python" JUndefined st).2.
Proof. apply forwarded_state. Qed.

Lemma wf_step st e : wf st → wf (step st e).
Proof.
  intros Hwf. destruct e.
  - by apply wf_tick.
  - simpl. case_bool_decide; [|done].
    destruct (logs_only_on_stdout chunk st) as [es ->]. by apply wf_emit.
  - simpl. case_bool_decide; [|done]. by apply wf_emit.
  - simpl. case_bool_decide; [|done]. revert Hwf. by apply wf_ext.
  - rewrite step_api_invoke. case_bool_decide; [|done]. by apply wf_ipc_invoke.
  - rewrite step_api_ping. by apply wf_ipc_invoke.
  - rewrite step_api_pingPython. by apply wf_ipc_invoke.
  - simpl. case_bool_decide as Hh; [|done].
    apply wf_finish; simpl.
    + apply logs_only_dialog_result.
    + by apply Hwf.
    + destruct Hwf as (H1 & H2 & H3). split_and!; simpl; [done..|].
      intros h' [Hh' _]%elem_of_difference. by apply H3.
  - revert Hwf. by apply wf_ext.
Qed.

Lemma wf_run es st : wf st → wf (run st es).
Proof.
  revert st. induction es as [|e es IH]; intros st Hwf; simpl; [done|].
  by apply IH, wf_step.
Qed.

Lemma wf_loaded w : wf (loaded w).
Proof.
  split_and!; simpl.
  - intros h [x Hx]. by rewrite lookup_empty in Hx.
  - intros x h Hx. by apply elem_of_nil in Hx.
  - intros h Hh. by apply not_elem_of_empty in Hh.
Qed.

Lemma wf_booted w : wf (booted w).
Proof. apply wf_start; [|apply wf_loaded]. simpl. intros h Hh. by apply elem_of_nil in Hh. Qed.

(** ** At most one child process *)

#[local] Instance same_worker_preorder : PreOrder same_worker.
Proof.
  split; [by intros st|].
  intros a b c (?&?&?) (?&?&?). unfold same_worker. split_and!; congruence.
Qed.

Lemma quiet_same_worker st st' : quiet st st' → same_worker st st'.
Proof. intros (?&?&?&_). by split_and!. Qed.

Lemma same_worker_one_worker st st' :
  same_worker st st' → one_worker st → one_worker st'.
Proof. intros (E1 & E2 & _) H p. rewrite E1, E2. apply H. Qed.

Lemma quiet_finish h (m : js jsval) st : logs_only m → quiet st (finish h (m st)).
Proof.
  intros Hm. destruct (Hm st) as [es E].
  destruct (m st) as [[v|e] st1]; simpl in *; subst;
    (etrans; [apply (quiet_emit es) | apply quiet_settle]).
Qed.

Lemma same_worker_tick st : same_worker st (tick st).
Proof.
  unfold tick. etrans; [|apply quiet_same_worker, quiet_fold_fire]. done.
Qed.

Lemma same_worker_send_live action data w st :
  is_Some (pythonProcess st) → same_worker st (sendToPython action data w st).2.
Proof.
  intros [p Hp]. rewrite sendToPython_unfold, Hp. cbn [snd].
  etrans; [|apply quiet_same_worker, quiet_send_body]. done.
Qed.

Lemma one_worker_start k st :
  pythonProcess st = None → one_worker st → one_worker (start k st).2.
Proof.
  intros Hnone H p. unfold start, new_promise; simpl.
  intros [->%elem_of_singleton|Hp]%elem_of_union; [done|].
  apply H in Hp. congruence.
Qed.

Lemma one_worker_sendToPython action data w st :
  one_worker st → one_worker (sendToPython action data w st).2.
Proof.
  intros H. destruct (pythonProcess st) as [p|] eqn:E.
  - eapply same_worker_one_worker; [|done]. apply same_worker_send_live. by rewrite E.
  - rewrite sendToPython_unfold, E. cbn [snd]. by apply one_worker_start.
Qed.

Lemma one_worker_ipc_invoke channel data st :
  one_worker st → one_worker (ipc_invoke channel data st).2.
Proof.
  intros H. unfold ipc_invoke.
  assert (one_worker (emit [IpcInvoke channel data] st)) as H' by done.
  revert H'. generalize (emit [IpcInvoke channel data] st). clear H st. intros st H.
  destruct (String.eqb channel "health-check").
  { unfold handle_health_check, new_promise. cbn [snd].
    by apply one_worker_sendToPython. }
  destruct (String.eqb channel "ping").
  { unfold handle_ping, new_promise. cbn [snd].
    eapply same_worker_one_worker; [|exact H].
    etrans; [|apply quiet_same_worker, quiet_settle]. done. }
  destruct (String.eqb channel "ping-python").
  { unfold handle_ping_python, new_promise. cbn [snd].
    by apply one_worker_sendToPython. }
  destruct (String.eqb channel "open-file-dialog").
  { unfold handle_open_file_dialog, new_promise. simpl.
    destruct (mainWindow st); simpl; [done|].
    eapply same_worker_one_worker; [|exact H].
    etrans; [|apply quiet_same_worker, quiet_settle]. done. }
  destruct (String.eqb channel "preview-file").
  { unfold handle_preview_file, new_promise. cbn [snd].
    eapply same_worker_one_worker; [|exact H].
    etrans; [|apply quiet_same_worker, quiet_finish, logs_only_preview_file]. done. }
  destruct (String.eqb channel "import-data").
  { unfold handle_import_data, new_promise.
    destruct (logs_only_import_data_checks data (set_next_prom (S (next_prom st)) st))
      as [es E].
    destruct (import_data_checks data _) as [[[filePath symbol]|e] st1];
      simpl in E; subst; cbn [snd].
    - by apply one_worker_sendToPython.
    - eapply same_worker_one_worker; [|exact H].
      etrans; [|apply quiet_same_worker, quiet_finish, logs_only_import_data_catch].
      done. }
  unfold new_promise. cbn [snd].
  eapply same_worker_one_worker; [|exact H].
  etrans; [|apply quiet_same_worker, quiet_settle]. done.
Qed.

Lemma one_worker_step st e : one_worker st → one_worker (step st e).
Proof.
  intros H. destruct e.
  - eapply same_worker_one_worker; [apply same_worker_tick|done].
  - simpl. case_bool_decide; [|done].
    destruct (logs_only_on_stdout chunk st) as [es ->]. done.
  - simpl. by case_bool_decide.
  - simpl. case_bool_decide as Hp; [|done]. simpl.
    intros q [Hq Hne]%elem_of_difference.
    apply H in Hp. apply H in Hq. rewrite Hp in Hq. set_solver.
  - rewrite step_api_invoke. case_bool_decide; [|done]. by apply one_worker_ipc_invoke.
  - rewrite step_api_ping. by apply one_worker_ipc_invoke.
  - rewrite step_api_pingPython. by apply one_worker_ipc_invoke.
  - simpl. case_bool_decide; [|done].
    eapply same_worker_one_worker; [|exact H].
    etrans; [|apply quiet_same_worker, quiet_finish, logs_only_dialog_result]. done.
  - done.
Qed.

Lemma one_worker_run es st : one_worker st → one_worker (run st es).
Proof.
  revert st. induction es as [|e es IH]; intros st H; simpl; [done|].
  by apply IH, one_worker_step.
Qed.

Lemma one_worker_booted w : one_worker (booted w).
Proof.
  apply one_worker_start; [done|]. intros p Hp. by apply not_elem_of_empty in Hp.
Qed.

Lemma one_worker_size st : one_worker st → (size (running st) ≤ 1)%nat.
Proof.
  intros H. destruct (pythonProcess st) as [p|] eqn:E.
  - rewrite <-(size_singleton (C:=gset nat) p). apply subseteq_size.
    intros q Hq. apply H in Hq. rewrite E in Hq. set_solver.
  - replace (running st) with (∅ : gset nat); [rewrite size_empty; lia|].
    symmetry. apply leibniz_equiv, elem_of_equiv_empty. intros q Hq.
    apply H in Hq. congruence.
Qed.

(** C4. Along every trace of events after the startup, at most one child
    process is live and it is the one behind [this.pythonProcess]; a
    [sendToPython] issued while a child is live spawns nothing and writes its
    request to that child. *)
Theorem single_worker w es :
  let st := run (booted w) es in
  (size (running st) ≤ 1)%nat ∧
  (∀ p, p ∈ running st → pythonProcess st = Some p) ∧
  (∀ p action data wt,
     p ∈ running st →
     let st' := (sendToPython action data wt st).2 in
     pythonProcess st' = Some p ∧ running st' = running st ∧
     next_pid st' = next_pid st ∧
     ∃ request,
       journal st' =
       journal st ++ [StdinWrite p request; ConsoleLog "Sent to Python:" [request]]).
Proof.
  intros st.
  assert (one_worker st) as H by apply one_worker_run, one_worker_booted.
  split_and!; [by apply one_worker_size|done|].
  intros p action data wt Hp%H st'. subst st'.
  destruct (same_worker_send_live action data wt st) as (E1 & E2 & E3);
    [by rewrite Hp|].
  split_and!; [by rewrite E1|done..|].
  rewrite sendToPython_unfold, Hp. cbn [snd].
  unfold send_body. simpl. rewrite Hp. simpl. eauto.
Qed.

(** [start] itself has no guard: on a state with a live child it spawns a
    second one and takes it as the handle. The program calls it once at
    startup and otherwise behind the test of [sendToPython] only. *)
Remark start_is_unguarded :
  let st := (start ByAppReady Bench.up).2 in
  running st = {[0; 1]} ∧ pythonProcess st = Some 1.
Proof. by vm_compute. Qed.

(** ** The boundary *)

#[local] Instance extends_preorder : PreOrder extends.
Proof.
  split.
  - intros st. exists []. by rewrite app_nil_r.
  - intros a b c [es1 E1] [es2 E2]. exists (es1 ++ es2).
    by rewrite E2, E1, app_assoc.
Qed.

Lemma extends_emit es st : extends st (emit es st).
Proof. by exists es. Qed.

Lemma extends_same st st' : journal st' = journal st → extends st st'.
Proof. intros E. exists []. by rewrite app_nil_r. Qed.

Lemma extends_settle p o st : extends st (settle p o st).
Proof. apply extends_same, journal_settle. Qed.

Lemma extends_finish h (m : js jsval) st : logs_only m → extends st (finish h (m st)).
Proof.
  intros Hm. destruct (Hm st) as [es E].
  destruct (m st) as [[v|e] st1]; simpl in *; subst;
    (etrans; [apply (extends_emit es) | apply extends_settle]).
Qed.

Lemma extends_resume w o st : extends st (resume w o st).
Proof.
  pose proof (resume_spec w o st) as R.
  destruct w; [by rewrite R|..]; destruct R as (v & es & ->);
    (etrans; [apply (extends_emit es) | apply extends_settle]).
Qed.

Lemma extends_send_body c action data w st : extends st (send_body c action data w st).
Proof.
  unfold send_body. destruct (pythonProcess st).
  - by eexists.
  - etrans; [apply extends_settle | apply extends_resume].
Qed.

Lemma extends_start k st : extends st (start k st).2.
Proof. by eexists. Qed.

Lemma extends_sendToPython action data w st :
  extends st (sendToPython action data w st).2.
Proof.
  rewrite sendToPython_unfold. cbn [snd]. destruct (pythonProcess st).
  - etrans; [|apply extends_send_body]. by apply extends_same.
  - etrans; [|apply extends_start]. by apply extends_same.
Qed.

Lemma extends_handler channel data st :
  ∃ es, journal (ipc_invoke channel data st).2
        = journal st ++ IpcInvoke channel data :: es.
Proof.
  cut (extends (emit [IpcInvoke channel data] st) (ipc_invoke channel data st).2).
  { intros [es E]. exists es. rewrite E. simpl. by rewrite <-app_assoc. }
  unfold ipc_invoke. generalize (emit [IpcInvoke channel data] st). clear st.
  intros st.
  destruct (String.eqb channel "health-check").
  { unfold handle_health_check, new_promise. cbn [snd].
    etrans; [|apply extends_sendToPython]. by apply extends_same. }
  destruct (String.eqb channel "ping").
  { unfold handle_ping, new_promise. cbn [snd].
    etrans; [|apply extends_settle]. by apply extends_same. }
  destruct (String.eqb channel "ping-python").
  { unfold handle_ping_python, new_promise. cbn [snd].
    etrans; [|apply extends_sendToPython]. by apply extends_same. }
  destruct (String.eqb channel "open-file-dialog").
  { unfold handle_open_file_dialog, new_promise. simpl.
    destruct (mainWindow st); simpl; [by eexists|].
    etrans; [|apply extends_settle]. by eexists. }
  destruct (String.eqb channel "preview-file").
  { unfold handle_preview_file, new_promise. cbn [snd].
    etrans; [|apply extends_finish, logs_only_preview_file]. by apply extends_same. }
  destruct (String.eqb channel "import-data").
  { unfold handle_import_data, new_promise.
    destruct (logs_only_import_data_checks data (set_next_prom (S (next_prom st)) st))
      as [es E].
    destruct (import_data_checks data _) as [[[filePath symbol]|e] st1];
      simpl in E; subst; cbn [snd].
    - etrans; [|apply extends_sendToPython]. by eexists.
    - etrans; [|apply extends_finish, logs_only_import_data_catch]. by eexists. }
  unfold new_promise. cbn [snd]. etrans; [|apply extends_settle]. by apply extends_same.
Qed.

(** C2. A channel outside the whitelist makes [invoke] throw
    [Invalid channel: <name>] at once and leaves the whole state as it was:
    nothing is forwarded, spawned, read or registered. A channel of the
    whitelist is forwarded to the main process by [ipcRenderer.invoke]. *)
Theorem invoke_gate channel data st :
  (channel ∉ validChannels →
     invoke channel data st
     = (Throw (Error ("Invalid channel: " +:+ channel)), st)) ∧
  (channel ∈ validChannels →
     ∃ h es,
       (invoke channel data st).1 = Normal h ∧
       (h, (invoke channel data st).2) = ipc_invoke channel data st ∧
       journal (invoke channel data st).2
       = journal st ++ IpcInvoke channel data :: es).
Proof.
  unfold invoke. split; intros H.
  - by rewrite bool_decide_eq_false_2.
  - rewrite bool_decide_eq_true_2 by done.
    destruct (extends_handler channel data st) as [es E].
    destruct (ipc_invoke channel data st) as [h st'] eqn:Ei. by exists h, es.
Qed.

(** ** The stdout listener *)

Lemma on_stdout_spec chunk st :
  on_stdout chunk st = (Normal tt, emit [stdout_line (world st) chunk] st).
Proof.
  unfold on_stdout, try_catch, parse_json, stdout_line, mbind, js_bind, perform.
  by destruct (JSON_parse (world st) chunk).
Qed.

Lemma run_app st es1 es2 : run st (es1 ++ es2) = run (run st es1) es2.
Proof. apply foldl_app. Qed.

(** C5. Whatever chunks the child writes to its stdout, the listener never
    throws and each chunk is logged in turn, so the stream keeps being
    processed; a chunk that does not parse is logged as [Python stdout:]
    text; and no chunk settles a promise or touches a timer. *)
Theorem stdout_is_diagnostic st p chunks :
  p ∈ running st →
  let st' := run st (Stdout p <$> chunks) in
  (∀ chunk s, ∃ s', on_stdout chunk s = (Normal tt, s')) ∧
  journal st' = journal st ++ (stdout_line (world st) <$> chunks) ∧
  (∀ chunk, chunk ∈ chunks → JSON_parse (world st) chunk = None →
     ConsoleLog "Python stdout:" [JStr chunk] ∈ journal st') ∧
  settled st' = settled st ∧ timers st' = timers st ∧
  pythonProcess st' = pythonProcess st.
Proof.
  intros Hp st'.
  split; [intros chunk s; rewrite on_stdout_spec; eauto|].
  assert (st' = emit (stdout_line (world st) <$> chunks) st) as ->.
  { subst st'. revert st Hp. induction chunks as [|c cs IH]; intros st Hp; simpl.
    - by rewrite emit_nil.
    - rewrite bool_decide_eq_true_2 by done. rewrite on_stdout_spec. cbn [snd].
      rewrite IH by done. rewrite emit_emit. done. }
  split_and!; try done.
  intros chunk Hin Hnone. simpl. apply elem_of_app. right.
  apply list_elem_of_fmap. exists chunk. split; [|done].
  unfold stdout_line. by rewrite Hnone.
Qed.
(** ** File preview *)

Lemma settle_unsettled h o st :
  settled st !! h = None → settled (settle h o st) !! h = Some o.
Proof. intros E. unfold settle. rewrite E. simpl. by rewrite lookup_insert_eq. Qed.

Lemma fresh_unsettled h st : wf st → next_prom st ≤ h → settled st !! h = None.
Proof.
  intros (H1 & _) Hh. destruct (settled st !! h) eqn:E; [|done].
  assert (h < next_prom st) by eauto. lia.
Qed.

Lemma ipc_invoke_preview_file data st :
  ipc_invoke "preview-file" data st
  = handle_preview_file data (emit [IpcInvoke "preview-file" data] st).
Proof. done. Qed.

#[global] Arguments truthy : simpl never.

Lemma truthy_path path : path ≠ EmptyString → truthy (JStr path) = true.
Proof. by destruct path. Qed.

Lemma preview_file_body_missing (props : gmap string jsval) path st :
  props !! "filePath" = Some (JStr path) → path ≠ EmptyString →
  disk (world st) !! path = None →
  preview_file_body (JObj props) st
  = (Throw (Error "File does not exist"), emit [ExistsSync (JStr path)] st).
Proof.
  intros Hprops Hpath Hdisk.
  unfold preview_file_body, mbind, js_bind, lift, destructure, getprop.
  rewrite Hprops. cbn [default from_option id]. unfold unless_throw at 1.
  rewrite truthy_path by done. unfold existsSync, unless_throw, throw, mret, js_ret.
  rewrite Hdisk. rewrite bool_decide_eq_false_2; [done|]. by intros [? ?].
Qed.

(** C9. [preview-file] with a path at which the disk has nothing resolves
    with [{error: 'File does not exist'}]. *)
Theorem preview_missing_file st path (props : gmap string jsval) :
  wf st → path ≠ EmptyString →
  props !! "filePath" = Some (JStr path) →
  disk (world st) !! path = None →
  let r := invoke "preview-file" (JObj props) st in
  ∃ h, r.1 = Normal h ∧
       settled r.2 !! h
       = Some (Resolved (obj [("error", JStr "File does not exist")])).
Proof.
  intros Hwf Hpath Hprops Hdisk r. subst r.
  unfold invoke.
  replace (bool_decide ("preview-file" ∈ validChannels)) with true
    by (by vm_compute).
  rewrite ipc_invoke_preview_file. unfold handle_preview_file, new_promise.
  cbn [fst snd]. exists (next_prom st). split; [done|].
  unfold try_catch. rewrite (preview_file_body_missing props path) by done.
  unfold preview_file_catch, mbind, js_bind, perform. simpl.
  apply settle_unsettled. simpl. by apply fresh_unsettled.
Qed.

Lemma append_empty_r s : String.append s EmptyString = s.
Proof.
  induction s as [|c s IH]; [done|].
  change (String c (s +:+ EmptyString) = String c s). by rewrite IH.
Qed.

Lemma append_assoc (a b c : string) :
  String.append (String.append a b) c = String.append a (String.append b c).
Proof.
  induction a as [|x a IH]; [done|].
  change (String x ((a +:+ b) +:+ c) = String x (a +:+ b +:+ c)). by rewrite IH.
Qed.

Lemma split_no_sep sep l : has_char sep l = false → split sep l = [l].
Proof.
  induction l as [|c l IH]; simpl; [done|].
  intros [Hc Hl]%orb_false_elim. rewrite Hc, IH by done. done.
Qed.

Lemma split_app_sep sep l rest :
  has_char sep l = false →
  split sep (String.append l (String sep rest)) = l :: split sep rest.
Proof.
  induction l as [|c l IH].
  - intros _. change (split sep (String sep rest) = [EmptyString] ++ split sep rest).
    simpl. by rewrite Ascii.eqb_refl.
  - intros [Hc Hl]%orb_false_elim.
    change (split sep (String c (l +:+ String sep rest)) = String c l :: split sep rest).
    simpl. rewrite Hc, IH by done. done.
Qed.

Lemma split_file_of_lines ls final_newline :
  ls ≠ [] → Forall is_line ls →
  split newline (file_of_lines ls final_newline)
  = ls ++ (if final_newline then [EmptyString] else []).
Proof.
  unfold file_of_lines.
  induction ls as [|l ls IH]; [done|]. intros _ Hls.
  apply Forall_cons in Hls as [[Hl Hl'] Hls].
  destruct ls as [|l2 ls].
  - cbn [String.concat]. destruct final_newline.
    + by rewrite split_app_sep.
    + by rewrite append_empty_r, split_no_sep.
  - change (String.concat (String newline EmptyString) (l :: l2 :: ls))
      with (String.append l (String newline
              (String.concat (String newline EmptyString) (l2 :: ls)))).
    rewrite append_assoc.
    change (String newline ?a +:+ ?b) with (String newline (a +:+ b)).
    rewrite split_app_sep by done. rewrite IH by done. done.
Qed.

Lemma trimEnd_nonblank c s : is_space c = false → trimEnd (String c s) ≠ EmptyString.
Proof. intros Hc. simpl. rewrite Hc. by destruct (trimEnd s). Qed.

Lemma trim_nonblank l : all_space l = false → trim l ≠ EmptyString.
Proof.
  unfold trim. induction l as [|c l IH]; simpl; [done|].
  destruct (is_space c) eqn:Hc; simpl; [exact IH|].
  intros _. by apply trimEnd_nonblank.
Qed.

Lemma filter_lines ls : Forall is_line ls → filter (fun line => truthy (JStr (trim line)) = true) ls = ls.
Proof.
  induction 1 as [|l ls [_ Hl] _ IH]; [done|].
  rewrite filter_cons_True, IH; [done|]. by apply truthy_path, trim_nonblank.
Qed.

Lemma nonblank_file_of_lines ls final_newline :
  ls ≠ [] → Forall is_line ls →
  nonblank_lines (file_of_lines ls final_newline) = ls.
Proof.
  intros Hne Hls. unfold nonblank_lines.
  rewrite split_file_of_lines, filter_app, filter_lines by done.
  destruct final_newline; [|by rewrite app_nil_r].
  rewrite filter_cons_False, filter_nil, app_nil_r; [done|]. by vm_compute.
Qed.

Lemma preview_rows_spec lines columns i count :
  i + count ≤ length lines →
  preview_rows lines columns i count
  = Normal ((fun l => make_row columns (cells l)) <$> take count (drop i lines)).
Proof.
  revert i. induction count as [|n IH]; intros i Hi; simpl; [done|].
  destruct (lookup_lt_is_Some_2 lines i) as [line Hline]; [lia|].
  rewrite Hline, IH by lia. by rewrite (drop_S _ _ _ Hline).
Qed.

Lemma preview_file_body_found (props : gmap string jsval) path header rows
    final_newline st :
  props !! "filePath" = Some (JStr path) → path ≠ EmptyString →
  Forall is_line (header :: rows) →
  disk (world st) !! path
  = Some (RegularFile (file_of_lines (header :: rows) final_newline)) →
  length rows ≤ 10 →
  ∃ es,
    preview_file_body (JObj props) st
    = (Normal (obj [("preview",
                     JArr ((fun l => make_row (cells header) (cells l)) <$> rows));
                    ("columns", JArr (JStr <$> cells header));
                    ("rows_total", JNum (Z.of_nat (length rows)))]),
       emit es st).
Proof.
  intros Hprops Hpath Hls Hdisk Hlen.
  unfold preview_file_body, mbind, js_bind, lift, destructure, getprop.
  rewrite Hprops. cbn [default from_option id]. unfold unless_throw at 1.
  rewrite truthy_path by done. unfold existsSync, unless_throw, throw, mret, js_ret.
  rewrite Hdisk. rewrite bool_decide_eq_true_2 by eauto.
  unfold readFileSync. cbn [world emit set_journal disk]. rewrite Hdisk.
  rewrite nonblank_file_of_lines by done.
  cbn [length Nat.eqb negb hd].
  replace (S (length rows) - 1) with (length rows) by lia.
  rewrite Nat.min_r by done.
  rewrite preview_rows_spec by (simpl; lia).
  cbn [drop]. rewrite take_ge by done.
  unfold perform. rewrite !emit_emit. eauto.
Qed.

Lemma cell_or_empty (values : list string) i :
  js_or (from_option JStr JUndefined (values !! i)) (JStr EmptyString)
  = JStr (default EmptyString (values !! i)).
Proof.
  unfold js_or, truthy. destruct (values !! i) as [s|]; simpl; [|done].
  by destruct s.
Qed.

Lemma lookup_set_prop_ne col v row k :
  k ≠ col → set_prop col v row !! k = row !! k.
Proof.
  intros Hk. unfold set_prop. destruct (String.eqb col "__proto__"); [done|].
  by rewrite lookup_insert_ne.
Qed.

Lemma lookup_set_prop_proto col v row :
  row !! "__proto__" = None → set_prop col v row !! "__proto__" = None.
Proof.
  intros Hrow. unfold set_prop.
  destruct (String.eqb_spec col "__proto__") as [->|Hne]; [done|].
  by rewrite lookup_insert_ne.
Qed.

Lemma make_row_lookup columns values :
  ∃ row, make_row columns values = JObj row ∧
    (∀ i col, columns !! i = Some col → col ≠ "__proto__" →
       (∀ j, i < j → columns !! j ≠ Some col) →
       row !! col = Some (JStr (default EmptyString (values !! i)))) ∧
    (∀ k, k ∉ columns → row !! k = None) ∧
    row !! "__proto__" = None.
Proof.
  unfold make_row. eexists. split; [done|].
  induction columns as [|c columns IH] using rev_ind.
  { simpl. split_and!; [by intros i col Hi; rewrite lookup_nil in Hi|done|done]. }
  destruct IH as (IH1 & IH2 & IH3).
  rewrite imap_app, foldl_app. simpl. rewrite Nat.add_0_r, cell_or_empty.
  split_and!.
  - intros i col Hi Hcol Hlast.
    destruct (decide (i = length columns)) as [->|Hne].
    + rewrite list_lookup_middle in Hi by done. injection Hi as ->.
      unfold set_prop. rewrite (proj2 (String.eqb_neq _ _)) by done.
      by rewrite lookup_insert_eq.
    + assert (i < length columns) as Hlt.
      { apply lookup_lt_Some in Hi. rewrite length_app in Hi. simpl in Hi. lia. }
      rewrite lookup_app_l in Hi by done.
      rewrite lookup_set_prop_ne.
      * apply IH1; [done..|]. intros j Hj Hcj.
        apply (Hlast j Hj). rewrite lookup_app_l; [done|].
        by apply lookup_lt_Some in Hcj.
      * intros ->. apply (Hlast (length columns) Hlt).
        by rewrite list_lookup_middle.
  - intros k [Hk Hc]%not_elem_of_app.
    rewrite lookup_set_prop_ne; [by apply IH2|].
    intros ->. apply Hc, list_elem_of_here.
  - by apply lookup_set_prop_proto.
Qed.

Lemma split_csv_line fields :
  fields ≠ [] → Forall (fun f => has_char comma f = false) fields →
  split comma (csv_line fields) = fields.
Proof.
  unfold csv_line.
  induction fields as [|f fields IH]; [done|]. intros _ Hfs.
  apply Forall_cons in Hfs as [Hf Hfs].
  destruct fields as [|f2 fields].
  - cbn [String.concat]. by apply split_no_sep.
  - change (String.concat "," (f :: f2 :: fields))
      with (String.append f (String comma (String.concat "," (f2 :: fields)))).
    rewrite split_app_sep by done. by rewrite IH.
Qed.

Lemma strip_quotes_plain s : has_char dquote s = false → strip_quotes s = s.
Proof.
  induction s as [|c s IH]; simpl; [done|].
  intros [Hc Hs]%orb_false_elim. rewrite Hc. by rewrite IH.
Qed.

Lemma trimEnd_plain s : ends_blank s = false → trimEnd s = s.
Proof.
  induction s as [|c s IH]; [done|]. destruct s as [|c' s].
  - simpl. by intros ->.
  - intros Hs. change (ends_blank (String c' s) = false) in Hs.
    change (trimEnd (String c (String c' s)))
      with (match trimEnd (String c' s) with
            | EmptyString => if is_space c then EmptyString else String c EmptyString
            | r => String c r
            end).
    by rewrite (IH Hs).
Qed.

Lemma trim_plain s : begins_blank s = false → ends_blank s = false → trim s = s.
Proof.
  intros Hb He. unfold trim.
  assert (trimStart s = s) as ->; [|by apply trimEnd_plain].
  destruct s as [|c s]; [done|]. simpl in *. by rewrite Hb.
Qed.

(** The cells of a line of plain fields are the fields. *)
Lemma cells_csv_line fields :
  fields ≠ [] → Forall plain fields → cells (csv_line fields) = fields.
Proof.
  intros Hne Hfs. unfold cells. rewrite split_csv_line; [|done|].
  - induction Hfs as [|f fs (_ & Hq & Hb & He) _ IH]; [done|].
    simpl. rewrite trim_plain, strip_quotes_plain by done. f_equal.
    destruct fs; [done|]. by apply IH.
  - eapply Forall_impl; [done|]. by intros f (? & _).
Qed.

(** With distinct column names, none of them [__proto__], and as many
    values, the row is the object that pairs them. *)
Lemma make_row_record names values :
  NoDup names → "__proto__" ∉ names → length values = length names →
  make_row names values = record names values.
Proof.
  intros Hnd Hproto Hlen.
  destruct (make_row_lookup names values) as (row & -> & H1 & H2 & _).
  unfold record, obj. f_equal. apply map_eq. intros k.
  assert ((zip names (JStr <$> values)).*1 = names) as Hfst.
  { apply fst_zip. rewrite length_fmap. lia. }
  destruct (decide (k ∈ names)) as [Hin|Hout].
  - apply list_elem_of_lookup in Hin as [i Hi].
    destruct (lookup_lt_is_Some_2 values i) as [v Hv].
    { rewrite Hlen. by apply lookup_lt_Some in Hi. }
    rewrite (H1 i k Hi).
    + rewrite Hv. symmetry. apply elem_of_list_to_map_1; [by rewrite Hfst|].
      apply list_elem_of_lookup. exists i.
      rewrite lookup_zip_with, Hi, list_lookup_fmap, Hv. done.
    + intros ->. apply Hproto. by eapply list_elem_of_lookup_2.
    + intros j Hj Hcj. assert (i = j) by (by eapply NoDup_lookup). lia.
  - rewrite H2 by done. symmetry. apply not_elem_of_list_to_map_1. by rewrite Hfst.
Qed.

(** C8, as amended. [preview-file] on a file of eleven lines, a header and
    ten rows, none of them blank, with or without a final line feed,
    resolves with ten preview rows and [rows_total = 10]. The columns are
    the header's fields as the code cuts them: at every comma, trimmed and
    without double quotes. They are the header names themselves when the
    names are plain, that is without comma, double quote or white space at
    their ends; a row of as many plain values is then the object that pairs
    the names, when they are distinct and none is [__proto__], with the
    values. *)
Theorem preview_eleven_lines st path (props : gmap string jsval) header rows
    final_newline :
  wf st → path ≠ EmptyString →
  props !! "filePath" = Some (JStr path) →
  length rows = 10 → Forall is_line (header :: rows) →
  disk (world st) !! path
  = Some (RegularFile (file_of_lines (header :: rows) final_newline)) →
  let r := invoke "preview-file" (JObj props) st in
  ∃ h preview,
    r.1 = Normal h ∧
    settled r.2 !! h
    = Some (Resolved (obj [("preview", JArr preview);
                           ("columns", JArr (JStr <$> cells header));
                           ("rows_total", JNum 10)])) ∧
    length preview = 10 ∧
    preview = (fun l => make_row (cells header) (cells l)) <$> rows ∧
    ∀ names,
      Forall plain names → header = csv_line names →
      cells header = names ∧
      ∀ i values,
        rows !! i = Some (csv_line values) → Forall plain values →
        length values = length names → NoDup names → "__proto__" ∉ names →
        preview !! i = Some (record names values).
Proof.
  intros Hwf Hpath Hprops Hlen Hls Hdisk r. subst r.
  unfold invoke.
  replace (bool_decide ("preview-file" ∈ validChannels)) with true
    by (by vm_compute).
  rewrite ipc_invoke_preview_file. unfold handle_preview_file, new_promise.
  cbn [fst snd].
  exists (next_prom st), ((fun l => make_row (cells header) (cells l)) <$> rows).
  split; [done|].
  unfold try_catch.
  edestruct (preview_file_body_found props path header rows final_newline) as [es ->];
    [done..|lia|].
  rewrite Hlen. cbn [finish].
  split_and!; [|rewrite length_fmap; exact Hlen|done|].
  { apply settle_unsettled. simpl. by apply fresh_unsettled. }
  intros names Hnames ->.
  assert (names ≠ []) as Hne.
  { intros ->. apply Forall_cons in Hls as [[_ Hblank] _]. discriminate Hblank. }
  rewrite cells_csv_line by done. split; [done|].
  intros i values Hi Hvalues Hlenv Hnd Hproto.
  rewrite list_lookup_fmap, Hi. cbn [fmap option_fmap option_map]. f_equal.
  rewrite cells_csv_line; [by apply make_row_record|..|done].
  intros ->. by destruct names.
Qed.

(** ** Promises settle once *)

Lemma lookup_settle p o st h :
  settled (settle p o st) !! h =
  match settled st !! h with
  | Some o' => Some o'
  | None => if decide (p = h) then Some o else None
  end.
Proof.
  unfold settle. destruct (settled st !! p) eqn:E; simpl.
  - destruct (settled st !! h) eqn:E'; [done|]. case_decide; congruence.
  - destruct (decide (p = h)) as [->|].
    + by rewrite lookup_insert_eq, E.
    + rewrite lookup_insert_ne by done. by destruct (settled st !! h).
Qed.

Lemma settled_settle_mono p o st h o' :
  settled st !! h = Some o' → settled (settle p o st) !! h = Some o'.
Proof. intros E. by rewrite lookup_settle, E. Qed.

Lemma settled_settle_ne p o st h :
  p ≠ h → settled (settle p o st) !! h = settled st !! h.
Proof.
  intros Hne. rewrite lookup_settle. destruct (settled st !! h); [done|].
  by case_decide.
Qed.


Lemma settled_resume_other w o st h :
  h ∉ waiter_refs w → settled (resume w o st) !! h = settled st !! h.
Proof.
  intros Hh. pose proof (resume_spec w o st) as R.
  destruct w; [by rewrite R|..]; destruct R as (v & es & ->);
    (rewrite settled_settle_ne; [done|]; simpl in Hh; set_solver).
Qed.

Lemma settled_resume_mono w o st h o' :
  settled st !! h = Some o' → settled (resume w o st) !! h = Some o'.
Proof.
  intros E. pose proof (resume_spec w o st) as R.
  destruct w; [by rewrite R|..]; destruct R as (v & es & ->);
    by apply settled_settle_mono.
Qed.


Lemma settled_send_body_other c action data w st h :
  h ≠ c → h ∉ waiter_refs w →
  settled (send_body c action data w st) !! h = settled st !! h.
Proof.
  intros Hc Hw. unfold send_body. destruct (pythonProcess st); [done|].
  rewrite settled_resume_other, settled_settle_ne by done. done.
Qed.

Lemma settled_send_body_mono c action data w st h o' :
  settled st !! h = Some o' → settled (send_body c action data w st) !! h = Some o'.
Proof.
  intros E. unfold send_body. destruct (pythonProcess st); [done|].
  by apply settled_resume_mono, settled_settle_mono.
Qed.

Lemma settled_fire_other t st h :
  h ∉ refs t → settled (fire t st) !! h = settled st !! h.
Proof.
  intros Hh. destruct t as [s k|c action w]; unfold fire; simpl in Hh.
  - apply not_elem_of_cons in Hh as [Hs Hk].
    destruct (pythonProcess st) eqn:E; destruct k as [|c action data w]; simpl in *.
    + by rewrite settled_settle_ne.
    + apply not_elem_of_cons in Hk as [Hc Hw].
      rewrite settled_send_body_other, settled_settle_ne by done. done.
    + by rewrite settled_settle_ne.
    + apply not_elem_of_cons in Hk as [Hc Hw].
      rewrite settled_resume_other, !settled_settle_ne by done. done.
  - apply not_elem_of_cons in Hh as [Hc Hw].
    rewrite settled_resume_other, settled_settle_ne by done. done.
Qed.

Lemma settled_fire_mono t st h o :
  settled st !! h = Some o → settled (fire t st) !! h = Some o.
Proof.
  intros E. destruct t as [s k|c action w]; unfold fire.
  - destruct (pythonProcess st) eqn:Ep; destruct k as [|c action data w]; simpl.
    + by apply settled_settle_mono.
    + by apply settled_send_body_mono, settled_settle_mono.
    + by apply settled_settle_mono.
    + by apply settled_resume_mono, settled_settle_mono, settled_settle_mono.
  - by apply settled_resume_mono, settled_settle_mono.
Qed.

Lemma timers_resume w o st : timers (resume w o st) = timers st.
Proof.
  pose proof (resume_spec w o st) as R.
  destruct w; [by rewrite R|..]; destruct R as (v & es & ->);
    by rewrite timers_settle.
Qed.

Lemma timers_fire t st : timers (fire t st) = timers st ++ spawned_timers t st.
Proof.
  destruct t as [s k|c action w]; unfold fire, spawned_timers.
  - destruct (pythonProcess st) eqn:E; destruct k as [|c action data w]; simpl.
    + by rewrite timers_settle, app_nil_r.
    + unfold send_body. rewrite pythonProcess_settle. simpl. rewrite E. simpl.
      by rewrite timers_settle, now_settle.
    + by rewrite timers_settle, app_nil_r.
    + by rewrite timers_resume, !timers_settle, app_nil_r.
  - by rewrite timers_resume, timers_settle, app_nil_r.
Qed.

Lemma refs_spawned_timers t st y :
  y ∈ spawned_timers t st → ∀ h, h ∈ refs y.2 → h ∈ refs t.
Proof.
  unfold spawned_timers. destruct t as [s [|c action data w]|c action w];
    try (by intros ?%elem_of_nil).
  destruct (pythonProcess st); [|by intros ?%elem_of_nil].
  intros ->%list_elem_of_singleton h Hh. simpl in *.
  apply elem_of_cons in Hh as [->|Hh]; [|apply elem_of_cons]; set_solver.
Qed.

Lemma settled_fold_mono (l : list (nat * timer)) st h o :
  settled st !! h = Some o →
  settled (foldl (fun st x => fire x.2 st) st l) !! h = Some o.
Proof.
  revert st. induction l as [|x l IH]; intros st E; simpl; [done|].
  by apply IH, settled_fire_mono.
Qed.

Lemma now_tick st : now (tick st) = S (now st).
Proof.
  unfold tick.
  by destruct (quiet_fold_fire (filter (is_due (S (now st))) (timers st))
                 (set_timers (filter (fun x => ¬ is_due (S (now st)) x) (timers st))
                    (set_now (S (now st)) st))) as (_ & _ & _ & _ & -> & _).
Qed.

(** ** Every handler call is answered *)

#[local] Instance keeps_settled_preorder : PreOrder keeps_settled.
Proof.
  split; [by intros st h o|]. intros a b c Hab Hbc h o E. by apply Hbc, Hab.
Qed.

Lemma keeps_settled_same st st' : settled st' = settled st → keeps_settled st st'.
Proof. intros E h o. by rewrite E. Qed.

Lemma keeps_settled_settle p o st : keeps_settled st (settle p o st).
Proof. intros h o'. apply settled_settle_mono. Qed.

Lemma keeps_settled_finish h (m : js jsval) st :
  logs_only m → keeps_settled st (finish h (m st)).
Proof.
  intros Hm. destruct (Hm st) as [es E].
  destruct (m st) as [[v|e] st1]; simpl in *; subst;
    (etrans; [|apply keeps_settled_settle]); by apply keeps_settled_same.
Qed.


Lemma keeps_settled_tick st : keeps_settled st (tick st).
Proof. intros h o E. unfold tick. by apply settled_fold_mono. Qed.

Lemma keeps_settled_sendToPython action data w st :
  keeps_settled st (sendToPython action data w st).2.
Proof.
  intros h o E. rewrite sendToPython_unfold. cbn [snd].
  destruct (pythonProcess st); [by apply settled_send_body_mono|done].
Qed.

Lemma keeps_settled_ipc_invoke channel data st :
  keeps_settled st (ipc_invoke channel data st).2.
Proof.
  unfold ipc_invoke.
  etrans; [apply (keeps_settled_same st (emit [IpcInvoke channel data] st)); done|].
  generalize (emit [IpcInvoke channel data] st). clear st. intros st.
  destruct (String.eqb channel "health-check").
  { unfold handle_health_check, new_promise. cbn [snd].
    etrans; [|apply keeps_settled_sendToPython]. by apply keeps_settled_same. }
  destruct (String.eqb channel "ping").
  { unfold handle_ping, new_promise. cbn [snd].
    etrans; [|apply keeps_settled_settle]. by apply keeps_settled_same. }
  destruct (String.eqb channel "ping-python").
  { unfold handle_ping_python, new_promise. cbn [snd].
    etrans; [|apply keeps_settled_sendToPython]. by apply keeps_settled_same. }
  destruct (String.eqb channel "open-file-dialog").
  { unfold handle_open_file_dialog, new_promise. simpl.
    destruct (mainWindow st); simpl; [by apply keeps_settled_same|].
    etrans; [|apply keeps_settled_settle]. by apply keeps_settled_same. }
  destruct (String.eqb channel "preview-file").
  { unfold handle_preview_file, new_promise. cbn [snd].
    etrans; [|apply keeps_settled_finish, logs_only_preview_file].
    by apply keeps_settled_same. }
  destruct (String.eqb channel "import-data").
  { unfold handle_import_data, new_promise.
    destruct (logs_only_import_data_checks data (set_next_prom (S (next_prom st)) st))
      as [es E].
    destruct (import_data_checks data _) as [[[filePath symbol]|e] st1];
      simpl in E; subst; cbn [snd].
    - etrans; [|apply keeps_settled_sendToPython]. by apply keeps_settled_same.
    - etrans; [|apply keeps_settled_finish, logs_only_import_data_catch].
      by apply keeps_settled_same. }
  unfold new_promise. cbn [snd].
  etrans; [|apply keeps_settled_settle]. by apply keeps_settled_same.
Qed.

Lemma keeps_settled_step st e : keeps_settled st (step st e).
Proof.
  destruct e.
  - apply keeps_settled_tick.
  - simpl. case_bool_decide; [|reflexivity]. rewrite on_stdout_spec.
    by apply keeps_settled_same.
  - simpl. case_bool_decide; [|reflexivity]. by apply keeps_settled_same.
  - simpl. case_bool_decide; [|reflexivity]. by apply keeps_settled_same.
  - rewrite step_api_invoke. case_bool_decide; [|reflexivity].
    apply keeps_settled_ipc_invoke.
  - rewrite step_api_ping. apply keeps_settled_ipc_invoke.
  - rewrite step_api_pingPython. apply keeps_settled_ipc_invoke.
  - simpl. case_bool_decide; [|reflexivity].
    etrans; [|apply keeps_settled_finish, logs_only_dialog_result].
    by apply keeps_settled_same.
  - by apply keeps_settled_same.
Qed.

Lemma keeps_settled_run st es : keeps_settled st (run st es).
Proof.
  revert st. induction es as [|e es IH]; intros st; simpl; [reflexivity|].
  etrans; [apply keeps_settled_step | apply IH].
Qed.

Lemma allocates_from_refl n st : allocates_from n st st.
Proof.
  split_and!; [done..|by left|]. exists []. split; [by rewrite app_nil_r|].
  by intros y h ?%elem_of_nil.
Qed.

Lemma allocates_from_trans n a b c :
  allocates_from n a b → allocates_from n b c → allocates_from n a c.
Proof.
  intros (N1 & P1 & S1 & D1 & new1 & T1 & F1) (N2 & P2 & S2 & D2 & new2 & T2 & F2).
  split_and!; [congruence|lia| | |].
  - intros h Hh. by rewrite S2, S1.
  - intros h [Hh|Hh]%D2; [by apply D1|by right].
  - exists (new1 ++ new2). split; [by rewrite T2, T1, app_assoc|].
    intros y h [?|?]%elem_of_app; eauto.
Qed.

Lemma allocates_from_same n st st' :
  now st' = now st → next_prom st ≤ next_prom st' → settled st' = settled st →
  timers st' = timers st → dialogs st' ⊆ dialogs st → allocates_from n st st'.
Proof.
  intros E1 E2 E3 E4 E5. split_and!; [done..|by rewrite E3| |].
  { intros h Hh. left. by apply E5. }
  exists []. split; [by rewrite app_nil_r|]. by intros y h ?%elem_of_nil.
Qed.

Lemma allocates_from_settle n p o st : n ≤ p → allocates_from n st (settle p o st).
Proof.
  intros Hp. destruct (settle_fields p o st) as (_&_&_&E1&E2&E3&E4&_).
  split_and!; [done|lia| | |].
  - intros h Hh. apply settled_settle_ne. lia.
  - intros h. rewrite E4. by left.
  - exists []. split; [by rewrite app_nil_r|]. by intros y h ?%elem_of_nil.
Qed.

Lemma allocates_from_setTimeout n t delay st :
  (∀ h, h ∈ refs t → n ≤ h) → allocates_from n st (setTimeout t delay st).
Proof.
  intros Ht. split_and!; [done..|by left|]. eexists. split; [done|].
  intros y h ->%list_elem_of_singleton. apply Ht.
Qed.

Lemma allocates_from_finish n h (m : js jsval) st :
  logs_only m → n ≤ h → allocates_from n st (finish h (m st)).
Proof.
  intros Hm Hh. destruct (Hm st) as [es E].
  destruct (m st) as [[v|e] st1]; simpl in *; subst;
    (eapply allocates_from_trans; [|by apply allocates_from_settle]);
    by apply allocates_from_same.
Qed.

Lemma allocates_from_resume n w o st :
  (∀ h, h ∈ waiter_refs w → n ≤ h) → allocates_from n st (resume w o st).
Proof.
  intros Hw. pose proof (resume_spec w o st) as R.
  destruct w; [rewrite R; apply allocates_from_refl|..];
    destruct R as (v & es & ->);
    (eapply allocates_from_trans;
     [|apply allocates_from_settle, Hw; simpl; apply list_elem_of_here]);
    by apply allocates_from_same.
Qed.

Lemma allocates_from_send_body n c action data w st :
  n ≤ c → (∀ h, h ∈ waiter_refs w → n ≤ h) →
  allocates_from n st (send_body c action data w st).
Proof.
  intros Hc Hw. unfold send_body. destruct (pythonProcess st).
  - eapply allocates_from_trans; [|apply allocates_from_setTimeout].
    + by apply allocates_from_same.
    + simpl. intros h [->|Hh]%elem_of_cons; [done|by apply Hw].
  - eapply allocates_from_trans; [by apply allocates_from_settle|].
    by apply allocates_from_resume.
Qed.

Lemma allocates_from_sendToPython n action data w st :
  n ≤ next_prom st → (∀ h, h ∈ waiter_refs w → n ≤ h) →
  allocates_from n st (sendToPython action data w st).2.
Proof.
  intros Hn Hw. rewrite sendToPython_unfold. cbn [snd].
  destruct (pythonProcess st).
  - eapply allocates_from_trans; [|by apply allocates_from_send_body].
    apply allocates_from_same; simpl; [done|lia|done..].
  - unfold start, new_promise. simpl.
    split_and!; simpl; [done|lia|done|by left|].
    eexists. split; [done|].
    intros y h ->%list_elem_of_singleton. simpl.
    intros [->|[->|Hh]%elem_of_cons]%elem_of_cons; [lia..|by apply Hw].
Qed.

Lemma allocates_from_ipc_invoke channel data st :
  allocates_from (next_prom st) st (ipc_invoke channel data st).2.
Proof.
  unfold ipc_invoke.
  eapply allocates_from_trans;
    [apply (allocates_from_same _ st (emit [IpcInvoke channel data] st)); done|].
  change (next_prom st) with (next_prom (emit [IpcInvoke channel data] st)).
  generalize (emit [IpcInvoke channel data] st). clear st. intros st.
  assert (allocates_from (next_prom st) st (set_next_prom (S (next_prom st)) st))
    as Hnew by (apply allocates_from_same; simpl; [done|lia|done..]).
  destruct (String.eqb channel "health-check").
  { unfold handle_health_check, new_promise. cbn [snd].
    eapply allocates_from_trans; [done|]. apply allocates_from_sendToPython; simpl.
    - lia.
    - by intros h ->%list_elem_of_singleton. }
  destruct (String.eqb channel "ping").
  { unfold handle_ping, new_promise. cbn [snd].
    eapply allocates_from_trans; [done|]. by apply allocates_from_settle. }
  destruct (String.eqb channel "ping-python").
  { unfold handle_ping_python, new_promise. cbn [snd].
    eapply allocates_from_trans; [done|]. apply allocates_from_sendToPython; simpl.
    - lia.
    - by intros h ->%list_elem_of_singleton. }
  destruct (String.eqb channel "open-file-dialog").
  { unfold handle_open_file_dialog, new_promise. simpl.
    destruct (mainWindow st); simpl.
    - split_and!; simpl; [done|lia|done| |].
      + intros h [->%elem_of_singleton|Hh]%elem_of_union; [by right|by left].
      + exists []. split; [by rewrite app_nil_r|]. by intros y h ?%elem_of_nil.
    - eapply allocates_from_trans; [|by apply allocates_from_settle].
      apply allocates_from_same; simpl; [done|lia|done..]. }
  destruct (String.eqb channel "preview-file").
  { unfold handle_preview_file, new_promise. cbn [snd].
    eapply allocates_from_trans; [done|].
    by apply allocates_from_finish; [apply logs_only_preview_file|]. }
  destruct (String.eqb channel "import-data").
  { unfold handle_import_data, new_promise.
    destruct (logs_only_import_data_checks data (set_next_prom (S (next_prom st)) st))
      as [es E].
    destruct (import_data_checks data _) as [[[filePath symbol]|e] st1];
      simpl in E; subst; cbn [snd].
    - eapply allocates_from_trans; [done|].
      eapply allocates_from_trans;
        [by apply (allocates_from_same _ (set_next_prom (S (next_prom st)) st)
                     (emit es (set_next_prom (S (next_prom st)) st)))|].
      apply allocates_from_sendToPython; simpl.
      + lia.
      + by intros h ->%list_elem_of_singleton.
    - eapply allocates_from_trans; [done|].
      eapply allocates_from_trans;
        [by apply (allocates_from_same _ (set_next_prom (S (next_prom st)) st)
                     (emit es (set_next_prom (S (next_prom st)) st)))|].
      by apply allocates_from_finish; [apply logs_only_import_data_catch|]. }
  unfold new_promise. cbn [snd].
  eapply allocates_from_trans; [done|]. by apply allocates_from_settle.
Qed.

(** ** A pending timer *)

Lemma timer_pending_fire c t due t' st :
  c ∉ refs t' → timer_pending c t due st → timer_pending c t due (fire t' st).
Proof.
  intros Ht (Hs & Hnow & Hn & Hd & Hin & Huniq).
  destruct (quiet_fire t' st) as (_ & _ & _ & Ep & En & Ed & _).
  unfold timer_pending. rewrite settled_fire_other, timers_fire, En, Ep, Ed by done.
  split_and!; [done..|apply elem_of_app; by left|].
  intros y [Hy|Hy]%elem_of_app Hr; [by apply Huniq|].
  destruct Ht. by eapply refs_spawned_timers.
Qed.

Lemma timer_pending_fold c t due (l : list (nat * timer)) st :
  (∀ y, y ∈ l → c ∉ refs y.2) → timer_pending c t due st →
  timer_pending c t due (foldl (fun st x => fire x.2 st) st l).
Proof.
  revert st. induction l as [|x l IH]; intros st Hl Hp; simpl; [done|].
  apply IH.
  - intros y Hy. by apply Hl, list_elem_of_further.
  - apply timer_pending_fire; [|done]. apply Hl, list_elem_of_here.
Qed.

Lemma timer_pending_tick c t due st :
  S (now st) < due → timer_pending c t due st → timer_pending c t due (tick st).
Proof.
  intros Hlt (Hs & Hnow & Hn & Hd & Hin & Huniq). unfold tick.
  apply timer_pending_fold.
  - intros y [Hdue Hy]%list_elem_of_filter Hr.
    apply Huniq in Hr; [|done]. subst y. unfold is_due in Hdue. simpl in Hdue. lia.
  - split_and!; simpl; [done|lia|done..| |].
    + apply list_elem_of_filter. split; [|done]. unfold is_due. simpl. lia.
    + intros y [_ Hy]%list_elem_of_filter. by apply Huniq.
Qed.

Lemma timer_pending_allocates c t due st st' :
  allocates_from (next_prom st) st st' →
  timer_pending c t due st → timer_pending c t due st'.
Proof.
  intros (En & Ep & Es & Ed & new & Et & Hnew) (Hs & Hnow & Hn & Hd & Hin & Huniq).
  split_and!; [by rewrite Es|lia|lia| | |].
  - intros [?|?]%Ed; [done|lia].
  - rewrite Et. apply elem_of_app. by left.
  - intros y. rewrite Et. intros [Hy|Hy]%elem_of_app Hr; [by apply Huniq|].
    apply (Hnew y c) in Hr; [lia|done].
Qed.

Lemma allocates_from_step st e :
  e ≠ Tick → (∀ h c f, e ≠ DialogClosed h c f) →
  allocates_from (next_prom st) st (step st e).
Proof.
  intros He Hd.
  destruct e as [|p chunk|p chunk|p code|channel data| | |h' canceled filePaths|];
    [done|..].
  - simpl. case_bool_decide; [|apply allocates_from_refl].
    rewrite on_stdout_spec. by apply allocates_from_same.
  - simpl. case_bool_decide; [|apply allocates_from_refl]. by apply allocates_from_same.
  - simpl. case_bool_decide; [|apply allocates_from_refl]. by apply allocates_from_same.
  - rewrite step_api_invoke. case_bool_decide; [|apply allocates_from_refl].
    apply allocates_from_ipc_invoke.
  - rewrite step_api_ping. apply allocates_from_ipc_invoke.
  - rewrite step_api_pingPython. apply allocates_from_ipc_invoke.
  - by destruct (Hd h' canceled filePaths).
  - by apply allocates_from_same.
Qed.

(** The dialog handler settles the promise of the dialog it closes. *)
Lemma step_dialog_closed st h canceled filePaths :
  h ∈ dialogs st →
  ∃ v es, step st (DialogClosed h canceled filePaths)
          = settle h (Resolved v) (emit es (set_dialogs (dialogs st ∖ {[h]}) st)).
Proof.
  intros Hh. simpl. rewrite bool_decide_eq_true_2 by done.
  destruct (returns_logging (dialog_result canceled filePaths)
              (set_dialogs (dialogs st ∖ {[h]}) st)
              (logs_only_dialog_result _ _) (total_dialog_result _ _))
    as (v & es & ->). by exists v, es.
Qed.

Lemma timer_pending_step c t due st e :
  (e = Tick → S (now st) < due) →
  timer_pending c t due st → timer_pending c t due (step st e).
Proof.
  intros Hlt Hp.
  destruct e as [|p chunk|p chunk|p code|channel data| | |h' canceled filePaths|];
    try (by apply (timer_pending_allocates c t due st);
            [apply allocates_from_step|]).
  - apply timer_pending_tick; [by apply Hlt|done].
  - destruct (decide (h' ∈ dialogs st)) as [Hh|Hh];
      [|by simpl; rewrite bool_decide_eq_false_2].
    destruct (step_dialog_closed st h' canceled filePaths Hh) as (v & es & ->).
    destruct Hp as (Hs & Hnow & Hn & Hd & Hin & Huniq).
    unfold timer_pending.
    rewrite settled_settle_ne, now_settle, next_prom_settle, dialogs_settle,
      timers_settle by (by intros ->).
    split_and!; simpl; [done..| |done|done].
    by intros [? _]%elem_of_difference.
Qed.

Lemma now_step st e : now (step st e) = now st + elapsed [e].
Proof.
  destruct e as [|p chunk|p chunk|p code|channel data| | |h' canceled filePaths|].
  - rewrite Nat.add_1_r. apply now_tick.
  - simpl. rewrite Nat.add_0_r. case_bool_decide; [|done]. by rewrite on_stdout_spec.
  - simpl. rewrite Nat.add_0_r. by case_bool_decide.
  - simpl. rewrite Nat.add_0_r. by case_bool_decide.
  - rewrite Nat.add_0_r. by apply allocates_from_step.
  - rewrite Nat.add_0_r. by apply allocates_from_step.
  - rewrite Nat.add_0_r. by apply allocates_from_step.
  - rewrite Nat.add_0_r.
    destruct (decide (h' ∈ dialogs st)) as [Hh|Hh];
      [|by simpl; rewrite bool_decide_eq_false_2].
    destruct (step_dialog_closed st h' canceled filePaths Hh) as (v & es & ->).
    by rewrite now_settle.
  - simpl. lia.
Qed.

Lemma elapsed_cons e es : elapsed (e :: es) = elapsed [e] + elapsed es.
Proof. by destruct e. Qed.

Lemma elapsed_app es1 es2 : elapsed (es1 ++ es2) = elapsed es1 + elapsed es2.
Proof.
  induction es1 as [|e es1 IH]; [done|].
  rewrite <-app_comm_cons, (elapsed_cons e (es1 ++ es2)), (elapsed_cons e es1), IH. lia.
Qed.

Lemma now_run st es : now (run st es) = now st + elapsed es.
Proof.
  revert st. induction es as [|e es IH]; intros st; [simpl; lia|].
  change (run st (e :: es)) with (run (step st e) es).
  rewrite IH, now_step, (elapsed_cons e es). lia.
Qed.

Lemma timer_pending_run c t due st es :
  now st + elapsed es < due →
  timer_pending c t due st → timer_pending c t due (run st es).
Proof.
  revert st. induction es as [|e es IH]; intros st Hlt Hp; [done|].
  change (run st (e :: es)) with (run (step st e) es).
  rewrite (elapsed_cons e es) in Hlt.
  apply IH; [rewrite now_step; lia|].
  apply timer_pending_step; [|done]. intros ->. simpl in Hlt. lia.
Qed.

(** The timer [t] settles [c] with a verdict it reads off the process
    handle: when the clock reaches [due], the promise has that verdict. *)
Lemma timer_pending_fold_due c t due verdict (l : list (nat * timer)) st :
  (∀ x, settled x !! c = None →
        settled (fire t x) !! c = Some (verdict (pythonProcess x))) →
  settled st !! c = None → (due, t) ∈ l →
  (∀ y, y ∈ l → c ∈ refs y.2 → y = (due, t)) →
  settled (foldl (fun st x => fire x.2 st) st l) !! c
  = Some (verdict (pythonProcess st)).
Proof.
  intros Hfire. revert st. induction l as [|x l IH]; intros st Hs Hin Huniq.
  { by apply elem_of_nil in Hin. }
  simpl. destruct (decide (c ∈ refs x.2)) as [Hr|Hr].
  - rewrite (Huniq x (list_elem_of_here _ _) Hr). simpl.
    apply settled_fold_mono. by apply Hfire.
  - assert (pythonProcess (fire x.2 st) = pythonProcess st) as <- by apply quiet_fire.
    apply IH.
    + by rewrite settled_fire_other.
    + apply elem_of_cons in Hin as [Hx|Hl]; [|done].
      assert (settled (fire t st) !! c ≠ settled st !! c) as Hne
        by (rewrite Hfire, Hs by done; done).
      destruct Hne. apply settled_fire_other. by subst x.
    + intros y Hy. apply Huniq. by apply list_elem_of_further.
Qed.

Lemma timer_pending_due c t due verdict st :
  (∀ x, settled x !! c = None →
        settled (fire t x) !! c = Some (verdict (pythonProcess x))) →
  S (now st) = due → timer_pending c t due st →
  settled (tick st) !! c = Some (verdict (pythonProcess st)).
Proof.
  intros Hfire Hdue (Hs & Hnow & Hn & Hd & Hin & Huniq). unfold tick.
  rewrite (timer_pending_fold_due c t due verdict); [done..| |].
  - apply list_elem_of_filter. split; [|done]. unfold is_due. simpl. lia.
  - intros y [_ Hy]%list_elem_of_filter. by apply Huniq.
Qed.

Lemma split_at_tick n es :
  n < elapsed es → ∃ es1 es2, es = es1 ++ Tick :: es2 ∧ elapsed es1 = n.
Proof.
  revert n. induction es as [|e es IH]; intros n Hn; [simpl in Hn; lia|].
  rewrite (elapsed_cons e es) in Hn.
  assert (e = Tick ∨ elapsed [e] = 0) as [->|He] by (destruct e; eauto).
  - destruct n as [|n].
    + by exists [], es.
    + destruct (IH n) as (es1 & es2 & -> & Hel); [simpl in Hn; lia|].
      exists (Tick :: es1), es2. split; [done|]. simpl. by rewrite Hel.
  - destruct (IH n) as (es1 & es2 & -> & Hel); [lia|].
    exists (e :: es1), es2. split; [done|]. rewrite (elapsed_cons e es1). lia.
Qed.

(** ** The startup wait *)

(** The timer of [start] settles its promise by the handle it finds. *)
Lemma fire_start s k st :
  s ∉ caller_refs k → settled st !! s = None →
  settled (fire (StartTimer s k) st) !! s = Some (start_verdict (pythonProcess st)).
Proof.
  intros Hk Hs. unfold fire, start_verdict.
  destruct (pythonProcess st) eqn:E; destruct k as [|c action data w]; simpl in *.
  - rewrite lookup_settle. simpl. rewrite Hs. by case_decide.
  - apply not_elem_of_cons in Hk as [Hc Hw].
    rewrite settled_send_body_other by done.
    rewrite lookup_settle. simpl. rewrite Hs. by case_decide.
  - rewrite lookup_settle. simpl. rewrite Hs. by case_decide.
  - apply not_elem_of_cons in Hk as [Hc Hw].
    rewrite settled_resume_other, settled_settle_ne by done.
    rewrite lookup_settle. rewrite Hs. by case_decide.
Qed.
































(** ** The mock response *)

(** The timer of [sendToPython] resolves the call with the placeholder. *)
Lemma fire_mock c action w st :
  c ∉ waiter_refs w → settled st !! c = None →
  settled (fire (MockTimer c action w) st) !! c
  = Some (Resolved (mock_response action)).
Proof.
  intros Hw Hs. unfold fire. rewrite settled_resume_other by done.
  rewrite lookup_settle, Hs. by case_decide.
Qed.

Lemma timer_pending_send action data w st :
  wf st → is_Some (pythonProcess st) →
  (∀ h, h ∈ waiter_refs w → h < next_prom st) →
  timer_pending (next_prom st) (MockTimer (next_prom st) action w)
    (now st + 100) (sendToPython action data w st).2.
Proof.
  intros Hwf [p Hp] Hw. rewrite sendToPython_unfold, Hp. cbn [snd].
  unfold send_body. simpl. rewrite Hp. simpl.
  split_and!; simpl.
  - by apply fresh_unsettled.
  - lia.
  - lia.
  - intros Hd. destruct Hwf as (_ & _ & H3). apply H3 in Hd. lia.
  - apply elem_of_app. right. by apply list_elem_of_singleton.
  - intros y [Hy| ->%list_elem_of_singleton]%elem_of_app Hr; [|done].
    destruct Hwf as (_ & H2 & _). apply (H2 y) in Hr; [lia|done].
Qed.

(** Whatever happens after a call of [sendToPython] on a live child -
    frames on stdout in any order, no frame at all, the child's exit, other
    calls - once 100 ms have passed the call is resolved with the
    placeholder for its action. *)
Lemma send_resolves_with_mock action data w st es :
  wf st → is_Some (pythonProcess st) →
  (∀ h, h ∈ waiter_refs w → h < next_prom st) →
  100 ≤ elapsed es →
  settled (run (sendToPython action data w st).2 es)
    !! (sendToPython action data w st).1
  = Some (Resolved (mock_response action)).
Proof.
  intros Hwf Hlive Hw Hes.
  pose proof (timer_pending_send action data w st Hwf Hlive Hw) as Hp.
  replace (sendToPython action data w st).1 with (next_prom st)
    by (by rewrite sendToPython_unfold).
  destruct (split_at_tick 99 es) as (es1 & es2 & -> & Hel); [lia|].
  rewrite run_app.
  change (run ?x (Tick :: es2)) with (run (tick x) es2).
  apply keeps_settled_run.
  assert (now (sendToPython action data w st).2 = now st) as Hnow.
  { apply (allocates_from_sendToPython 0); [lia|]. intros h _. lia. }
  apply (timer_pending_run _ _ _ _ es1) in Hp; [|lia].
  rewrite (timer_pending_due (next_prom st) (MockTimer (next_prom st) action w)
             (now st + 100) (fun _ => Resolved (mock_response action)));
    [done| | |done].
  - intros x Hx. apply fire_mock; [|done]. intros Hin%Hw. lia.
  - rewrite now_run. lia.
Qed.

(** C1. The renderer starts two imports, so two [sendToPython] calls are in
    flight, and the child answers them in the opposite order: both calls
    resolve with one and the same placeholder, none with the payload of a
    frame, the requests written carry no identifier, and both imports
    report zero rows. Promises 1 and 3 are those of the two handler calls,
    2 and 4 those of their [sendToPython] calls. *)
Theorem concurrent_calls_get_the_mock :
  let import symbol :=
    ApiInvoke "import-data"
      (obj [("filePath", JStr "/data/prices.csv"); ("symbol", JStr symbol)]) in
  let frames := [Stdout 0 (Bench.frame "MSFT" "7"); Stdout 0 (Bench.frame "AAPL" "3")] in
  let st := run Bench.up ([import "AAPL"; import "MSFT"] ++ frames ++ wait 100) in
  JSON_parse Bench.w (Bench.frame "AAPL" "3")
  = Some (obj [("symbol", JStr "AAPL"); ("rows_imported", JNum 3)]) ∧
  JSON_parse Bench.w (Bench.frame "MSFT" "7")
  = Some (obj [("symbol", JStr "MSFT"); ("rows_imported", JNum 7)]) ∧
  (fun r => (getprop r "action", getprop (getprop r "data") "symbol", getprop r "id"))
    <$> stdin_writes st
  = [(JStr "import-data", JStr "AAPL", JUndefined);
     (JStr "import-data", JStr "MSFT", JUndefined)] ∧
  settled st !! 2 = Some (Resolved (mock_response "import-data")) ∧
  settled st !! 4 = Some (Resolved (mock_response "import-data")) ∧
  settled st !! 1
  = Some (Resolved (obj [("success", JBool true); ("rowsImported", JNum 0);
                         ("symbol", JStr "AAPL")])) ∧
  settled st !! 3
  = Some (Resolved (obj [("success", JBool true); ("rowsImported", JNum 0);
                         ("symbol", JStr "MSFT")])).
Proof. by vm_compute. Qed.

(** C3. A call is pending when the child exits: the handle is cleared, and
    the call is not rejected but resolved, 100 ms after it was made, with
    the placeholder that says [python_alive: true]. Promise 1 is the one of
    the handler called by [pingPython], promise 2 the one of its
    [sendToPython] call. *)
Theorem exit_leaves_pending_call :
  let st1 := run Bench.up [ApiPingPython; Close 0 1] in
  let st2 := run st1 (wait 100) in
  pythonProcess st1 = None ∧ running st1 = ∅ ∧
  settled st1 !! 2 = None ∧
  settled st2 !! 2 = Some (Resolved (mock_response "ping")) ∧
  settled st2 !! 1 = Some (Resolved (mock_response "ping")) ∧
  getprop (mock_response "ping") "python_alive" = JBool true.
Proof. by vm_compute. Qed.

(** C6. No response ever arrives for a call: it is not rejected at a
    deadline but resolved after 100 ms with the placeholder, no timer is
    left, and its request carries no identifier. Promise 2 is the one of the
    [sendToPython] call. *)
Theorem unanswered_call_resolves :
  let st := run Bench.up (ApiPingPython :: wait 100) in
  settled (run Bench.up (ApiPingPython :: wait 99)) !! 2 = None ∧
  settled st !! 2 = Some (Resolved (mock_response "ping")) ∧
  settled (run st (wait 5000)) !! 2 = Some (Resolved (mock_response "ping")) ∧
  timers st = [] ∧
  (fun r => getprop r "id") <$> stdin_writes st = [JUndefined].
Proof. by vm_compute. Qed.

(** ** The properties at the test bench *)

(** The paths of the bench's platform are normalised: with the root as
    working or home directory no separator is doubled. *)
Remark posix_join_at_the_root :
  posix_join ["/"; "backend"; "main.py"] = "/backend/main.py" ∧
  posix_join ["/"; ".byod_backtesting"; "trading_data.db"]
  = "/.byod_backtesting/trading_data.db" ∧
  posix_join ["/srv/app/"; "backend"; "main.py"] = "/srv/app/backend/main.py".
Proof. by vm_compute. Qed.

Lemma invoke_gate_witness :
  ("shell-exec" ∉ validChannels) ∧
  invoke "shell-exec" JNull Bench.up
  = (Throw (Error "Invalid channel: shell-exec"), Bench.up) ∧
  "import-data" ∈ validChannels ∧
  ∃ h es,
    (invoke "import-data" JNull Bench.up).1 = Normal h ∧
    (h, (invoke "import-data" JNull Bench.up).2) = ipc_invoke "import-data" JNull Bench.up ∧
    journal (invoke "import-data" JNull Bench.up).2
    = journal Bench.up ++ IpcInvoke "import-data" JNull :: es.
Proof.
  assert ("shell-exec" ∉ validChannels) as Hout.
  { apply (bool_decide_unpack _). vm_compute. exact I. }
  assert ("import-data" ∈ validChannels) as Hin.
  { apply (bool_decide_unpack _). vm_compute. exact I. }
  split; [exact Hout|]. split.
  - exact (proj1 (invoke_gate "shell-exec" JNull Bench.up) Hout).
  - split; [exact Hin|].
    exact (proj2 (invoke_gate "import-data" JNull Bench.up) Hin).
Defined.

Lemma single_worker_witness :
  let st := run (booted Bench.w) [ApiPingPython; Close 0 1; ApiPingPython; Tick] in
  1 ∈ running st ∧
  pythonProcess (sendToPython "ping" JUndefined WNobody st).2 = Some 1 ∧
  next_pid (sendToPython "ping" JUndefined WNobody st).2 = next_pid st.
Proof.
  intros st.
  assert (1 ∈ running st) as Hin.
  { apply (bool_decide_unpack _). vm_compute. exact I. }
  split; [exact Hin|].
  destruct (single_worker Bench.w [ApiPingPython; Close 0 1; ApiPingPython; Tick])
    as (_ & _ & H).
  destruct (H 1 "ping" JUndefined WNobody Hin) as (H1 & _ & H3 & _).
  split; [exact H1 | exact H3].
Defined.

Lemma stdout_is_diagnostic_witness :
  0 ∈ running Bench.up ∧
  let st' := run Bench.up (Stdout 0 <$> ["{}"; "Traceback (most recent call last):"; "{}"]) in
  ConsoleLog "Python stdout:" [JStr "Traceback (most recent call last):"] ∈ journal st' ∧
  settled st' = settled Bench.up ∧ timers st' = timers Bench.up.
Proof.
  assert (0 ∈ running Bench.up) as Hin.
  { apply (bool_decide_unpack _). vm_compute. exact I. }
  split; [exact Hin|]. intros st'.
  destruct (stdout_is_diagnostic Bench.up 0
              ["{}"; "Traceback (most recent call last):"; "{}"] Hin)
    as (_ & _ & Hlog & Hs & Ht & _).
  split; [|split; [exact Hs | exact Ht]].
  apply Hlog.
  - apply list_elem_of_further, list_elem_of_here.
  - reflexivity.
Defined.



(** The same in the middle of a session: when the child of a [start] closes
    and another request restarts the worker during the wait, the first
    [start] finds the new child behind the handle and resolves too. *)
Remark restart_during_wait :
  let st := run Bench.up ([Close 0 1; ApiPingPython; Close 1 0; ApiPingPython]
                          ++ wait 1000) in
  settled st !! 3 = Some (Resolved (JBool true)) ∧ pythonProcess st = Some 2.
Proof. by vm_compute. Qed.

(** The two startups of the bench, evaluated. *)
Remark startup_evaluated :
  settled (run (booted Bench.w) (Stdout 0 "starting" :: wait 1000)) !! 0
  = Some (Resolved (JBool true)) ∧
  settled (run (booted Bench.w) (Close 0 1 :: wait 1000)) !! 0
  = Some (Rejected (Error "Failed to start Python process")).
Proof. by vm_compute. Qed.

Lemma preview_eleven_lines_witness :
  let props : gmap string jsval := {[ "filePath" := JStr "/data/prices.csv" ]} in
  let names := ["date"; "open"; "close"] in
  wf Bench.up ∧ "/data/prices.csv" ≠ EmptyString ∧
  props !! "filePath" = Some (JStr "/data/prices.csv") ∧
  length Bench.rows = 10 ∧ Forall is_line (Bench.header :: Bench.rows) ∧
  disk (world Bench.up) !! "/data/prices.csv"
  = Some (RegularFile (file_of_lines (Bench.header :: Bench.rows) false)) ∧
  Forall plain names ∧ Bench.header = csv_line names ∧
  Bench.rows !! 9 = Some (csv_line ["d10"; "10"; "11"]) ∧
  ∃ h preview,
    (invoke "preview-file" (JObj props) Bench.up).1 = Normal h ∧
    settled (invoke "preview-file" (JObj props) Bench.up).2 !! h
    = Some (Resolved (obj [("preview", JArr preview);
                           ("columns", JArr [JStr "date"; JStr "open"; JStr "close"]);
                           ("rows_total", JNum 10)])) ∧
    length preview = 10 ∧
    preview !! 9
    = Some (obj [("date", JStr "d10"); ("open", JStr "10"); ("close", JStr "11")]).
Proof.
  intros props names.
  assert (wf Bench.up) as Hwf by apply wf_run, wf_booted.
  assert ("/data/prices.csv" ≠ EmptyString) as Hpath by discriminate.
  assert (props !! "filePath" = Some (JStr "/data/prices.csv")) as Hprops
    by apply lookup_singleton_eq.
  assert (length Bench.rows = 10) as Hlen by reflexivity.
  assert (Forall is_line (Bench.header :: Bench.rows)) as Hls.
  { repeat constructor; vm_compute; discriminate. }
  assert (disk (world Bench.up) !! "/data/prices.csv"
          = Some (RegularFile (file_of_lines (Bench.header :: Bench.rows) false)))
    as Hdisk by (vm_compute; reflexivity).
  assert (Forall plain names) as Hnames by (repeat constructor).
  assert (Forall plain ["d10"; "10"; "11"]) as Hvalues by (repeat constructor).
  assert (Bench.header = csv_line names) as Hheader by reflexivity.
  assert (Bench.rows !! 9 = Some (csv_line ["d10"; "10"; "11"])) as Hrow
    by reflexivity.
  assert (NoDup names) as Hnd.
  { apply (bool_decide_unpack _). vm_compute. exact I. }
  assert ("__proto__" ∉ names) as Hproto.
  { apply (bool_decide_unpack _). vm_compute. exact I. }
  split; [exact Hwf|]. split; [exact Hpath|]. split; [exact Hprops|].
  split; [exact Hlen|]. split; [exact Hls|]. split; [exact Hdisk|].
  split; [exact Hnames|]. split; [exact Hheader|]. split; [exact Hrow|].
  destruct (preview_eleven_lines Bench.up "/data/prices.csv" props Bench.header
              Bench.rows false Hwf Hpath Hprops Hlen Hls Hdisk)
    as (h & preview & H1 & H2 & H3 & _ & H5).
  destruct (H5 names Hnames Hheader) as [Hcols Hrows].
  exists h, preview. split; [exact H1|]. split; [|split; [exact H3|]].
  - rewrite H2, Hcols. reflexivity.
  - exact (Hrows 9 ["d10"; "10"; "11"] Hrow Hvalues eq_refl Hnd Hproto).
Defined.

(** C8, the counterexample. Two files of eleven lines with a header. In the
    first the sixth line is empty: the call resolves with nine rows and
    [rows_total = 9]. In the second the header has two names,
    [Last, First] in double quotes and [Close]: the call resolves with the
    three columns [Last], [First] and [Close]. *)
Lemma preview_eleven_lines_differs :
  let call path :=
    invoke "preview-file" (obj [("filePath", JStr path)]) Bench.up in
  let columns := JArr [JStr "date"; JStr "open"; JStr "close"] in
  let columns' := JArr [JStr "Last"; JStr "First"; JStr "Close"] in
  length Bench.gapped = 11 ∧
  disk (world Bench.up) !! "/data/gapped.csv"
  = Some (RegularFile (file_of_lines Bench.gapped false)) ∧
  (call "/data/gapped.csv").1 = Normal 1 ∧
  (∃ preview,
     settled (call "/data/gapped.csv").2 !! 1
     = Some (Resolved (obj [("preview", JArr preview); ("columns", columns);
                            ("rows_total", JNum 9)])) ∧
     length preview = 9) ∧
  length Bench.quoted = 11 ∧
  disk (world Bench.up) !! "/data/quoted.csv"
  = Some (RegularFile (file_of_lines Bench.quoted false)) ∧
  (call "/data/quoted.csv").1 = Normal 1 ∧
  (∃ preview,
     settled (call "/data/quoted.csv").2 !! 1
     = Some (Resolved (obj [("preview", JArr preview); ("columns", columns');
                            ("rows_total", JNum 10)])) ∧
     length preview = 10).
Proof.
  intros call columns columns'. split_and!.
  - reflexivity.
  - by vm_compute.
  - by vm_compute.
  - exists ((fun l => make_row (cells "date,open,close") (cells l))
            <$> filter (fun l => l ≠ EmptyString) (drop 1 Bench.gapped)).
    split; by vm_compute.
  - reflexivity.
  - by vm_compute.
  - by vm_compute.
  - exists ((fun l => make_row ["Last"; "First"; "Close"] (cells l))
            <$> drop 1 Bench.quoted).
    split; by vm_compute.
Qed.

Lemma preview_missing_file_witness :
  let props : gmap string jsval := {[ "filePath" := JStr "/data/absent.csv" ]} in
  wf Bench.up ∧ "/data/absent.csv" ≠ EmptyString ∧
  props !! "filePath" = Some (JStr "/data/absent.csv") ∧
  disk (world Bench.up) !! "/data/absent.csv" = None ∧
  ∃ h, (invoke "preview-file" (JObj props) Bench.up).1 = Normal h ∧
       settled (invoke "preview-file" (JObj props) Bench.up).2 !! h
       = Some (Resolved (obj [("error", JStr "File does not exist")])).
Proof.
  intros props.
  assert (wf Bench.up) as Hwf by apply wf_run, wf_booted.
  assert ("/data/absent.csv" ≠ EmptyString) as Hpath by discriminate.
  assert (props !! "filePath" = Some (JStr "/data/absent.csv")) as Hprops
    by apply lookup_singleton_eq.
  assert (disk (world Bench.up) !! "/data/absent.csv" = None) as Hdisk
    by (vm_compute; reflexivity).
  split; [exact Hwf|]. split; [exact Hpath|]. split; [exact Hprops|].
  split; [exact Hdisk|].
  exact (preview_missing_file Bench.up "/data/absent.csv" props Hwf Hpath Hprops Hdisk).
Defined.


(** * Further properties of the code *)

(** ** File preview, in general *)

Lemma preview_file_body_regular (props : gmap string jsval) path text header rows st :
  props !! "filePath" = Some (JStr path) → path ≠ EmptyString →
  disk (world st) !! path = Some (RegularFile text) →
  nonblank_lines text = header :: rows →
  ∃ es,
    preview_file_body (JObj props) st
    = (Normal (obj [("preview",
                     JArr ((fun l => make_row (cells header) (cells l))
                             <$> take 10 rows));
                    ("columns", JArr (JStr <$> cells header));
                    ("rows_total", JNum (Z.of_nat (length rows)))]),
       emit es st).
Proof.
  intros Hprops Hpath Hdisk Hls.
  unfold preview_file_body, mbind, js_bind, lift, destructure, getprop.
  rewrite Hprops. cbn [default from_option id]. unfold unless_throw at 1.
  rewrite truthy_path by done. unfold existsSync, unless_throw, throw, mret, js_ret.
  rewrite Hdisk. rewrite bool_decide_eq_true_2 by eauto.
  unfold readFileSync. cbn [world emit set_journal disk]. rewrite Hdisk.
  rewrite Hls.
  cbn [length Nat.eqb negb hd].
  replace (S (length rows) - 1) with (length rows) by lia.
  rewrite preview_rows_spec by (cbn [length]; lia).
  cbn [drop]. rewrite drop_0.
  assert (take (10 `min` length rows) rows = take 10 rows) as ->.
  { destruct (Nat.min_spec 10 (length rows)) as [[? ->]|[? ->]]; [done|].
    by rewrite !take_ge by lia. }
  unfold perform. rewrite !emit_emit. eauto.
Qed.

Lemma preview_file_body_blank (props : gmap string jsval) path text st :
  props !! "filePath" = Some (JStr path) → path ≠ EmptyString →
  disk (world st) !! path = Some (RegularFile text) →
  nonblank_lines text = [] →
  ∃ es, preview_file_body (JObj props) st
        = (Throw (Error "File is empty"), emit es st).
Proof.
  intros Hprops Hpath Hdisk Hls.
  unfold preview_file_body, mbind, js_bind, lift, destructure, getprop.
  rewrite Hprops. cbn [default from_option id]. unfold unless_throw at 1.
  rewrite truthy_path by done. unfold existsSync, unless_throw, throw, mret, js_ret.
  rewrite Hdisk. rewrite bool_decide_eq_true_2 by eauto.
  unfold readFileSync. cbn [world emit set_journal disk]. rewrite Hdisk.
  rewrite Hls. cbn [length Nat.eqb negb]. rewrite !emit_emit. eauto.
Qed.

Lemma invoke_preview_file data st :
  invoke "preview-file" data st
  = (Normal (next_prom st),
     finish (next_prom st)
       (try_catch (preview_file_body data) preview_file_catch
          (set_next_prom (S (next_prom st)) (emit [IpcInvoke "preview-file" data] st)))).
Proof.
  unfold invoke.
  replace (bool_decide ("preview-file" ∈ validChannels)) with true
    by (by vm_compute).
  by rewrite ipc_invoke_preview_file.
Qed.

(** X1. [preview-file] on a regular file: with the header and the rows being
    its lines that are not blank, the call resolves with the header's cells
    as columns, one preview object for each of the first ten rows - for all
    rows when there are fewer, for none when the file has a header only - and
    [rows_total] the number of all rows. *)
Theorem preview_of_regular_file st path (props : gmap string jsval) text header rows :
  wf st → path ≠ EmptyString →
  props !! "filePath" = Some (JStr path) →
  disk (world st) !! path = Some (RegularFile text) →
  nonblank_lines text = header :: rows →
  let r := invoke "preview-file" (JObj props) st in
  ∃ h preview,
    r.1 = Normal h ∧
    settled r.2 !! h
    = Some (Resolved (obj [("preview", JArr preview);
                           ("columns", JArr (JStr <$> cells header));
                           ("rows_total", JNum (Z.of_nat (length rows)))])) ∧
    preview = (fun l => make_row (cells header) (cells l)) <$> take 10 rows ∧
    length preview = Nat.min 10 (length rows).
Proof.
  intros Hwf Hpath Hprops Hdisk Hls r. subst r.
  rewrite invoke_preview_file. cbn [fst snd].
  exists (next_prom st), ((fun l => make_row (cells header) (cells l)) <$> take 10 rows).
  split; [done|].
  unfold try_catch.
  edestruct (preview_file_body_regular props path text header rows) as [es ->];
    [done..|].
  cbn [finish]. split_and!; [|done|by rewrite length_fmap, length_take].
  apply settle_unsettled. simpl. by apply fresh_unsettled.
Qed.

Lemma split_all_space sep s :
  all_space s = true → Forall (fun l => all_space l = true) (split sep s).
Proof.
  induction s as [|c s IH]; simpl.
  { intros _. by apply Forall_cons. }
  intros [Hc Hs]%andb_true_iff. specialize (IH Hs).
  destruct (Ascii.eqb c sep).
  - by apply Forall_cons.
  - destruct (split sep s) as [|w ws].
    + apply Forall_cons. split; [|done]. simpl. by rewrite Hc.
    + apply Forall_cons in IH as [Hw Hws]. apply Forall_cons. split; [|done].
      simpl. by rewrite Hc, Hw.
Qed.

Lemma trim_all_space s : all_space s = true → trim s = EmptyString.
Proof.
  unfold trim. induction s as [|c s IH]; simpl; [done|].
  intros [Hc Hs]%andb_true_iff. rewrite Hc. by apply IH.
Qed.

Lemma nonblank_lines_all_space text : all_space text = true → nonblank_lines text = [].
Proof.
  intros H%(split_all_space newline). unfold nonblank_lines.
  induction H as [|l ls Hl _ IH]; [done|].
  rewrite filter_cons_False; [done|]. by rewrite trim_all_space.
Qed.

(** X2. [preview-file] on a file that holds nothing but white space and line
    feeds, the empty file among them, resolves with
    [{error: 'File is empty'}]. *)
Theorem preview_of_blank_file st path (props : gmap string jsval) text :
  wf st → path ≠ EmptyString →
  props !! "filePath" = Some (JStr path) →
  disk (world st) !! path = Some (RegularFile text) →
  all_space text = true →
  let r := invoke "preview-file" (JObj props) st in
  ∃ h, r.1 = Normal h ∧
       settled r.2 !! h = Some (Resolved (obj [("error", JStr "File is empty")])).
Proof.
  intros Hwf Hpath Hprops Hdisk Hblank r. subst r.
  rewrite invoke_preview_file. cbn [fst snd].
  exists (next_prom st). split; [done|].
  unfold try_catch.
  edestruct (preview_file_body_blank props path text) as [es ->];
    [done..|by apply nonblank_lines_all_space|].
  unfold preview_file_catch, mbind, js_bind, perform. simpl.
  apply settle_unsettled. simpl. by apply fresh_unsettled.
Qed.

(** ** The cells of a line *)

Lemma length_split sep s : length (split sep s) = S (count_char sep s).
Proof.
  induction s as [|c s IH]; simpl; [done|].
  destruct (Ascii.eqb c sep); simpl; [by rewrite IH|].
  destruct (split sep s); simpl in *; lia.
Qed.

Lemma has_char_strip_quotes s : has_char dquote (strip_quotes s) = false.
Proof.
  induction s as [|c s IH]; simpl; [done|].
  destruct (Ascii.eqb c dquote) eqn:E; simpl; [done|]. by rewrite E.
Qed.

(** X3. A line is cut at every comma, also at one between double quotes: it
    has one cell more than it has commas. No cell keeps a double quote. *)
Theorem cells_of_a_line line :
  length (cells line) = S (count_char comma line) ∧
  Forall (fun cell => has_char dquote cell = false) (cells line).
Proof.
  unfold cells. split.
  - by rewrite length_map, length_split.
  - induction (split comma line) as [|v vs IH]; simpl; [done|].
    apply Forall_cons. split; [apply has_char_strip_quotes|done].
Qed.

(** ** The rows of a preview *)

Lemma last_occurrence (k : string) (l : list string) :
  k ∈ l → ∃ i, l !! i = Some k ∧ ∀ j, i < j → l !! j ≠ Some k.
Proof.
  induction l as [|x l IH] using rev_ind; [by intros ?%elem_of_nil|].
  intros Hin. destruct (decide (x = k)) as [->|Hne].
  - exists (length l). split; [by rewrite list_lookup_middle|].
    intros j Hj. rewrite lookup_ge_None_2; [done|]. rewrite length_app. simpl. lia.
  - apply elem_of_app in Hin as [Hin|Hin%list_elem_of_singleton]; [|congruence].
    destruct (IH Hin) as (i & Hi & Hlast). exists i. split.
    + rewrite lookup_app_l; [done|]. by apply lookup_lt_Some in Hi.
    + intros j Hj. destruct (decide (j < length l)) as [Hlt|Hge].
      * rewrite lookup_app_l by done. by apply Hlast.
      * destruct (decide (j = length l)) as [->|Hj'].
        -- rewrite list_lookup_middle by done. congruence.
        -- rewrite lookup_ge_None_2; [done|]. rewrite length_app. simpl. lia.
Qed.

(** X4. A preview row has one field for each column name other than
    [__proto__], and no other field: cells beyond the header are dropped,
    and a column named [__proto__] leaves no field, since assigning a string
    to [row['__proto__']] creates no property. The field of a name is the
    cell at the column's position, or the empty string when the line has no
    cell there; when a name is the header of several columns, the last of
    them counts. *)
Theorem preview_row_fields columns values :
  ∃ row,
    make_row columns values = JObj row ∧
    (∀ k, is_Some (row !! k) ↔ k ∈ columns ∧ k ≠ "__proto__") ∧
    (∀ i col,
       columns !! i = Some col → col ≠ "__proto__" →
       (∀ j, i < j → columns !! j ≠ Some col) →
       row !! col = Some (JStr (default EmptyString (values !! i)))).
Proof.
  destruct (make_row_lookup columns values) as (row & E & H1 & H2 & H3).
  exists row. split; [exact E|]. split; [|exact H1].
  intros k. split.
  - intros Hk. split.
    + destruct (decide (k ∈ columns)) as [|Hout]; [done|].
      rewrite (H2 k Hout) in Hk. by destruct Hk.
    + intros ->. rewrite H3 in Hk. by destruct Hk.
  - intros [Hin Hk].
    destruct (last_occurrence k columns Hin) as (i & Hi & Hlast).
    rewrite (H1 i k Hi Hk Hlast). eauto.
Qed.

(** ** Channels without a handler *)

Lemma ipc_invoke_unregistered channel data st :
  channel ∉ registered_channels →
  ipc_invoke channel data st
  = (next_prom st,
     settle (next_prom st)
       (Rejected (Error ("Error invoking remote method '" +:+ channel
                         +:+ "': Error: No handler registered for '"
                         +:+ channel +:+ "'")))
       (set_next_prom (S (next_prom st)) (emit [IpcInvoke channel data] st))).
Proof.
  intros Hn. unfold ipc_invoke.
  repeat match goal with
    | |- context [String.eqb channel ?s] =>
        destruct (String.eqb_spec channel s) as [->|_];
        [destruct Hn; apply (bool_decide_unpack _); by vm_compute|]
    end.
  done.
Qed.

(** X5. A channel that passes the whitelist of [invoke] but has no handler
    in the main process - [run-backtest], [get-strategies], [save-strategy],
    [get-price-data] and [get-backtest-results] - is forwarded, and the
    promise returned is rejected with [No handler registered] as soon as the
    main process has handled the call; the worker is not touched and no
    timer is set. *)
Theorem whitelisted_without_handler channel data st :
  wf st → channel ∈ validChannels → channel ∉ registered_channels →
  let r := invoke channel data st in
  ∃ h, r.1 = Normal h ∧
       settled r.2 !! h
       = Some (Rejected (Error ("Error invoking remote method '" +:+ channel
                                +:+ "': Error: No handler registered for '"
                                +:+ channel +:+ "'"))) ∧
       journal r.2 = journal st ++ [IpcInvoke channel data] ∧
       pythonProcess r.2 = pythonProcess st ∧ running r.2 = running st ∧
       timers r.2 = timers st.
Proof.
  intros Hwf Hv Hn r. subst r. unfold invoke.
  rewrite bool_decide_eq_true_2 by done.
  rewrite ipc_invoke_unregistered by done. cbn [fst snd].
  exists (next_prom st). split; [done|].
  rewrite journal_settle, pythonProcess_settle, running_settle, timers_settle.
  split_and!; [|done..].
  apply settle_unsettled. simpl. by apply fresh_unsettled.
Qed.

(** ** The checks of the file handlers *)

Lemma invoke_import_data data st :
  invoke "import-data" data st
  = (Normal (handle_import_data data (emit [IpcInvoke "import-data" data] st)).1,
     (handle_import_data data (emit [IpcInvoke "import-data" data] st)).2).
Proof.
  unfold invoke.
  replace (bool_decide ("import-data" ∈ validChannels)) with true
    by (by vm_compute).
  change (ipc_invoke "import-data" data st)
    with (handle_import_data data (emit [IpcInvoke "import-data" data] st)).
  by destruct (handle_import_data data _).
Qed.

Lemma existsSync_unfold path st :
  existsSync path st = ((existsSync path st).1, emit [ExistsSync path] st).
Proof. done. Qed.

Lemma preview_file_body_no_path (props : gmap string jsval) st :
  truthy (getprop (JObj props) "filePath") = false →
  preview_file_body (JObj props) st = (Throw (Error "No file path provided"), st).
Proof.
  intros Ht. unfold preview_file_body, mbind, js_bind, lift, destructure.
  unfold unless_throw at 1. by rewrite Ht.
Qed.

Lemma preview_file_body_absent (props : gmap string jsval) st :
  truthy (getprop (JObj props) "filePath") = true →
  (existsSync (getprop (JObj props) "filePath") st).1 = Normal false →
  preview_file_body (JObj props) st
  = (Throw (Error "File does not exist"),
     emit [ExistsSync (getprop (JObj props) "filePath")] st).
Proof.
  intros Ht Hex. unfold preview_file_body, mbind, js_bind, lift, destructure.
  unfold unless_throw at 1. rewrite Ht. unfold mret, js_ret.
  rewrite existsSync_unfold, Hex. done.
Qed.

Lemma import_data_checks_no_path (props : gmap string jsval) st :
  truthy (getprop (JObj props) "filePath") = false →
  import_data_checks (JObj props) st = (Throw (Error "No file path provided"), st).
Proof.
  intros Ht. unfold import_data_checks, mbind, js_bind, lift, destructure.
  unfold unless_throw at 1. by rewrite Ht.
Qed.

Lemma import_data_checks_absent (props : gmap string jsval) st :
  truthy (getprop (JObj props) "filePath") = true →
  (existsSync (getprop (JObj props) "filePath") st).1 = Normal false →
  import_data_checks (JObj props) st
  = (Throw (Error "File does not exist"),
     emit [ExistsSync (getprop (JObj props) "filePath")] st).
Proof.
  intros Ht Hex. unfold import_data_checks, mbind, js_bind, lift, destructure.
  unfold unless_throw at 1. rewrite Ht. unfold mret, js_ret.
  rewrite existsSync_unfold, Hex. done.
Qed.

(** X6. [preview-file] and [import-data] check their argument first. When
    its [filePath] is missing, empty or otherwise falsy the call resolves
    with [{error: 'No file path provided'}] and the disk is not looked at;
    when nothing exists at the path it resolves with
    [{error: 'File does not exist'}]. Either way the reply is there when
    the handler returns, no file is read, the worker is neither started nor
    written to, and no timer is set. *)
Theorem file_handlers_check_the_path channel (props : gmap string jsval) st :
  wf st → channel = "preview-file" ∨ channel = "import-data" →
  let filePath := getprop (JObj props) "filePath" in
  truthy filePath = false ∨ (existsSync filePath st).1 = Normal false →
  let r := invoke channel (JObj props) st in
  let msg := if truthy filePath then "File does not exist"
             else "No file path provided" in
  ∃ h, r.1 = Normal h ∧
       settled r.2 !! h = Some (Resolved (obj [("error", JStr msg)])) ∧
       journal r.2
       = journal st
         ++ IpcInvoke channel (JObj props)
            :: (if truthy filePath then [ExistsSync filePath] else [])
         ++ [ConsoleError ("Error in " +:+ channel +:+ ":") [JStr msg]] ∧
       pythonProcess r.2 = pythonProcess st ∧ running r.2 = running st ∧
       next_pid r.2 = next_pid st ∧ timers r.2 = timers st.
Proof.
  intros Hwf Hch filePath Hbad r msg. subst r.
  assert (settled st !! next_prom st = None) as Hfresh by (by apply fresh_unsettled).
  exists (next_prom st).
  destruct Hch as [-> | ->].
  - rewrite invoke_preview_file. cbn [fst snd]. split; [done|].
    unfold try_catch. subst msg.
    destruct (truthy filePath) eqn:Ht.
    + destruct Hbad as [?|Hex]; [done|].
      rewrite preview_file_body_absent by done.
      unfold preview_file_catch, mbind, js_bind, perform, mret, js_ret, finish.
      rewrite journal_settle, pythonProcess_settle, running_settle,
        next_pid_settle, timers_settle.
      split_and!; [by apply settle_unsettled| |done..].
      simpl. by rewrite <-!app_assoc.
    + rewrite preview_file_body_no_path by done.
      unfold preview_file_catch, mbind, js_bind, perform, mret, js_ret, finish.
      rewrite journal_settle, pythonProcess_settle, running_settle,
        next_pid_settle, timers_settle.
      split_and!; [by apply settle_unsettled| |done..].
      simpl. by rewrite <-!app_assoc.
  - rewrite invoke_import_data. unfold handle_import_data, new_promise.
    subst msg.
    destruct (truthy filePath) eqn:Ht.
    + destruct Hbad as [?|Hex]; [done|].
      rewrite import_data_checks_absent by done. cbn [fst snd]. split; [done|].
      unfold import_data_catch, mbind, js_bind, perform, mret, js_ret, finish.
      rewrite journal_settle, pythonProcess_settle, running_settle,
        next_pid_settle, timers_settle.
      split_and!; [by apply settle_unsettled| |done..].
      simpl. by rewrite <-!app_assoc.
    + rewrite import_data_checks_no_path by done. cbn [fst snd]. split; [done|].
      unfold import_data_catch, mbind, js_bind, perform, mret, js_ret, finish.
      rewrite journal_settle, pythonProcess_settle, running_settle,
        next_pid_settle, timers_settle.
      split_and!; [by apply settle_unsettled| |done..].
      simpl. by rewrite <-!app_assoc.
Qed.

(** ** The file dialog *)

Lemma dialog_open_fire h t st :
  h ∉ refs t → dialog_open h st → dialog_open h (fire t st).
Proof.
  intros Ht (Hd & Hs & Hn & Hfree).
  destruct (quiet_fire t st) as (_ & _ & _ & Ep & _ & Ed & _).
  unfold dialog_open. rewrite settled_fire_other, timers_fire, Ep, Ed by done.
  split_and!; [done..|].
  intros y [Hy|Hy]%elem_of_app Hr; [by apply (Hfree y)|].
  destruct Ht. by eapply refs_spawned_timers.
Qed.

Lemma dialog_open_fold h (l : list (nat * timer)) st :
  (∀ y, y ∈ l → h ∉ refs y.2) → dialog_open h st →
  dialog_open h (foldl (fun st x => fire x.2 st) st l).
Proof.
  revert st. induction l as [|x l IH]; intros st Hl Hp; simpl; [done|].
  apply IH.
  - intros y Hy. by apply Hl, list_elem_of_further.
  - apply dialog_open_fire; [|done]. apply Hl, list_elem_of_here.
Qed.

Lemma dialog_open_tick h st : dialog_open h st → dialog_open h (tick st).
Proof.
  intros (Hd & Hs & Hn & Hfree). unfold tick. apply dialog_open_fold.
  - intros y [_ Hy]%list_elem_of_filter. by apply Hfree.
  - split_and!; simpl; [done..|].
    intros y [_ Hy]%list_elem_of_filter. by apply Hfree.
Qed.

Lemma dialogs_sendToPython action data w st :
  dialogs (sendToPython action data w st).2 = dialogs st.
Proof.
  rewrite sendToPython_unfold. cbn [snd]. destruct (pythonProcess st); [|done].
  by destruct (quiet_send_body (next_prom st) action data w
                 (set_next_prom (S (next_prom st)) st)) as (_&_&_&_&_&->&_).
Qed.

Lemma dialogs_finish h (m : js jsval) st :
  logs_only m → dialogs (finish h (m st)) = dialogs st.
Proof. intros Hm. by destruct (quiet_finish h m st Hm) as (_&_&_&_&_&->&_). Qed.

Lemma dialogs_ipc_invoke channel data st :
  dialogs st ⊆ dialogs (ipc_invoke channel data st).2.
Proof.
  unfold ipc_invoke.
  change (dialogs st) with (dialogs (emit [IpcInvoke channel data] st)).
  generalize (emit [IpcInvoke channel data] st). clear st. intros st.
  destruct (String.eqb channel "health-check").
  { unfold handle_health_check, new_promise. cbn [snd].
    by rewrite dialogs_sendToPython. }
  destruct (String.eqb channel "ping").
  { unfold handle_ping, new_promise. cbn [snd]. by rewrite dialogs_settle. }
  destruct (String.eqb channel "ping-python").
  { unfold handle_ping_python, new_promise. cbn [snd].
    by rewrite dialogs_sendToPython. }
  destruct (String.eqb channel "open-file-dialog").
  { unfold handle_open_file_dialog, new_promise. simpl.
    destruct (mainWindow st); simpl.
    - apply union_subseteq_r.
    - by rewrite dialogs_settle. }
  destruct (String.eqb channel "preview-file").
  { unfold handle_preview_file, new_promise. cbn [snd].
    by rewrite dialogs_finish by apply logs_only_preview_file. }
  destruct (String.eqb channel "import-data").
  { unfold handle_import_data, new_promise.
    destruct (logs_only_import_data_checks data (set_next_prom (S (next_prom st)) st))
      as [es E].
    destruct (import_data_checks data _) as [[[filePath symbol]|e] st1];
      simpl in E; subst; cbn [snd].
    - by rewrite dialogs_sendToPython.
    - by rewrite dialogs_finish by apply logs_only_import_data_catch. }
  unfold new_promise. cbn [snd]. by rewrite dialogs_settle.
Qed.

Lemma dialogs_step st e :
  e ≠ Tick → (∀ h c f, e ≠ DialogClosed h c f) → dialogs st ⊆ dialogs (step st e).
Proof.
  intros He Hd.
  destruct e as [|p chunk|p chunk|p code|channel data| | |h' canceled filePaths|];
    [done|..].
  - simpl. case_bool_decide; [|done]. by rewrite on_stdout_spec.
  - simpl. by case_bool_decide.
  - simpl. by case_bool_decide.
  - rewrite step_api_invoke. case_bool_decide; [|done]. apply dialogs_ipc_invoke.
  - rewrite step_api_ping. apply dialogs_ipc_invoke.
  - rewrite step_api_pingPython. apply dialogs_ipc_invoke.
  - by destruct (Hd h' canceled filePaths).
  - done.
Qed.

Lemma dialog_open_step h st e :
  ¬ closes_dialog h e → dialog_open h st → dialog_open h (step st e).
Proof.
  intros He Hp.
  destruct e as [|p chunk|p chunk|p code|channel data| | |h' canceled filePaths|].
  1: by apply dialog_open_tick.
  7: { simpl in He.
       destruct (decide (h' ∈ dialogs st)) as [Hh|Hh];
         [|by simpl; rewrite bool_decide_eq_false_2].
       destruct (step_dialog_closed st h' canceled filePaths Hh) as (v & es & ->).
       destruct Hp as (Hd & Hs & Hn & Hfree). unfold dialog_open.
       rewrite settled_settle_ne, next_prom_settle, dialogs_settle, timers_settle
         by done.
       split_and!; simpl; [|done..].
       apply elem_of_difference. split; [done|].
       intros ?%elem_of_singleton. by apply He. }
  all: match goal with
       | |- dialog_open _ (step _ ?e) =>
           assert (allocates_from (next_prom st) st (step st e)) as Ha
             by (by apply allocates_from_step);
           assert (dialogs st ⊆ dialogs (step st e)) as Hsub
             by (by apply dialogs_step)
       end;
       destruct Ha as (_ & Ep & Es & _ & new & Et & Hnew);
       destruct Hp as (Hd & Hs & Hn & Hfree);
       (split_and!; [by apply Hsub|by rewrite Es|lia|]);
       rewrite Et; intros y [Hy|Hy]%elem_of_app Hr;
       [by apply (Hfree y)|apply (Hnew y h) in Hr; [lia|done]].
Qed.

Lemma dialog_open_run h st es :
  Forall (fun e => ¬ closes_dialog h e) es → dialog_open h st →
  dialog_open h (run st es).
Proof.
  revert st. induction es as [|e es IH]; intros st Hes Hp; [done|].
  apply Forall_cons in Hes as [He Hes].
  change (run st (e :: es)) with (run (step st e) es).
  by apply IH, dialog_open_step.
Qed.

Lemma invoke_open_file_dialog data st :
  invoke "open-file-dialog" data st
  = (Normal (next_prom st),
     (handle_open_file_dialog (emit [IpcInvoke "open-file-dialog" data] st)).2).
Proof.
  unfold invoke.
  replace (bool_decide ("open-file-dialog" ∈ validChannels)) with true
    by (by vm_compute).
  change (ipc_invoke "open-file-dialog" data st)
    with (handle_open_file_dialog (emit [IpcInvoke "open-file-dialog" data] st)).
  unfold handle_open_file_dialog, new_promise. simpl. by destruct (mainWindow st).
Qed.

(** X7. [open-file-dialog]: without a main window the call resolves, when
    the handler returns, with
    [{canceled: false, error: 'Main window not available'}] and no dialog is
    shown. With a window the dialog is shown and the call stays pending,
    whatever else happens, until the user closes that dialog; it then
    resolves with [{canceled: true}] when the dialog was cancelled or no
    path was chosen, and with the first chosen path otherwise. *)
Theorem open_file_dialog_answer data st es canceled filePaths :
  wf st →
  let h := next_prom st in
  let st1 := (invoke "open-file-dialog" data st).2 in
  (invoke "open-file-dialog" data st).1 = Normal h ∧
  (mainWindow st = false →
     settled st1 !! h
     = Some (Resolved (obj [("canceled", JBool false);
                            ("error", JStr "Main window not available")])) ∧
     dialogs st1 = dialogs st ∧
     journal st1
     = journal st ++ [IpcInvoke "open-file-dialog" data;
                      ConsoleError "Error in open-file-dialog:"
                        [JStr "Main window not available"]]) ∧
  (mainWindow st = true →
     journal st1 = journal st ++ [IpcInvoke "open-file-dialog" data; ShowOpenDialog h] ∧
     (Forall (fun e => ¬ closes_dialog h e) es →
      let st2 := run st1 es in
      settled st2 !! h = None ∧
      settled (step st2 (DialogClosed h canceled filePaths)) !! h
      = Some (Resolved
                match filePaths with
                | filePath :: _ =>
                    if canceled then obj [("canceled", JBool true)]
                    else obj [("canceled", JBool false); ("filePath", JStr filePath)]
                | [] => obj [("canceled", JBool true)]
                end))).
Proof.
  intros Hwf h st1. subst st1. rewrite invoke_open_file_dialog. cbn [fst snd].
  assert (settled st !! h = None) as Hfresh by (by apply fresh_unsettled).
  split; [done|].
  unfold handle_open_file_dialog, new_promise. cbn [emit set_journal mainWindow
    set_next_prom next_prom].
  split; intros Hw; rewrite Hw; cbn [snd].
  - rewrite dialogs_settle, journal_settle. split_and!; [|done|].
    + by apply settle_unsettled.
    + simpl. by rewrite <-app_assoc.
  - split; [simpl; by rewrite <-app_assoc|].
    intros Hes.
    match goal with |- context [run ?s es] => set (st2 := run s es) end.
    assert (dialog_open h st2) as (Hd & Hs & _).
    { apply dialog_open_run; [done|].
      split_and!; simpl.
      - apply elem_of_union. left. by apply elem_of_singleton.
      - done.
      - subst h. lia.
      - intros y Hy Hr. destruct Hwf as (_ & Ht & _).
        apply (Ht y h) in Hr; [subst h; lia|done]. }
    split; [done|].
    simpl. rewrite bool_decide_eq_true_2 by done.
    unfold dialog_result.
    destruct canceled, filePaths as [|filePath filePaths];
      unfold mret, js_ret, mbind, js_bind, perform, finish;
      by apply settle_unsettled.
Qed.

(** ** Subscriptions *)

Lemma listeners_ipcRenderer_on channel cb r ch :
  listeners (ipcRenderer_on channel cb r) ch
  = listeners r ch ++ (if decide (ch = channel) then [cb] else []).
Proof.
  unfold ipcRenderer_on, listeners at 1. case_decide as E.
  - subst ch. by rewrite lookup_insert_eq.
  - rewrite lookup_insert_ne by done. by rewrite app_nil_r.
Qed.

Lemma listeners_removeListener channel cb r ch :
  listeners (removeListener channel cb r) ch
  = if decide (ch = channel)
    then reverse (remove_first cb (reverse (listeners r ch)))
    else listeners r ch.
Proof.
  unfold removeListener, listeners. case_decide as E.
  - subst ch. rewrite lookup_alter_eq. by destruct (r !! channel).
  - by rewrite lookup_alter_ne.
Qed.

Lemma remove_first_app cb (l1 l2 : list nat) :
  cb ∉ l1 → remove_first cb (l1 ++ cb :: l2) = l1 ++ l2.
Proof.
  induction l1 as [|x l1 IH]; simpl.
  - intros _. by rewrite decide_True.
  - intros [Hx Hl]%not_elem_of_cons. rewrite decide_False by done.
    by rewrite IH.
Qed.

Lemma remove_last_app cb (l1 l2 : list nat) :
  cb ∉ l2 →
  reverse (remove_first cb (reverse (l1 ++ cb :: l2))) = l1 ++ l2.
Proof.
  intros Hl. rewrite reverse_app, reverse_cons, <-app_assoc. simpl.
  rewrite remove_first_app by (by rewrite elem_of_reverse).
  by rewrite reverse_app, !reverse_involutive.
Qed.

Lemma on_snd channel cb r :
  (on channel cb r).2
  = if bool_decide (channel ∈ on_validChannels) then ipcRenderer_on channel cb r
    else r.
Proof. unfold on. by case_bool_decide. Qed.

(** The listeners that a series of [on] calls adds do not depend on the
    listeners there were. *)
Lemma listeners_foldl_on (others : list (string * nat)) :
  ∃ added : string → list nat,
    (∀ r ch, listeners (foldl (fun r o => (on o.1 o.2 r).2) r others) ch
             = listeners r ch ++ added ch) ∧
    (∀ ch x, x ∈ added ch → (ch, x) ∈ others).
Proof.
  induction others as [|o others (added & IH1 & IH2)].
  { exists (fun _ => []). split; [|by intros ch x ?%elem_of_nil].
    intros r ch. simpl. by rewrite app_nil_r. }
  destruct o as [c x].
  destruct (decide (c ∈ on_validChannels)) as [Hc|Hc].
  - exists (fun ch => (if decide (ch = c) then [x] else []) ++ added ch). split.
    + intros r ch. simpl. rewrite IH1, on_snd, bool_decide_eq_true_2 by done.
      by rewrite listeners_ipcRenderer_on, app_assoc.
    + intros ch y [Hy|Hy]%elem_of_app.
      * case_decide; [|by apply elem_of_nil in Hy].
        apply list_elem_of_singleton in Hy. subst. apply list_elem_of_here.
      * by apply list_elem_of_further, IH2.
  - exists added. split.
    + intros r ch. simpl. by rewrite IH1, on_snd, bool_decide_eq_false_2.
    + intros ch y Hy. by apply list_elem_of_further, IH2.
Qed.

(** X8. [electronAPI.on] for a channel other than [progress-update] and
    [error-occurred] throws [Invalid channel: <name>] and registers nothing.
    For one of the two it adds the callback after the listeners of the
    channel, leaves the other channels alone and returns a cleanup function;
    calling that function takes the registration back, also after further
    subscriptions of other callbacks: the listeners of every channel are then
    as if the callback had never been subscribed. *)
Theorem on_and_its_cleanup channel cb r (others : list (string * nat)) :
  (channel ∉ on_validChannels →
     on channel cb r = (Throw (Error ("Invalid channel: " +:+ channel)), r)) ∧
  (channel ∈ on_validChannels →
     ∃ c, (on channel cb r).1 = Normal c ∧
       listeners (on channel cb r).2 channel = listeners r channel ++ [cb] ∧
       (∀ ch, ch ≠ channel → listeners (on channel cb r).2 ch = listeners r ch) ∧
       ((channel, cb) ∉ others →
        let subscribe r := foldl (fun r o => (on o.1 o.2 r).2) r others in
        ∀ ch, listeners (run_cleanup c (subscribe (on channel cb r).2)) ch
              = listeners (subscribe r) ch)).
Proof.
  split; intros Hch; unfold on at 1.
  { by rewrite bool_decide_eq_false_2. }
  unfold on. rewrite bool_decide_eq_true_2 by done. cbn [fst snd].
  exists (Cleanup channel cb). split; [done|]. split_and!.
  - rewrite listeners_ipcRenderer_on. by rewrite decide_True.
  - intros ch Hne. rewrite listeners_ipcRenderer_on, decide_False by done.
    by rewrite app_nil_r.
  - intros Hothers ch.
    destruct (listeners_foldl_on others) as (added & Hadd & Hin).
    unfold run_cleanup. rewrite listeners_removeListener, !Hadd.
    rewrite listeners_ipcRenderer_on. case_decide as E; [|by rewrite app_nil_r].
    subst ch. rewrite <-app_assoc. simpl. apply remove_last_app.
    intros Hx. by apply Hothers, Hin.
Qed.

(** X9. Each call of a cleanup function removes one registration of its
    callback from its channel, the most recently added one, and nothing
    else: the other listeners keep their order, and a second call removes a
    second registration of the same callback if there is one. *)
Theorem cleanup_removes_one channel cb r :
  let r' := run_cleanup (Cleanup channel cb) r in
  length (filter (fun x => x = cb) (listeners r' channel))
  = pred (length (filter (fun x => x = cb) (listeners r channel))) ∧
  filter (fun x => x ≠ cb) (listeners r' channel)
  = filter (fun x => x ≠ cb) (listeners r channel) ∧
  (∀ l1 l2, listeners r channel = l1 ++ cb :: l2 → cb ∉ l2 →
            listeners r' channel = l1 ++ l2) ∧
  (cb ∉ listeners r channel → listeners r' channel = listeners r channel) ∧
  (∀ ch, ch ≠ channel → listeners r' ch = listeners r ch).
Proof.
  intros r'. subst r'. unfold run_cleanup.
  assert (∀ l : list nat,
            (cb ∉ l → reverse (remove_first cb (reverse l)) = l) ∧
            (cb ∈ l → ∃ l1 l2, l = l1 ++ cb :: l2 ∧ cb ∉ l2)) as Hsplit.
  { intros l. split.
    - intros Hl. rewrite <-(reverse_involutive l) at 2. f_equal.
      assert (cb ∉ reverse l) as Hr by (by rewrite elem_of_reverse).
      induction (reverse l) as [|x l' IH]; simpl; [done|].
      apply not_elem_of_cons in Hr as [Hx Hl']. rewrite decide_False by done.
      by rewrite IH.
    - induction l as [|x l IH]; [by intros ?%elem_of_nil|].
      destruct (decide (cb ∈ l)) as [Hl|Hl].
      + intros _. destruct (IH Hl) as (l1 & l2 & -> & H2).
        by exists (x :: l1), l2.
      + intros [->|?]%elem_of_cons; [|done]. by exists [], l. }
  rewrite listeners_removeListener, decide_True by done.
  split_and!.
  - destruct (decide (cb ∈ listeners r channel)) as [Hin|Hin].
    + destruct (proj2 (Hsplit _) Hin) as (l1 & l2 & -> & H2).
      rewrite remove_last_app by done.
      rewrite !filter_app, filter_cons_True, !length_app by done. simpl. lia.
    + rewrite (proj1 (Hsplit _) Hin).
      assert (filter (fun x => x = cb) (listeners r channel) = []) as ->; [|done].
      induction (listeners r channel) as [|x l IH]; [done|].
      apply not_elem_of_cons in Hin as [Hx Hl].
      rewrite filter_cons_False by (by intros ->). by apply IH.
  - destruct (decide (cb ∈ listeners r channel)) as [Hin|Hin].
    + destruct (proj2 (Hsplit _) Hin) as (l1 & l2 & -> & H2).
      rewrite remove_last_app by done.
      rewrite !filter_app, filter_cons_False; [done|]. by intros [].
    + by rewrite (proj1 (Hsplit _) Hin).
  - intros l1 l2 -> Hl2. by apply remove_last_app.
  - intros Hin. by apply Hsplit.
  - intros ch Hne. by rewrite listeners_removeListener, decide_False.
Qed.

(** ** The environment does not change *)

Lemma world_sendToPython action data w st :
  world (sendToPython action data w st).2 = world st.
Proof.
  rewrite sendToPython_unfold. cbn [snd]. destruct (pythonProcess st); [|done].
  by destruct (quiet_send_body (next_prom st) action data w
                 (set_next_prom (S (next_prom st)) st)) as (_&_&_&_&_&_&->).
Qed.

Lemma world_finish h (m : js jsval) st :
  logs_only m → world (finish h (m st)) = world st.
Proof. intros Hm. by destruct (quiet_finish h m st Hm) as (_&_&_&_&_&_&->). Qed.

Lemma world_ipc_invoke channel data st :
  world (ipc_invoke channel data st).2 = world st.
Proof.
  unfold ipc_invoke.
  change (world st) with (world (emit [IpcInvoke channel data] st)).
  generalize (emit [IpcInvoke channel data] st). clear st. intros st.
  destruct (String.eqb channel "health-check").
  { unfold handle_health_check, new_promise. cbn [snd].
    by rewrite world_sendToPython. }
  destruct (String.eqb channel "ping").
  { unfold handle_ping, new_promise. cbn [snd]. by rewrite world_settle. }
  destruct (String.eqb channel "ping-python").
  { unfold handle_ping_python, new_promise. cbn [snd].
    by rewrite world_sendToPython. }
  destruct (String.eqb channel "open-file-dialog").
  { unfold handle_open_file_dialog, new_promise. simpl.
    destruct (mainWindow st); simpl; [done|]. by rewrite world_settle. }
  destruct (String.eqb channel "preview-file").
  { unfold handle_preview_file, new_promise. cbn [snd].
    by rewrite world_finish by apply logs_only_preview_file. }
  destruct (String.eqb channel "import-data").
  { unfold handle_import_data, new_promise.
    destruct (logs_only_import_data_checks data (set_next_prom (S (next_prom st)) st))
      as [es E].
    destruct (import_data_checks data _) as [[[filePath symbol]|e] st1];
      simpl in E; subst; cbn [snd].
    - by rewrite world_sendToPython.
    - by rewrite world_finish by apply logs_only_import_data_catch. }
  unfold new_promise. cbn [snd]. by rewrite world_settle.
Qed.

Lemma world_tick st : world (tick st) = world st.
Proof.
  unfold tick.
  by destruct (quiet_fold_fire (filter (is_due (S (now st))) (timers st))
                 (set_timers (filter (fun x => ¬ is_due (S (now st)) x) (timers st))
                    (set_now (S (now st)) st))) as (_&_&_&_&_&_&->).
Qed.

Lemma world_step st e : world (step st e) = world st.
Proof.
  destruct e as [|p chunk|p chunk|p code|channel data| | |h' canceled filePaths|].
  - apply world_tick.
  - simpl. case_bool_decide; [|done]. by rewrite on_stdout_spec.
  - simpl. by case_bool_decide.
  - simpl. by case_bool_decide.
  - rewrite step_api_invoke. case_bool_decide; [|done]. apply world_ipc_invoke.
  - rewrite step_api_ping. apply world_ipc_invoke.
  - rewrite step_api_pingPython. apply world_ipc_invoke.
  - destruct (decide (h' ∈ dialogs st)) as [Hh|Hh];
      [|by simpl; rewrite bool_decide_eq_false_2].
    destruct (step_dialog_closed st h' canceled filePaths Hh) as (v & es & ->).
    by rewrite world_settle.
  - done.
Qed.

Lemma world_run st es : world (run st es) = world st.
Proof.
  revert st. induction es as [|e es IH]; intros st; [done|].
  change (run st (e :: es)) with (run (step st e) es).
  by rewrite IH, world_step.
Qed.

(** ** What a timer settles *)

Lemma settled_fold_other c (l : list (nat * timer)) st :
  (∀ y, y ∈ l → c ∉ refs y.2) →
  settled (foldl (fun st x => fire x.2 st) st l) !! c = settled st !! c.
Proof.
  revert st. induction l as [|x l IH]; intros st Hl; simpl; [done|].
  rewrite IH by (intros y Hy; by apply Hl, list_elem_of_further).
  apply settled_fire_other, Hl, list_elem_of_here.
Qed.

(** The timer [t] settles [c], or leaves it unsettled, by what it finds
    behind the process handle, on the disk and on the clock. *)
Lemma timer_verdict_fold c t due (g : option nat → env → nat → option outcome)
    (l : list (nat * timer)) st :
  (∀ x, settled x !! c = None →
        settled (fire t x) !! c = g (pythonProcess x) (world x) (now x)) →
  c ∈ refs t → settled st !! c = None → (due, t) ∈ l →
  (∀ y, y ∈ l → c ∈ refs y.2 → y = (due, t)) →
  settled (foldl (fun st x => fire x.2 st) st l) !! c
  = g (pythonProcess st) (world st) (now st).
Proof.
  intros Hfire Hct. revert st. induction l as [|x l IH]; intros st Hs Hin Huniq.
  { by apply elem_of_nil in Hin. }
  assert (∀ y, y ∈ l → c ∈ refs y.2 → y = (due, t)) as Huniq'
    by (intros y Hy; by apply Huniq, list_elem_of_further).
  destruct (quiet_fire x.2 st) as (Eh & _ & _ & _ & En & _ & Ew).
  simpl. destruct (decide (c ∈ refs x.2)) as [Hr|Hr].
  - rewrite (Huniq x (list_elem_of_here _ _) Hr) in *. simpl in *.
    specialize (Hfire st Hs).
    destruct (g (pythonProcess st) (world st) (now st)) as [o|] eqn:Eg.
    { by apply settled_fold_mono. }
    destruct (decide (Exists (fun y => c ∈ refs y.2) l)) as [Hex|Hex].
    + apply Exists_exists in Hex as (y & Hy & Hry).
      rewrite (Huniq' y Hy Hry) in Hy.
      rewrite IH by done. by rewrite Eh, Ew, En.
    + rewrite settled_fold_other; [done|].
      intros y Hy Hry. apply Hex, Exists_exists. eauto.
  - rewrite <-Eh, <-Ew, <-En. apply IH; [| |done].
    + by rewrite settled_fire_other.
    + apply elem_of_cons in Hin as [Hx|Hl]; [|done]. by subst x.
Qed.

Lemma timer_verdict c t due (g : option nat → env → nat → option outcome) st :
  (∀ x, settled x !! c = None →
        settled (fire t x) !! c = g (pythonProcess x) (world x) (now x)) →
  c ∈ refs t → S (now st) = due → timer_pending c t due st →
  settled (tick st) !! c = g (pythonProcess st) (world st) due.
Proof.
  intros Hfire Hct Hdue (Hs & Hnow & Hn & Hd & Hin & Huniq). unfold tick.
  rewrite (timer_verdict_fold c t due g); [by rewrite <-Hdue|done..| |].
  - apply list_elem_of_filter. split; [|done]. unfold is_due. simpl. lia.
  - intros y [_ Hy]%list_elem_of_filter. by apply Huniq.
Qed.

(** A timer whose verdict does not depend on the process handle: once its
    time has come the promise is settled with it, whatever else happened. *)
Lemma timer_verdict_run c t due (v : env → nat → outcome) st es :
  (∀ x, settled x !! c = None →
        settled (fire t x) !! c = Some (v (world x) (now x))) →
  c ∈ refs t → timer_pending c t due st → due ≤ now st + elapsed es →
  settled (run st es) !! c = Some (v (world st) due).
Proof.
  intros Hfire Hct Hp Hes.
  assert (now st < due) as Hnow by apply Hp.
  destruct (split_at_tick (due - now st - 1) es) as (es1 & es2 & -> & Hel); [lia|].
  rewrite run_app.
  change (run (run st es1) (Tick :: es2)) with (run (tick (run st es1)) es2).
  apply keeps_settled_run.
  rewrite (timer_verdict c t due (fun _ w n => Some (v w n))); [|done..| |].
  - by rewrite world_run.
  - rewrite now_run. lia.
  - apply timer_pending_run; [lia|done].
Qed.

Lemma settled_send_body_live c action data w x :
  is_Some (pythonProcess x) → settled (send_body c action data w x) = settled x.
Proof. intros [p Hp]. unfold send_body. by rewrite Hp. Qed.

(** The timer of a [start] called by [sendToPython] finds the child alive:
    the promise of [start] resolves and the request is sent. *)
Lemma fire_start_live s c action data w x :
  is_Some (pythonProcess x) →
  fire (StartTimer s (BySend c action data w)) x
  = send_body c action data w
      (settle s (Resolved (JBool true))
         (emit [ConsoleLog "Python backend process started" []] x)).
Proof. intros [p Hp]. unfold fire. by rewrite Hp. Qed.

Lemma handover_fold q s c action data w due (l : list (nat * timer)) x :
  q ≠ s → q ∈ c :: waiter_refs w →
  is_Some (pythonProcess x) → settled x !! q = None →
  (∀ y, y ∈ l → q ∈ refs y.2 → y = (due, StartTimer s (BySend c action data w))) →
  (∀ y, y ∈ timers x → q ∈ refs y.2 → y = (now x + 100, MockTimer c action w)) →
  let x' := foldl (fun st x => fire x.2 st) x l in
  settled x' !! q = None ∧
  (∀ y, y ∈ timers x' → q ∈ refs y.2 → y = (now x + 100, MockTimer c action w)) ∧
  ((due, StartTimer s (BySend c action data w)) ∈ l ∨
   (now x + 100, MockTimer c action w) ∈ timers x →
   (now x + 100, MockTimer c action w) ∈ timers x').
Proof.
  intros Hqs Hq. revert x. induction l as [|y0 l IH]; intros x Hlive Hs Hl Hx.
  { simpl. split_and!; [done..|]. intros [?%elem_of_nil|?]; done. }
  assert (∀ y, y ∈ l → q ∈ refs y.2 → y = (due, StartTimer s (BySend c action data w)))
    as Hl' by (intros y Hy; by apply Hl, list_elem_of_further).
  destruct (quiet_fire y0.2 x) as (Eh & _ & _ & _ & En & _ & _).
  cbn [foldl]. cbn zeta.
  destruct (decide (q ∈ refs y0.2)) as [Hr|Hr].
  - pose proof (Hl y0 (list_elem_of_here _ _) Hr) as E. subst y0. cbn [snd] in *.
    assert (timers (fire (StartTimer s (BySend c action data w)) x)
            = timers x ++ [(now x + 100, MockTimer c action w)]) as Et.
    { rewrite timers_fire. unfold spawned_timers. by destruct Hlive as [p ->]. }
    destruct (IH (fire (StartTimer s (BySend c action data w)) x)) as (I1 & I2 & I3).
    + by rewrite Eh.
    + rewrite fire_start_live by done.
      rewrite settled_send_body_live by (by rewrite pythonProcess_settle).
      by rewrite settled_settle_ne.
    + done.
    + rewrite Et, En. intros y [Hy| ->%list_elem_of_singleton]%elem_of_app Hry;
        [by apply Hx|done].
    + rewrite En in *. split_and!; [done..|]. intros _. apply I3. right.
      rewrite Et. apply elem_of_app. right. by apply list_elem_of_singleton.
  - destruct (IH (fire y0.2 x)) as (I1 & I2 & I3).
    + by rewrite Eh.
    + by rewrite settled_fire_other.
    + done.
    + rewrite timers_fire, En. intros y [Hy|Hy]%elem_of_app Hry; [by apply Hx|].
      destruct Hr. by eapply refs_spawned_timers.
    + rewrite En in *. split_and!; [done..|]. intros [Hin|Hin]; apply I3.
      * left. apply elem_of_cons in Hin as [E|?]; [|done]. subst y0.
        destruct Hr. simpl. by apply list_elem_of_further.
      * right. rewrite timers_fire. apply elem_of_app. by left.
Qed.

(** When the timer of such a [start] is due and the child is alive, the
    timer of the call takes over the promises the start timer held. *)
Lemma timer_pending_handover q s c action data w due st :
  q ≠ s → q ∈ c :: waiter_refs w → is_Some (pythonProcess st) →
  S (now st) = due →
  timer_pending q (StartTimer s (BySend c action data w)) due st →
  timer_pending q (MockTimer c action w) (due + 100) (tick st).
Proof.
  intros Hqs Hq Hlive Hdue (Hs & Hnow & Hn & Hd & Hin & Huniq).
  pose proof (now_tick st) as En.
  unfold tick in *.
  set (x0 := set_timers (filter (fun x => ¬ is_due (S (now st)) x) (timers st))
               (set_now (S (now st)) st)) in *.
  set (l := filter (is_due (S (now st))) (timers st)) in *.
  destruct (quiet_fold_fire l x0) as (_ & _ & _ & Ep & _ & Ed & _).
  destruct (handover_fold q s c action data w due l x0) as (I1 & I2 & I3);
    [done..| | |].
  - intros y [_ Hy]%list_elem_of_filter. by apply Huniq.
  - simpl. intros y [Hnd Hy]%list_elem_of_filter Hr.
    apply Huniq in Hr; [|done]. subst y. destruct Hnd. unfold is_due. simpl. lia.
  - subst due. change (now x0) with (S (now st)) in I2, I3.
    split_and!; [done|lia|by rewrite Ep|by rewrite Ed| |done].
    apply I3. left. apply list_elem_of_filter. split; [|done].
    unfold is_due. simpl. lia.
Qed.

(** ** What the handlers reply *)

Lemma resume_health_resolved h v x :
  settled x !! h = None →
  settled (resume (WHealth h) (Resolved v) x) !! h
  = Some (Resolved (health_report (world x) (now x) v)).
Proof.
  intros Hs. unfold resume, try_catch, health_check_body, health_report.
  unfold mbind, js_bind, await, mret, js_ret, databasePath, timestamp_now,
    getVersion, inspect, existsSync, statSync_size.
  cbn [world emit set_journal].
  destruct (disk (world x) !! getDatabasePath (world x)) as [node|] eqn:E.
  - rewrite bool_decide_eq_true_2 by eauto. cbn [world emit set_journal].
    rewrite E. unfold finish. by apply settle_unsettled.
  - rewrite bool_decide_eq_false_2 by (by intros [? ?]).
    unfold finish. by apply settle_unsettled.
Qed.

Lemma resume_health_rejected h e x :
  settled x !! h = None →
  settled (resume (WHealth h) (Rejected e) x) !! h
  = Some (Resolved (health_failure (world x) (now x) e)).
Proof.
  intros Hs. unfold resume, try_catch, health_check_body, health_failure.
  unfold mbind, js_bind, await, throw, health_check_catch, timestamp_now,
    getVersion, inspect, mret, js_ret, finish.
  by apply settle_unsettled.
Qed.

Lemma resume_ping_resolved h v x :
  settled x !! h = None →
  settled (resume (WPing h) (Resolved v) x) !! h = Some (Resolved v).
Proof. intros Hs. unfold resume. by apply settle_unsettled. Qed.

Lemma resume_ping_rejected h e x :
  settled x !! h = None →
  settled (resume (WPing h) (Rejected e) x) !! h = Some (Resolved (error_object e)).
Proof. intros Hs. unfold resume. by apply settle_unsettled. Qed.

Lemma resume_import_mock h symbol action x :
  settled x !! h = None →
  settled (resume (WImport h symbol) (Resolved (mock_response action)) x) !! h
  = Some (Resolved (obj [("success", JBool true); ("rowsImported", JNum 0);
                         ("symbol", symbol)])).
Proof.
  intros Hs. unfold resume, try_catch, import_data_body.
  unfold mbind, js_bind, await, mret, js_ret, lift, member, perform.
  cbn. unfold finish. by apply settle_unsettled.
Qed.

Lemma resume_import_rejected h symbol e x :
  settled x !! h = None →
  settled (resume (WImport h symbol) (Rejected e) x) !! h
  = Some (Resolved (error_object e)).
Proof.
  intros Hs. unfold resume, try_catch, import_data_body, import_data_catch.
  unfold mbind, js_bind, await, throw, mret, js_ret, perform, finish.
  by apply settle_unsettled.
Qed.

(** ** A call and the timer that holds it *)

Lemma unheld_fresh q st : wf st → next_prom st ≤ q → unheld q st.
Proof.
  intros Hwf Hq. split_and!.
  - by apply fresh_unsettled.
  - intros Hd. destruct Hwf as (_ & _ & H3). apply H3 in Hd. lia.
  - intros y Hy Hr. destruct Hwf as (_ & H2 & _). apply (H2 y) in Hr; [lia|done].
Qed.

Lemma timer_pending_send_ref q action data w st :
  is_Some (pythonProcess st) → q ≤ next_prom st → unheld q st →
  timer_pending q (MockTimer (next_prom st) action w) (now st + 100)
    (sendToPython action data w st).2.
Proof.
  intros [p Hp] Hq (Hs & Hd & Hfree). rewrite sendToPython_unfold. cbn [snd].
  rewrite Hp. unfold send_body. cbn [pythonProcess set_next_prom]. rewrite Hp.
  split_and!; simpl; [done|lia|lia|done| |].
  - apply elem_of_app. right. by apply list_elem_of_singleton.
  - intros y [Hy| ->%list_elem_of_singleton]%elem_of_app Hr; [|done].
    by destruct (Hfree y Hy).
Qed.

Lemma timer_pending_restart_ref q action data w st :
  pythonProcess st = None → q ≤ next_prom st → unheld q st →
  timer_pending q
    (StartTimer (S (next_prom st)) (BySend (next_prom st) action data w))
    (now st + 1000) (sendToPython action data w st).2.
Proof.
  intros Hp Hq (Hs & Hd & Hfree). rewrite sendToPython_unfold. cbn [snd].
  rewrite Hp. unfold start, new_promise. simpl.
  split_and!; simpl; [done|lia|lia|done| |].
  - apply elem_of_app. right. by apply list_elem_of_singleton.
  - intros y [Hy| ->%list_elem_of_singleton]%elem_of_app Hr; [|done].
    by destruct (Hfree y Hy).
Qed.

(** The timer of a [start] called by [sendToPython]: the call is rejected
    when the handle is null, and stays pending when it is set. *)
Lemma fire_start_call s c action data w x :
  c ≠ s → settled x !! c = None →
  settled (fire (StartTimer s (BySend c action data w)) x) !! c
  = match pythonProcess x with
    | Some _ => None
    | None => Some (Rejected (Error "Failed to start Python process"))
    end.
Proof.
  intros Hcs Hs. destruct (pythonProcess x) as [p|] eqn:Hp.
  - rewrite fire_start_live by eauto.
    rewrite settled_send_body_live by (rewrite pythonProcess_settle; simpl; eauto).
    by rewrite settled_settle_ne.
  - unfold fire. rewrite Hp. apply settled_resume_mono, settle_unsettled.
    by rewrite settled_settle_ne.
Qed.

(** The same timer and the health check that awaits the call. *)
Lemma fire_start_health s c action data h x :
  h ≠ s → h ≠ c → settled x !! h = None →
  settled (fire (StartTimer s (BySend c action data (WHealth h))) x) !! h
  = match pythonProcess x with
    | Some _ => None
    | None =>
        Some (Resolved (health_failure (world x) (now x)
                          (Error "Failed to start Python process")))
    end.
Proof.
  intros Hhs Hhc Hs. destruct (pythonProcess x) as [p|] eqn:Hp.
  - rewrite fire_start_live by eauto.
    rewrite settled_send_body_live by (rewrite pythonProcess_settle; simpl; eauto).
    by rewrite settled_settle_ne.
  - unfold fire. rewrite Hp. rewrite resume_health_rejected.
    + by rewrite !world_settle, !now_settle.
    + by rewrite !settled_settle_ne.
Qed.

Lemma fire_mock_health c action h x :
  h ≠ c → settled x !! h = None →
  settled (fire (MockTimer c action (WHealth h)) x) !! h
  = Some (Resolved (health_report (world x) (now x) (mock_response action))).
Proof.
  intros Hhc Hs. unfold fire. rewrite resume_health_resolved.
  - by rewrite world_settle, now_settle.
  - by rewrite settled_settle_ne.
Qed.

Lemma fire_mock_import c action h symbol x :
  h ≠ c → settled x !! h = None →
  settled (fire (MockTimer c action (WImport h symbol)) x) !! h
  = Some (Resolved (obj [("success", JBool true); ("rowsImported", JNum 0);
                         ("symbol", symbol)])).
Proof.
  intros Hhc Hs. unfold fire. rewrite resume_import_mock; [done|].
  by rewrite settled_settle_ne.
Qed.

(** X10. [sendToPython] when no child is held: it spawns one child, takes it
    as the handle and waits one second, the call pending. If the handle is
    null when the second has passed - the child has closed - the call is
    rejected with [Failed to start Python process]; if it is set, the call
    stays pending and is resolved with the placeholder once 100 ms more have
    passed, whatever happens meanwhile. *)
Theorem send_restarts_the_worker action data w st es :
  wf st → pythonProcess st = None →
  (∀ h, h ∈ waiter_refs w → h < next_prom st) → elapsed es = 999 →
  let c := (sendToPython action data w st).1 in
  let st0 := (sendToPython action data w st).2 in
  let st1 := run st0 es in
  let script := join (world st) [cwd (world st); "backend"; "main.py"] in
  pythonProcess st0 = Some (next_pid st) ∧
  running st0 = {[next_pid st]} ∪ running st ∧
  journal st0 = journal st ++ [ConsoleLog "Starting Python backend:" [JStr script];
                                SpawnPython (next_pid st) script] ∧
  settled st1 !! c = None ∧
  (pythonProcess st1 = None →
     settled (tick st1) !! c
     = Some (Rejected (Error "Failed to start Python process"))) ∧
  (is_Some (pythonProcess st1) →
     settled (tick st1) !! c = None ∧
     ∀ es', 100 ≤ elapsed es' →
            settled (run (tick st1) es') !! c
            = Some (Resolved (mock_response action))).
Proof.
  intros Hwf Hp Hw Hel. rewrite sendToPython_unfold. cbn [fst snd]. rewrite Hp.
  set (c := next_prom st).
  set (t := StartTimer (S c) (BySend c action data w)).
  assert (timer_pending c t (now st + 1000) (sendToPython action data w st).2)
    as Hpend0.
  { apply timer_pending_restart_ref; [done..|]. by apply unheld_fresh. }
  rewrite sendToPython_unfold in Hpend0. cbn [snd] in Hpend0. rewrite Hp in Hpend0.
  match goal with |- context [run ?s es] => set (st0 := s) in * end.
  set (st1 := run st0 es).
  assert (now st0 = now st) as En0 by done.
  assert (timer_pending c t (now st + 1000) st1) as Hpend.
  { apply timer_pending_run; [lia|done]. }
  assert (S (now st1) = now st + 1000) as Hdue.
  { unfold st1. rewrite now_run. lia. }
  assert (c ∉ waiter_refs w) as Hcw by (intros ?%Hw; unfold c in *; lia).
  split_and!; [done..|apply Hpend| |].
  - intros Hnone.
    rewrite (timer_verdict c t (now st + 1000)
               (fun handle _ _ =>
                  match handle with
                  | Some _ => None
                  | None => Some (Rejected (Error "Failed to start Python process"))
                  end)); [by rewrite Hnone| |by apply list_elem_of_further, list_elem_of_here|done..].
    intros x Hx. apply fire_start_call; [lia|done].
  - intros Hlive.
    assert (timer_pending c (MockTimer c action w) (now st + 1000 + 100)
              (tick st1)) as Hmock.
    { apply (timer_pending_handover c (S c) _ _ data); [lia| |done..].
      apply list_elem_of_here. }
    split; [apply Hmock|]. intros es' Hes'.
    rewrite (timer_verdict_run c (MockTimer c action w) (now st + 1000 + 100)
               (fun _ _ => Resolved (mock_response action))); [done| | |done|].
    + intros x Hx. by apply fire_mock.
    + apply list_elem_of_here.
    + rewrite now_tick. lia.
Qed.

(** ** The health check *)

Lemma invoke_health_check data st :
  invoke "health-check" data st
  = (Normal (next_prom st),
     (sendToPython "health-check" JUndefined (WHealth (next_prom st))
        (set_next_prom (S (next_prom st))
           (emit [IpcInvoke "health-check" data] st))).2).
Proof.
  unfold invoke.
  replace (bool_decide ("health-check" ∈ validChannels)) with true
    by (by vm_compute).
  change (ipc_invoke "health-check" data st)
    with (handle_health_check (emit [IpcInvoke "health-check" data] st)).
  done.
Qed.

Lemma now_sendToPython action data w st :
  now (sendToPython action data w st).2 = now st.
Proof.
  rewrite sendToPython_unfold. cbn [snd]. destruct (pythonProcess st); [|done].
  by destruct (quiet_send_body (next_prom st) action data w
                 (set_next_prom (S (next_prom st)) st)) as (_&_&_&_&->&_).
Qed.

Lemma unheld_handler h es st :
  wf st → h = next_prom st → unheld h (set_next_prom (S h) (emit es st)).
Proof. intros Hwf ->. by apply (unheld_fresh (next_prom st) st). Qed.

(** X11. [health-check] while a child is held: whatever happens after the
    call, once 100 ms have passed it is resolved with the report
    [status: 'ok'] that carries the placeholder of [sendToPython] as
    [python_backend], the time of the reply, the version, and the state of
    the file at [getDatabasePath()]: [database] is ['connected'] and
    [database_info] has its size when the file exists, and ['created'] with
    size 0 when it does not, although nothing creates it. *)
Theorem health_check_report data st es :
  wf st → is_Some (pythonProcess st) → 100 ≤ elapsed es →
  let r := invoke "health-check" data st in
  ∃ h, r.1 = Normal h ∧
       settled (run r.2 es) !! h
       = Some (Resolved (health_report (world st) (now st + 100)
                           (mock_response "health-check"))).
Proof.
  intros Hwf Hlive Hes. rewrite invoke_health_check. cbn [fst snd].
  exists (next_prom st). split; [done|].
  set (h := next_prom st).
  set (x := set_next_prom (S h) (emit [IpcInvoke "health-check" data] st)).
  rewrite (timer_verdict_run h (MockTimer (S h) "health-check" (WHealth h))
             (now st + 100)
             (fun w n => Resolved (health_report w n (mock_response "health-check")))).
  - by rewrite world_sendToPython.
  - intros y Hy. apply fire_mock_health; [lia|done].
  - simpl. apply list_elem_of_further, list_elem_of_here.
  - apply (timer_pending_send_ref h "health-check" JUndefined (WHealth h) x);
      [done|simpl; lia|by apply unheld_handler].
  - rewrite now_sendToPython. simpl. lia.
Qed.

(** X12. [health-check] when no child is held: the worker is started and
    the call is pending for a second. If the handle is null then, the call
    resolves with [status: 'error'] and the error
    [Failed to start Python process]; if it is set, the call resolves 100 ms
    later with the report [status: 'ok']. *)
Theorem health_check_restarts_the_worker data st es :
  wf st → pythonProcess st = None → elapsed es = 999 →
  let r := invoke "health-check" data st in
  let st1 := run r.2 es in
  ∃ h, r.1 = Normal h ∧
       pythonProcess r.2 = Some (next_pid st) ∧
       settled st1 !! h = None ∧
       (pythonProcess st1 = None →
          settled (tick st1) !! h
          = Some (Resolved (health_failure (world st) (now st + 1000)
                              (Error "Failed to start Python process")))) ∧
       (is_Some (pythonProcess st1) →
          ∀ es', 100 ≤ elapsed es' →
                 settled (run (tick st1) es') !! h
                 = Some (Resolved (health_report (world st) (now st + 1100)
                                     (mock_response "health-check")))).
Proof.
  intros Hwf Hp Hel. rewrite invoke_health_check. cbn [fst snd].
  exists (next_prom st). split; [done|].
  set (h := next_prom st).
  set (x := set_next_prom (S h) (emit [IpcInvoke "health-check" data] st)).
  set (t := StartTimer (S (S h)) (BySend (S h) "health-check" JUndefined (WHealth h))).
  assert (timer_pending h t (now st + 1000)
            (sendToPython "health-check" JUndefined (WHealth h) x).2) as Hpend0.
  { apply (timer_pending_restart_ref h "health-check" JUndefined (WHealth h) x);
      [done|simpl; lia|by apply unheld_handler]. }
  set (st0 := (sendToPython "health-check" JUndefined (WHealth h) x).2) in *.
  set (st1 := run st0 es).
  assert (now st0 = now st) as En0 by (unfold st0; by rewrite now_sendToPython).
  assert (world st1 = world st) as Ew
    by (unfold st1, st0; by rewrite world_run, world_sendToPython).
  assert (timer_pending h t (now st + 1000) st1) as Hpend.
  { apply timer_pending_run; [lia|done]. }
  assert (S (now st1) = now st + 1000) as Hdue.
  { unfold st1. rewrite now_run. lia. }
  split_and!.
  - unfold st0. rewrite sendToPython_unfold. cbn [snd]. simpl. by rewrite Hp.
  - apply Hpend.
  - intros Hnone.
    rewrite (timer_verdict h t (now st + 1000)
               (fun handle w n =>
                  match handle with
                  | Some _ => None
                  | None =>
                      Some (Resolved (health_failure w n
                                        (Error "Failed to start Python process")))
                  end)); [by rewrite Hnone, Ew| | |done..].
    + intros y Hy. apply fire_start_health; [lia..|done].
    + simpl. do 2 apply list_elem_of_further. apply list_elem_of_here.
  - intros Hlive es' Hes'.
    assert (timer_pending h (MockTimer (S h) "health-check" (WHealth h))
              (now st + 1000 + 100) (tick st1)) as Hmock.
    { apply (timer_pending_handover h (S (S h)) _ _ JUndefined); [lia| |done..].
      simpl. apply list_elem_of_further, list_elem_of_here. }
    rewrite (timer_verdict_run h (MockTimer (S h) "health-check" (WHealth h))
               (now st + 1000 + 100)
               (fun w n => Resolved (health_report w n (mock_response "health-check")))).
    + rewrite world_tick, Ew. by replace (now st + 1000 + 100) with (now st + 1100) by lia.
    + intros y Hy. apply fire_mock_health; [lia|done].
    + simpl. apply list_elem_of_further, list_elem_of_here.
    + done.
    + rewrite now_tick. lia.
Qed.

(** ** An import *)

Lemma import_data_checks_ok (props : gmap string jsval) st :
  truthy (getprop (JObj props) "filePath") = true →
  (existsSync (getprop (JObj props) "filePath") st).1 = Normal true →
  import_data_checks (JObj props) st
  = (Normal (getprop (JObj props) "filePath", getprop (JObj props) "symbol"),
     emit [ExistsSync (getprop (JObj props) "filePath")] st).
Proof.
  intros Ht Hex. unfold import_data_checks, mbind, js_bind, lift, destructure.
  unfold unless_throw at 1. rewrite Ht. unfold mret, js_ret.
  rewrite existsSync_unfold, Hex. done.
Qed.

(** X13. [import-data] for a path at which something exists, while a child
    is held: the host does not read the file; it writes one request
    [{action: 'import-data', data: {file_path, symbol}, timestamp}] to the
    child, and whatever happens then - whatever the child answers - once
    100 ms have passed the call is resolved with
    [{success: true, rowsImported: 0, symbol}]. *)
Theorem import_reports_no_rows (props : gmap string jsval) st es :
  wf st →
  let filePath := getprop (JObj props) "filePath" in
  let symbol := getprop (JObj props) "symbol" in
  truthy filePath = true → (existsSync filePath st).1 = Normal true →
  100 ≤ elapsed es →
  let r := invoke "import-data" (JObj props) st in
  ∀ p, pythonProcess st = Some p →
  ∃ h request,
    r.1 = Normal h ∧
    request = obj [("action", JStr "import-data");
                   ("data", obj [("file_path", filePath); ("symbol", symbol)]);
                   ("timestamp", JStr (toISOString (world st) (now st)))] ∧
    journal r.2
    = journal st ++ [IpcInvoke "import-data" (JObj props); ExistsSync filePath;
                     StdinWrite p request; ConsoleLog "Sent to Python:" [request]] ∧
    settled (run r.2 es) !! h
    = Some (Resolved (obj [("success", JBool true); ("rowsImported", JNum 0);
                           ("symbol", symbol)])).
Proof.
  intros Hwf filePath symbol Ht Hex Hes r p Hp. subst r.
  rewrite invoke_import_data. unfold handle_import_data, new_promise.
  rewrite import_data_checks_ok by done. cbn [fst snd].
  fold filePath symbol.
  set (h := next_prom st).
  set (x := emit [ExistsSync filePath]
              (set_next_prom (S h) (emit [IpcInvoke "import-data" (JObj props)] st))).
  set (d := obj [("file_path", filePath); ("symbol", symbol)]).
  exists h. eexists. split; [done|]. split; [done|]. split.
  - rewrite sendToPython_unfold. cbn [snd]. unfold send_body. simpl. rewrite Hp.
    simpl. by rewrite <-!app_assoc.
  - rewrite (timer_verdict_run h (MockTimer (S h) "import-data" (WImport h symbol))
               (now st + 100)
               (fun _ _ => Resolved (obj [("success", JBool true);
                                          ("rowsImported", JNum 0);
                                          ("symbol", symbol)]))).
    + done.
    + intros y Hy. apply fire_mock_import; [lia|done].
    + simpl. apply list_elem_of_further, list_elem_of_here.
    + apply (timer_pending_send_ref h "import-data" d (WImport h symbol) x).
      * simpl. rewrite Hp. eauto.
      * simpl. lia.
      * by apply (unheld_fresh (next_prom st) st).
    + rewrite now_sendToPython. simpl. lia.
Qed.

(** ** The handle and the child *)

Lemma same_worker_handle_live st st' :
  same_worker st st' → handle_live st → handle_live st'.
Proof. intros (E1 & E2 & _) H p. rewrite E1, E2. apply H. Qed.

Lemma handle_live_start k st : handle_live (start k st).2.
Proof.
  intros p. unfold start, new_promise. simpl. intros [= <-].
  apply elem_of_union. left. by apply elem_of_singleton.
Qed.

Lemma handle_live_sendToPython action data w st :
  handle_live st → handle_live (sendToPython action data w st).2.
Proof.
  intros H. destruct (pythonProcess st) as [p|] eqn:E.
  - eapply same_worker_handle_live; [|done]. apply same_worker_send_live. by rewrite E.
  - rewrite sendToPython_unfold, E. cbn [snd]. apply handle_live_start.
Qed.

Lemma handle_live_ipc_invoke channel data st :
  handle_live st → handle_live (ipc_invoke channel data st).2.
Proof.
  intros H. unfold ipc_invoke.
  assert (handle_live (emit [IpcInvoke channel data] st)) as H' by done.
  revert H'. generalize (emit [IpcInvoke channel data] st). clear H st. intros st H.
  destruct (String.eqb channel "health-check").
  { unfold handle_health_check, new_promise. cbn [snd].
    by apply handle_live_sendToPython. }
  destruct (String.eqb channel "ping").
  { unfold handle_ping, new_promise. cbn [snd].
    eapply same_worker_handle_live; [|exact H].
    etrans; [|apply quiet_same_worker, quiet_settle]. done. }
  destruct (String.eqb channel "ping-python").
  { unfold handle_ping_python, new_promise. cbn [snd].
    by apply handle_live_sendToPython. }
  destruct (String.eqb channel "open-file-dialog").
  { unfold handle_open_file_dialog, new_promise. simpl.
    destruct (mainWindow st); simpl; [done|].
    eapply same_worker_handle_live; [|exact H].
    etrans; [|apply quiet_same_worker, quiet_settle]. done. }
  destruct (String.eqb channel "preview-file").
  { unfold handle_preview_file, new_promise. cbn [snd].
    eapply same_worker_handle_live; [|exact H].
    etrans; [|apply quiet_same_worker, quiet_finish, logs_only_preview_file]. done. }
  destruct (String.eqb channel "import-data").
  { unfold handle_import_data, new_promise.
    destruct (logs_only_import_data_checks data (set_next_prom (S (next_prom st)) st))
      as [es E].
    destruct (import_data_checks data _) as [[[filePath symbol]|e] st1];
      simpl in E; subst; cbn [snd].
    - by apply handle_live_sendToPython.
    - eapply same_worker_handle_live; [|exact H].
      etrans; [|apply quiet_same_worker, quiet_finish, logs_only_import_data_catch].
      done. }
  unfold new_promise. cbn [snd].
  eapply same_worker_handle_live; [|exact H].
  etrans; [|apply quiet_same_worker, quiet_settle]. done.
Qed.

Lemma handle_live_step st e : handle_live st → handle_live (step st e).
Proof.
  intros H. destruct e.
  - eapply same_worker_handle_live; [apply same_worker_tick|done].
  - simpl. case_bool_decide; [|done].
    destruct (logs_only_on_stdout chunk st) as [es ->]. done.
  - simpl. by case_bool_decide.
  - simpl. case_bool_decide as Hp; [|done]. by intros q.
  - rewrite step_api_invoke. case_bool_decide; [|done]. by apply handle_live_ipc_invoke.
  - rewrite step_api_ping. by apply handle_live_ipc_invoke.
  - rewrite step_api_pingPython. by apply handle_live_ipc_invoke.
  - simpl. case_bool_decide; [|done].
    eapply same_worker_handle_live; [|exact H].
    etrans; [|apply quiet_same_worker, quiet_finish, logs_only_dialog_result]. done.
  - done.
Qed.

Lemma handle_live_run es st : handle_live st → handle_live (run st es).
Proof.
  revert st. induction es as [|e es IH]; intros st H; simpl; [done|].
  by apply IH, handle_live_step.
Qed.

(** X14. Along every trace of events after the startup the handle follows
    the ['close'] events: [this.pythonProcess] holds a child exactly when
    that child is the only one spawned whose ['close'] has not fired, and it
    is null exactly when every child spawned so far has closed. Whether the
    operating system could start the child plays no part: the code does not
    look at it. *)
Theorem handle_tracks_the_child w es p :
  let st := run (booted w) es in
  (pythonProcess st = Some p ↔ running st = {[p]}) ∧
  (pythonProcess st = None ↔ running st = ∅).
Proof.
  intros st.
  assert (one_worker st) as H1 by apply one_worker_run, one_worker_booted.
  assert (handle_live st) as H2 by apply handle_live_run, handle_live_start.
  split; split.
  - intros Hp. apply leibniz_equiv. intros q. rewrite elem_of_singleton. split.
    + intros Hq%H1. congruence.
    + intros ->. by apply H2.
  - intros Hr. apply H1. rewrite Hr. by apply elem_of_singleton.
  - intros Hp. apply leibniz_equiv, elem_of_equiv_empty. intros q Hq%H1. congruence.
  - intros Hr. destruct (pythonProcess st) as [q|] eqn:E; [|done].
    apply H2 in E. rewrite Hr in E. by apply not_elem_of_empty in E.
Qed.

(** ** The startup *)

Lemma windows_created_emit es st :
  windows_created (emit es st)
  = windows_created st
    + length (omap (fun e => match e with CreateWindow => Some tt | _ => None end) es).
Proof. unfold windows_created, emit. simpl. by rewrite omap_app, length_app. Qed.

(** The timer of the first [start] fires: whatever it finds, the window is
    created. *)
Lemma fire_app_ready s x :
  settled x !! s = None →
  timers (fire (StartTimer s ByAppReady) x) = timers x ∧
  now (fire (StartTimer s ByAppReady) x) = now x ∧
  mainWindow (fire (StartTimer s ByAppReady) x) = true ∧
  is_Some (settled (fire (StartTimer s ByAppReady) x) !! s) ∧
  windows_created (fire (StartTimer s ByAppReady) x) = S (windows_created x).
Proof.
  intros Hs. split_and!.
  - rewrite timers_fire. unfold spawned_timers. by rewrite app_nil_r.
  - apply quiet_fire.
  - unfold fire. by destruct (pythonProcess x).
  - rewrite fire_start; [eauto| |done]. simpl. by intros ?%elem_of_nil.
  - unfold fire. destruct (pythonProcess x); unfold createWindow, windows_created;
      simpl; rewrite journal_settle; simpl; rewrite !omap_app, !length_app; simpl; lia.
Qed.

Lemma startup_step st e :
  worker_event 0 e → starting st ∨ started st →
  starting (step st e) ∨ started (step st e).
Proof.
  intros He Hph.
  assert (∀ st', timers st' = timers st → now st' = now st →
                 mainWindow st' = mainWindow st → settled st' = settled st →
                 windows_created st' = windows_created st →
                 starting st' ∨ started st') as Hsame.
  { intros st' E1 E2 E3 E4 E5. unfold starting, started in *.
    by rewrite E1, E2, E3, E4, E5. }
  destruct e as [|p chunk|p chunk|p code|channel data| | |h' canceled filePaths|];
    try done; simpl in He; subst.
  - change (step st Tick) with (tick st).
    destruct Hph as [(Ht & Hn & Hw & Hs & Hc)|(Ht & Hn & Hw & Hs & Hc)].
    + unfold tick. rewrite Ht. rewrite !filter_cons, !filter_nil.
      unfold is_due. cbn [fst].
      destruct (decide (1000 ≤ S (now st))) as [Hd|Hd].
      * rewrite decide_False by (intros Hx; by apply Hx). right.
        cbn [foldl snd].
        match goal with |- started (fire _ ?x0) =>
          destruct (fire_app_ready 0 x0) as (E1 & E2 & E3 & E4 & E5); [done|]
        end.
        unfold started. rewrite E1, E2, E3, E5. simpl.
        split_and!; [done|lia|done|done|].
        unfold windows_created in *. simpl. lia.
      * rewrite decide_True by done. left. cbn [foldl].
        unfold starting. simpl. split_and!; [done|lia|done..].
    + unfold tick. rewrite Ht. rewrite !filter_nil. right. cbn [foldl].
      unfold started. simpl. split_and!; [done|lia|done..].
  - simpl. case_bool_decide; [|done]. rewrite on_stdout_spec. cbn [snd].
    apply Hsame; [done..|]. rewrite windows_created_emit. unfold stdout_line.
    destruct (JSON_parse _ _); simpl; lia.
  - simpl. case_bool_decide; [|done]. apply Hsame; [done..|].
    unfold windows_created. simpl. rewrite omap_app, length_app. simpl. lia.
  - simpl. case_bool_decide; [|done]. apply Hsame; [done..|].
    unfold windows_created. simpl. rewrite omap_app, length_app. simpl. lia.
Qed.

Lemma startup_run st es :
  Forall (worker_event 0) es → starting st ∨ started st →
  starting (run st es) ∨ started (run st es).
Proof.
  revert st. induction es as [|e es IH]; intros st Hes Hp; [done|].
  apply Forall_cons in Hes as [He Hes].
  change (run st (e :: es)) with (run (step st e) es).
  by apply IH, startup_step.
Qed.

(** X15. From the launch on, with nothing but the first child's output and
    exit happening: for one second there is no window and the promise of
    the first [start] is pending; from then on the window exists,
    [createWindow] has run exactly once and the promise is settled. The
    window is created whether or not the child is still alive. *)
Theorem window_opens_after_startup w es :
  Forall (worker_event 0) es →
  let st := run (booted w) es in
  (elapsed es < 1000 →
     mainWindow st = false ∧ windows_created st = 0 ∧ settled st !! 0 = None) ∧
  (1000 ≤ elapsed es →
     mainWindow st = true ∧ windows_created st = 1 ∧ is_Some (settled st !! 0)).
Proof.
  intros Hes st.
  assert (now st = elapsed es) as En by (unfold st; by rewrite now_run).
  assert (starting st ∨ started st) as Hph.
  { apply startup_run; [done|]. left.
    unfold starting, windows_created, booted, start, new_promise. simpl.
    split_and!; [done|lia|done..]. }
  split; intros Hel.
  - destruct Hph as [(_ & _ & ? & ? & ?)|(_ & ? & _)]; [done|lia].
  - destruct Hph as [(_ & ? & _)|(_ & _ & ? & ? & ?)]; [lia|done].
Qed.

(** ** [stop] *)

Lemma timer_pending_stop c t due st :
  timer_pending c t due st → timer_pending c t due (stop st).
Proof. unfold stop. by destruct (pythonProcess st). Qed.

(** X16. [stop] kills the child and clears the handle, but it cancels
    nothing: a call of [sendToPython] that is in flight when [stop] is
    called is still resolved, once its 100 ms have passed, with the
    placeholder that says [python_alive: true]. *)
Theorem stop_cancels_no_call action data w st es p :
  wf st → pythonProcess st = Some p →
  (∀ h, h ∈ waiter_refs w → h < next_prom st) → 100 ≤ elapsed es →
  let c := (sendToPython action data w st).1 in
  let st1 := stop (sendToPython action data w st).2 in
  pythonProcess st1 = None ∧
  journal st1 = journal (sendToPython action data w st).2 ++ [KillPython p] ∧
  settled st1 !! c = None ∧
  settled (run st1 es) !! c = Some (Resolved (mock_response action)) ∧
  getprop (mock_response action) "python_alive" = JBool true.
Proof.
  intros Hwf Hp Hw Hes c st1.
  assert (c = next_prom st) as Ec by (unfold c; by rewrite sendToPython_unfold).
  assert (pythonProcess (sendToPython action data w st).2 = Some p) as Hp1.
  { destruct (same_worker_send_live action data w st) as (-> & _); [eauto|done]. }
  assert (timer_pending c (MockTimer c action w) (now st + 100) st1) as Hpend.
  { apply timer_pending_stop. rewrite Ec. apply timer_pending_send; eauto. }
  assert (now st1 = now st) as En.
  { unfold st1, stop. rewrite Hp1. simpl. apply now_sendToPython. }
  split_and!.
  - unfold st1, stop. by rewrite Hp1.
  - unfold st1, stop. by rewrite Hp1.
  - apply Hpend.
  - rewrite (timer_verdict_run c (MockTimer c action w) (now st + 100)
               (fun _ _ => Resolved (mock_response action))); [done| | |done|lia].
    + intros x Hx. apply fire_mock; [|done]. intros ?%Hw. lia.
    + apply list_elem_of_here.
  - unfold mock_response, obj, getprop. simpl. by simplify_map_eq.
Qed.

(** X17. [stop] does not wait for the child it kills. When a request
    restarts the worker after [stop] and the close event of the killed child
    arrives afterwards, the close listener clears the handle although the
    new child is running; the next request then spawns another child, and
    two children are running. *)
Theorem close_after_stop_drops_the_new_child action data w st p code :
  pythonProcess st = Some p → running st = {[p]} → p ≠ next_pid st →
  let q := next_pid st in
  let st1 := (sendToPython action data w (stop st)).2 in
  let st2 := step st1 (Close p code) in
  let st3 := (sendToPython action data w st2).2 in
  pythonProcess st1 = Some q ∧ running st1 = {[q; p]} ∧
  pythonProcess st2 = None ∧ running st2 = {[q]} ∧
  pythonProcess st3 = Some (S q) ∧ running st3 = {[S q; q]}.
Proof.
  intros Hp Hr Hne q st1 st2 st3.
  assert (pythonProcess st1 = Some q ∧ running st1 = {[q; p]} ∧ next_pid st1 = S q)
    as (H1 & H2 & H3).
  { unfold st1, stop. rewrite Hp, sendToPython_unfold. cbn [snd].
    cbn [pythonProcess set_pythonProcess set_next_prom].
    unfold start, new_promise. simpl. rewrite Hr. done. }
  assert (pythonProcess st2 = None ∧ running st2 = {[q]} ∧ next_pid st2 = S q)
    as (H4 & H5 & H6).
  { unfold st2. simpl.
    rewrite bool_decide_eq_true_2
      by (rewrite H2; apply elem_of_union; right; by apply elem_of_singleton).
    simpl. rewrite H2. split_and!; [done| |done].
    apply leibniz_equiv. intros x. rewrite elem_of_difference, elem_of_union,
      !elem_of_singleton. unfold q. split; [intros [[?|?] ?]; done|].
    intros ->. split; [by left|done]. }
  split_and!; [done..| |].
  - unfold st3. rewrite sendToPython_unfold, H4. cbn [snd]. unfold start, new_promise.
    simpl. by rewrite H6.
  - unfold st3. rewrite sendToPython_unfold, H4. cbn [snd]. unfold start, new_promise.
    simpl. by rewrite H6, H5.
Qed.

(** ** The preview and the worker *)

(** X18. [preview-file] never waits and never needs the worker: whatever
    its argument, the call is resolved when the handler returns, no timer
    is set, and the handle and the children are as before - a worker that
    has exited is not restarted. *)
Theorem preview_needs_no_worker data st :
  wf st →
  let r := invoke "preview-file" data st in
  ∃ h v, r.1 = Normal h ∧ settled r.2 !! h = Some (Resolved v) ∧
         pythonProcess r.2 = pythonProcess st ∧ running r.2 = running st ∧
         next_pid r.2 = next_pid st ∧ timers r.2 = timers st ∧
         now r.2 = now st.
Proof.
  intros Hwf r. subst r. rewrite invoke_preview_file. cbn [fst snd].
  set (x := set_next_prom (S (next_prom st)) (emit [IpcInvoke "preview-file" data] st)).
  destruct (returns_logging (try_catch (preview_file_body data) preview_file_catch) x)
    as (v & es & ->).
  { apply logs_only_preview_file. }
  { apply total_try_catch, total_preview_file_catch. }
  exists (next_prom st), v. cbn [finish].
  rewrite pythonProcess_settle, running_settle, next_pid_settle, timers_settle,
    now_settle.
  split_and!; [done| |done..].
  apply settle_unsettled. simpl. by apply fresh_unsettled.
Qed.

(** ** The ping through the worker *)

Lemma pingPython_unfold st :
  pingPython st
  = (Normal (next_prom st),
     (sendToPython "ping" JUndefined (WPing (next_prom st))
        (set_next_prom (S (next_prom st))
           (emit [IpcInvoke "ping-python" JUndefined] st))).2).
Proof. done. Qed.

Lemma fire_mock_ping c action h x :
  h ≠ c → settled x !! h = None →
  settled (fire (MockTimer c action (WPing h)) x) !! h
  = Some (Resolved (mock_response action)).
Proof.
  intros Hhc Hs. unfold fire. rewrite resume_ping_resolved; [done|].
  by rewrite settled_settle_ne.
Qed.

Lemma fire_start_ping s c action data h x :
  h ≠ s → h ≠ c → settled x !! h = None →
  settled (fire (StartTimer s (BySend c action data (WPing h))) x) !! h
  = match pythonProcess x with
    | Some _ => None
    | None =>
        Some (Resolved (error_object (Error "Failed to start Python process")))
    end.
Proof.
  intros Hhs Hhc Hs. destruct (pythonProcess x) as [p|] eqn:Hp.
  - rewrite fire_start_live by eauto.
    rewrite settled_send_body_live by (rewrite pythonProcess_settle; simpl; eauto).
    by rewrite settled_settle_ne.
  - unfold fire. rewrite Hp. rewrite resume_ping_rejected; [done|].
    by rewrite !settled_settle_ne.
Qed.

(** X19. [electronAPI.pingPython()]: while a child is held, the call is
    resolved with the placeholder of [sendToPython] once 100 ms have passed,
    whatever the child does. When no child is held the worker is started
    and the call is pending for a second; it then resolves with
    [{error: 'Failed to start Python process'}] if the handle is null, and
    with the placeholder 100 ms later if it is set. *)
Theorem ping_python_answer st es :
  wf st →
  let r := pingPython st in
  ∃ h, r.1 = Normal h ∧
    (is_Some (pythonProcess st) → 100 ≤ elapsed es →
       settled (run r.2 es) !! h = Some (Resolved (mock_response "ping"))) ∧
    (pythonProcess st = None → elapsed es = 999 →
       settled (run r.2 es) !! h = None ∧
       (pythonProcess (run r.2 es) = None →
          settled (tick (run r.2 es)) !! h
          = Some (Resolved (obj [("error", JStr "Failed to start Python process")]))) ∧
       (is_Some (pythonProcess (run r.2 es)) →
          ∀ es', 100 ≤ elapsed es' →
                 settled (run (tick (run r.2 es)) es') !! h
                 = Some (Resolved (mock_response "ping")))).
Proof.
  intros Hwf. rewrite pingPython_unfold. cbn [fst snd].
  exists (next_prom st). split; [done|].
  set (h := next_prom st).
  set (x := set_next_prom (S h) (emit [IpcInvoke "ping-python" JUndefined] st)).
  assert (unheld h x) as Hfree by (by apply unheld_handler).
  split.
  - intros Hlive Hes.
    rewrite (timer_verdict_run h (MockTimer (S h) "ping" (WPing h)) (now st + 100)
               (fun _ _ => Resolved (mock_response "ping"))); [done| | | |].
    + intros y Hy. apply fire_mock_ping; [lia|done].
    + simpl. apply list_elem_of_further, list_elem_of_here.
    + by apply (timer_pending_send_ref h "ping" JUndefined (WPing h) x);
        [|simpl; lia|].
    + rewrite now_sendToPython. simpl. lia.
  - intros Hp Hel.
    set (t := StartTimer (S (S h)) (BySend (S h) "ping" JUndefined (WPing h))).
    assert (timer_pending h t (now st + 1000)
              (sendToPython "ping" JUndefined (WPing h) x).2) as Hpend0.
    { by apply (timer_pending_restart_ref h "ping" JUndefined (WPing h) x);
        [|simpl; lia|]. }
    set (st0 := (sendToPython "ping" JUndefined (WPing h) x).2) in *.
    set (st1 := run st0 es).
    assert (now st0 = now st) as En0 by (unfold st0; by rewrite now_sendToPython).
    assert (timer_pending h t (now st + 1000) st1) as Hpend.
    { apply timer_pending_run; [lia|done]. }
    assert (S (now st1) = now st + 1000) as Hdue.
    { unfold st1. rewrite now_run. lia. }
    split_and!.
    + apply Hpend.
    + intros Hnone.
      rewrite (timer_verdict h t (now st + 1000)
                 (fun handle _ _ =>
                    match handle with
                    | Some _ => None
                    | None =>
                        Some (Resolved (error_object
                                          (Error "Failed to start Python process")))
                    end)); [by rewrite Hnone| | |done..].
      * intros y Hy. apply fire_start_ping; [lia..|done].
      * simpl. do 2 apply list_elem_of_further. apply list_elem_of_here.
    + intros Hlive es' Hes'.
      assert (timer_pending h (MockTimer (S h) "ping" (WPing h))
                (now st + 1000 + 100) (tick st1)) as Hmock.
      { apply (timer_pending_handover h (S (S h)) _ _ JUndefined); [lia| |done..].
        simpl. apply list_elem_of_further, list_elem_of_here. }
      rewrite (timer_verdict_run h (MockTimer (S h) "ping" (WPing h))
                 (now st + 1000 + 100)
                 (fun _ _ => Resolved (mock_response "ping"))); [done| | |done|].
      * intros y Hy. apply fire_mock_ping; [lia|done].
      * simpl. apply list_elem_of_further, list_elem_of_here.
      * rewrite now_tick. lia.
Qed.

(** ** Line ends *)

Lemma trimStart_all_space ws : all_space ws = true → trimStart ws = EmptyString.
Proof.
  induction ws as [|c ws IH]; simpl; [done|].
  intros [Hc Hs]%andb_true_iff. rewrite Hc. by apply IH.
Qed.

Lemma trimEnd_all_space ws : all_space ws = true → trimEnd ws = EmptyString.
Proof.
  induction ws as [|c ws IH]; simpl; [done|].
  intros [Hc Hs]%andb_true_iff. by rewrite IH, Hc.
Qed.

Lemma trimEnd_app_space s ws :
  all_space ws = true → trimEnd (s +:+ ws) = trimEnd s.
Proof.
  intros Hws. induction s as [|c s IH].
  - by apply trimEnd_all_space.
  - change (trimEnd (String c (s +:+ ws)) = trimEnd (String c s)).
    simpl. by rewrite IH.
Qed.

Lemma trim_app_space s ws : all_space ws = true → trim (s +:+ ws) = trim s.
Proof.
  intros Hws. unfold trim. induction s as [|c s IH].
  - change (EmptyString +:+ ws) with ws. by rewrite trimStart_all_space.
  - change (trimEnd (trimStart (String c (s +:+ ws)))
            = trimEnd (trimStart (String c s))).
    simpl. destruct (is_space c); [done|].
    change (String c (s +:+ ws)) with (String c s +:+ ws).
    by apply trimEnd_app_space.
Qed.

Lemma has_char_all_space c ws :
  is_space c = false → all_space ws = true → has_char c ws = false.
Proof.
  intros Hc. induction ws as [|c' ws IH]; simpl; [done|].
  intros [Hc' Hs]%andb_true_iff. rewrite IH by done.
  destruct (Ascii.eqb_spec c' c) as [->|_]; [congruence|done].
Qed.

Lemma split_app_space sep s ws :
  is_space sep = false → all_space ws = true →
  ∃ init last, split sep s = init ++ [last] ∧
               split sep (s +:+ ws) = init ++ [last +:+ ws].
Proof.
  intros Hsep Hws. induction s as [|c s (init & last & E1 & E2)].
  - exists [], EmptyString. split; [done|].
    change (EmptyString +:+ ws) with ws.
    by rewrite split_no_sep by (by apply has_char_all_space).
  - change (String c s +:+ ws) with (String c (s +:+ ws)). simpl.
    rewrite E1, E2. destruct (Ascii.eqb c sep).
    + by exists (EmptyString :: init), last.
    + destruct init as [|i init]; simpl.
      * by exists [], (String c last).
      * by exists (String c i :: init), last.
Qed.

(** X20. White space at the end of a line does not reach the cells: a line
    that ends in a carriage return, as the lines of a file with Windows line
    ends do, has the same cells as the line without it. *)
Theorem cells_ignore_trailing_space line ws :
  all_space ws = true → cells (line +:+ ws) = cells line.
Proof.
  intros Hws. unfold cells.
  destruct (split_app_space comma line ws) as (init & last & -> & ->); [done..|].
  rewrite !map_app. simpl. by rewrite trim_app_space.
Qed.

(** ** The renderer and the main process *)

Lemma settle_wait_now h o st es :
  settled st !! h = Some o → settle_wait h st es = Some (o, st, es).
Proof. intros E. destruct es; simpl; by rewrite E. Qed.

(** A promise that is settled after the events has settled during one of
    them, and the function that awaits it goes on from there. *)
Lemma settle_wait_settled h o st es :
  settled (run st es) !! h = Some o →
  ∃ es0 es', es = es0 ++ es' ∧ settle_wait h st es = Some (o, run st es0, es').
Proof.
  revert st. induction es as [|e es IH]; intros st Hs.
  { exists [], []. split; [done|]. by apply settle_wait_now. }
  destruct (settled st !! h) as [o0|] eqn:E.
  - pose proof (keeps_settled_run st (e :: es) h o0 E) as E'.
    rewrite Hs in E'. injection E' as <-.
    exists [], (e :: es). split; [done|]. by apply settle_wait_now.
  - destruct (IH (step st e) Hs) as (es0 & es' & -> & Hw).
    exists (e :: es0), es'. split; [done|]. simpl. by rewrite E.
Qed.

Lemma drive_returns t st es u st' : drive t st es = Some (u, st') → returns t u.
Proof.
  revert st es. induction t as [u0|channel data k IH]; intros st es; simpl.
  { intros [= <- _]. constructor. }
  destruct (invoke channel data st) as [[h|e] st1].
  - destruct (settle_wait h st1 es) as [[[[v|e] st2] es2]|]; [| |done];
      intros Hd; eapply returns_later, IH, Hd.
  - intros Hd. eapply returns_later, IH, Hd.
Qed.

(** X21. The two async functions of the [ImportData] component release
    their flag: whatever the main process replies - values, error objects,
    rejections - and whatever [invoke] throws, when [handleSelectFile] has
    returned [loading] is false, and when [handleImportData] has returned
    [importing] is false. *)
Theorem component_releases_its_flags st es u u' st' symbolInput :
  (drive (ImportData.handleSelectFile true u) st es = Some (u', st') →
   ImportData.loading u' = false) ∧
  (truthy (ImportData.filePath u) = true →
   drive (ImportData.handleImportData true symbolInput u) st es = Some (u', st') →
   ImportData.importing u' = false).
Proof.
  split.
  - intros Hd%drive_returns. unfold ImportData.handleSelectFile in Hd. simpl in Hd.
    inversion Hd as [|? ? ? r ? Hr]; subst; clear Hd.
    unfold ImportData.select_failed, ImportData.select_done in *.
    destruct r as [result|e]; [|by inversion Hr].
    destruct (member result "canceled") as [canceled|e]; [|by inversion Hr].
    destruct (truthy canceled); [by inversion Hr|].
    destruct (truthy (getprop result "error")); [by inversion Hr|].
    unfold ImportData.previewSelected in Hr.
    inversion Hr as [|? ? ? r ? Hr']; subst; clear Hr.
    destruct r as [previewResult|e]; [|by inversion Hr'].
    destruct (member previewResult "error") as [err|e]; [|by inversion Hr'].
    destruct (truthy err); by inversion Hr'.
  - intros Ht Hd%drive_returns. unfold ImportData.handleImportData in Hd.
    rewrite Ht in Hd. simpl in Hd.
    inversion Hd as [|? ? ? r ? Hr]; subst; clear Hd.
    unfold ImportData.import_failed in Hr.
    destruct r as [result|e]; [|by inversion Hr].
    destruct (member result "error") as [err|e]; [|by inversion Hr].
    destruct (truthy err); by inversion Hr.
Qed.

Lemma dialog_closed_result h st canceled filePaths :
  dialog_open h st →
  settled (step st (DialogClosed h canceled filePaths)) !! h
  = Some (Resolved
            match filePaths with
            | filePath :: _ =>
                if canceled then obj [("canceled", JBool true)]
                else obj [("canceled", JBool false); ("filePath", JStr filePath)]
            | [] => obj [("canceled", JBool true)]
            end).
Proof.
  intros (Hd & Hs & _). simpl. rewrite bool_decide_eq_true_2 by done.
  unfold dialog_result.
  destruct canceled, filePaths as [|filePath filePaths];
    unfold mret, js_ret, mbind, js_bind, perform, finish;
    by apply settle_unsettled.
Qed.

Lemma invoke_is_step channel data st :
  (invoke channel data st).2 = step st (ApiInvoke channel data).
Proof. done. Qed.

Lemma dialog_open_invoke data st :
  wf st → mainWindow st = true →
  (invoke "open-file-dialog" data st).1 = Normal (next_prom st) ∧
  dialog_open (next_prom st) (invoke "open-file-dialog" data st).2.
Proof.
  intros Hwf Hw. rewrite invoke_open_file_dialog. cbn [fst snd]. split; [done|].
  unfold handle_open_file_dialog, new_promise. cbn [emit set_journal mainWindow
    set_next_prom next_prom]. rewrite Hw. cbn [snd].
  split_and!; simpl.
  - apply elem_of_union. left. by apply elem_of_singleton.
  - by apply fresh_unsettled.
  - lia.
  - intros y Hy Hr. destruct Hwf as (_ & Ht & _).
    apply (Ht y (next_prom st)) in Hr; [lia|done].
Qed.

Lemma open_file_dialog_no_window data st :
  wf st → mainWindow st = false →
  (invoke "open-file-dialog" data st).1 = Normal (next_prom st) ∧
  settled (invoke "open-file-dialog" data st).2 !! next_prom st
  = Some (Resolved (obj [("canceled", JBool false);
                         ("error", JStr "Main window not available")])).
Proof.
  intros Hwf Hw. rewrite invoke_open_file_dialog. cbn [fst snd]. split; [done|].
  unfold handle_open_file_dialog, new_promise. cbn [emit set_journal mainWindow
    set_next_prom next_prom]. rewrite Hw. cbn [snd].
  apply settle_unsettled. simpl. by apply fresh_unsettled.
Qed.

(** The reply of [open-file-dialog] for a trace in which the user closes
    the dialog. *)
Lemma dialog_reply_run data st es1 es2 canceled filePaths :
  wf st → mainWindow st = true →
  Forall (fun e => ¬ closes_dialog (next_prom st) e) es1 →
  settled (run (invoke "open-file-dialog" data st).2
             (es1 ++ DialogClosed (next_prom st) canceled filePaths :: es2))
    !! next_prom st
  = Some (Resolved
            match filePaths with
            | filePath :: _ =>
                if canceled then obj [("canceled", JBool true)]
                else obj [("canceled", JBool false); ("filePath", JStr filePath)]
            | [] => obj [("canceled", JBool true)]
            end).
Proof.
  intros Hwf Hw Hes. destruct (dialog_open_invoke data st Hwf Hw) as [_ Hopen].
  rewrite run_app.
  change (run ?s (DialogClosed ?h ?c ?f :: es2))
    with (run (step s (DialogClosed h c f)) es2).
  apply keeps_settled_run, dialog_closed_result. by apply dialog_open_run.
Qed.

Lemma invoke_preview_file_regular st path text header rows :
  wf st → path ≠ EmptyString →
  disk (world st) !! path = Some (RegularFile text) →
  nonblank_lines text = header :: rows →
  (invoke "preview-file" (obj [("filePath", JStr path)]) st).1 = Normal (next_prom st) ∧
  settled (invoke "preview-file" (obj [("filePath", JStr path)]) st).2 !! next_prom st
  = Some (Resolved (obj [("preview",
                          JArr ((fun l => make_row (cells header) (cells l))
                                  <$> take 10 rows));
                         ("columns", JArr (JStr <$> cells header));
                         ("rows_total", JNum (Z.of_nat (length rows)))])).
Proof.
  intros Hwf Hpath Hdisk Hls. rewrite invoke_preview_file. cbn [fst snd].
  split; [done|]. unfold try_catch, obj at 1.
  edestruct (preview_file_body_regular (list_to_map [("filePath", JStr path)])
               path text header rows) as [es ->]; [by simplify_map_eq|done..|].
  cbn [finish]. apply settle_unsettled. simpl. by apply fresh_unsettled.
Qed.

Lemma invoke_preview_file_blank st path text :
  wf st → path ≠ EmptyString →
  disk (world st) !! path = Some (RegularFile text) → all_space text = true →
  (invoke "preview-file" (obj [("filePath", JStr path)]) st).1 = Normal (next_prom st) ∧
  settled (invoke "preview-file" (obj [("filePath", JStr path)]) st).2 !! next_prom st
  = Some (Resolved (obj [("error", JStr "File is empty")])).
Proof.
  intros Hwf Hpath Hdisk Hblank. rewrite invoke_preview_file. cbn [fst snd].
  split; [done|]. unfold try_catch, obj at 1.
  edestruct (preview_file_body_blank (list_to_map [("filePath", JStr path)])
               path text) as [es ->];
    [by simplify_map_eq|done|done|by apply nonblank_lines_all_space|].
  unfold preview_file_catch, mbind, js_bind, perform. simpl.
  apply settle_unsettled. simpl. by apply fresh_unsettled.
Qed.

Lemma drive_await channel data k st es h st1 o st2 es' :
  invoke channel data st = (Normal h, st1) →
  settle_wait h st1 es = Some (o, st2, es') →
  drive (ImportData.Await channel data k) st es
  = drive (k match o with Resolved v => Normal v | Rejected e => Throw e end) st2 es'.
Proof. intros Hi Hw. simpl. rewrite Hi, Hw. by destruct o. Qed.

Lemma member_obj (fields : list (string * jsval)) k :
  member (obj fields) k = Normal (getprop (obj fields) k).
Proof. done. Qed.

Lemma truthy_false_undefined : truthy JUndefined = false.
Proof. done. Qed.

(** The first part of [handleSelectFile]: the dialog is shown, the user
    chooses a path, and the function goes on to ask for the preview. *)
Lemma drive_select_chosen st u path others es1 es2 :
  wf st → mainWindow st = true →
  Forall (fun e => ¬ closes_dialog (next_prom st) e) es1 →
  ∃ st2 es',
    wf st2 ∧ world st2 = world st ∧
    drive (ImportData.handleSelectFile true u) st
      (es1 ++ DialogClosed (next_prom st) false (path :: others) :: es2)
    = drive (ImportData.previewSelected (JStr path)
               (ImportData.setFilePath (JStr path)
                  (ImportData.setError EmptyString (ImportData.setLoading true u))))
        st2 es'.
Proof.
  intros Hwf Hw Hes.
  pose proof (dialog_reply_run JUndefined st es1 es2 false (path :: others) Hwf Hw Hes)
    as Hreply.
  destruct (dialog_open_invoke JUndefined st Hwf Hw) as [Hh _].
  destruct (settle_wait_settled _ _ _ _ Hreply) as (es0 & es' & Ees & Hwait).
  exists (run (invoke "open-file-dialog" JUndefined st).2 es0), es'.
  split_and!.
  - apply wf_run. rewrite invoke_is_step. by apply wf_step.
  - by rewrite world_run, invoke_is_step, world_step.
  - unfold ImportData.handleSelectFile. cbn [negb].
    destruct (invoke "open-file-dialog" JUndefined st) as [[h|e] st1] eqn:Ei;
      simpl in Hh; [|done]. injection Hh as ->.
    cbn [snd] in Hwait. rewrite (drive_await _ _ _ _ _ _ _ _ _ _ Ei Hwait).
    rewrite member_obj.
    replace (getprop (obj [("canceled", JBool false); ("filePath", JStr path)])
               "canceled") with (JBool false) by (unfold obj, getprop; simpl; by simplify_map_eq).
    replace (getprop (obj [("canceled", JBool false); ("filePath", JStr path)])
               "error") with JUndefined by (unfold obj, getprop; simpl; by simplify_map_eq).
    replace (getprop (obj [("canceled", JBool false); ("filePath", JStr path)])
               "filePath") with (JStr path) by (unfold obj, getprop; simpl; by simplify_map_eq).
    done.
Qed.

(** X22. Selecting a file, end to end: the user clicks, the dialog is shown,
    other things may happen, the user chooses a path at which the disk has a
    regular file. When [handleSelectFile] has returned, the component shows
    that path, the header's cells as columns, the first ten rows as preview
    and the number of all rows, no error, and it is no longer loading. *)
Theorem select_file_shows_preview st u path others text header rows es1 es2 :
  wf st → mainWindow st = true → path ≠ EmptyString →
  disk (world st) !! path = Some (RegularFile text) →
  nonblank_lines text = header :: rows →
  Forall (fun e => ¬ closes_dialog (next_prom st) e) es1 →
  ∃ u' st',
    drive (ImportData.handleSelectFile true u) st
      (es1 ++ DialogClosed (next_prom st) false (path :: others) :: es2)
    = Some (u', st') ∧
    ImportData.filePath u' = JStr path ∧
    ImportData.preview u'
    = JArr ((fun l => make_row (cells header) (cells l)) <$> take 10 rows) ∧
    ImportData.columns u' = JArr (JStr <$> cells header) ∧
    ImportData.rowsTotal u' = JNum (Z.of_nat (length rows)) ∧
    ImportData.error u' = EmptyString ∧ ImportData.loading u' = false.
Proof.
  intros Hwf Hw Hpath Hdisk Hls Hes.
  destruct (drive_select_chosen st u path others es1 es2 Hwf Hw Hes)
    as (st2 & es' & Hwf2 & Ew & ->).
  rewrite <-Ew in Hdisk.
  destruct (invoke_preview_file_regular st2 path text header rows Hwf2 Hpath Hdisk Hls)
    as [Hh Hs].
  unfold ImportData.previewSelected.
  destruct (invoke "preview-file" (obj [("filePath", JStr path)]) st2)
    as [[h|e] st3] eqn:Ei; simpl in Hh; [|done]. injection Hh as ->.
  cbn [snd] in Hs.
  rewrite (drive_await _ _ _ _ _ _ _ _ _ _ Ei (settle_wait_now _ _ _ _ Hs)).
  rewrite member_obj.
  set (pv := obj [("preview", _); ("columns", _); ("rows_total", _)]).
  assert (getprop pv "error" = JUndefined) as ->
    by (unfold pv, obj, getprop; simpl; by simplify_map_eq).
  assert (getprop pv "preview"
          = JArr ((fun l => make_row (cells header) (cells l)) <$> take 10 rows)) as ->
    by (unfold pv, obj, getprop; simpl; by simplify_map_eq).
  assert (getprop pv "columns" = JArr (JStr <$> cells header)) as ->
    by (unfold pv, obj, getprop; simpl; by simplify_map_eq).
  assert (getprop pv "rows_total" = JNum (Z.of_nat (length rows))) as ->
    by (unfold pv, obj, getprop; simpl; by simplify_map_eq).
  rewrite truthy_false_undefined. unfold ImportData.select_done. cbn [drive].
  eexists _, _. split; [done|]. cbn.
  split_and!; [done..| |done|done].
  unfold js_or, truthy. by destruct (Z.of_nat (length rows) =? 0)%Z eqn:E;
    [apply Z.eqb_eq in E as ->|].
Qed.

(** X23. Selecting a file that cannot be previewed: when the chosen file
    holds nothing but white space, [handleSelectFile] returns with the error
    [File is empty] and with the chosen path as [filePath], while [preview],
    [columns] and [rowsTotal] are still those of the selection before: the
    component names the new file above the rows of the old one. *)
Theorem select_file_keeps_old_preview st u path others text es1 es2 :
  wf st → mainWindow st = true → path ≠ EmptyString →
  disk (world st) !! path = Some (RegularFile text) → all_space text = true →
  Forall (fun e => ¬ closes_dialog (next_prom st) e) es1 →
  ∃ u' st',
    drive (ImportData.handleSelectFile true u) st
      (es1 ++ DialogClosed (next_prom st) false (path :: others) :: es2)
    = Some (u', st') ∧
    ImportData.filePath u' = JStr path ∧
    ImportData.error u' = "File is empty" ∧
    ImportData.preview u' = ImportData.preview u ∧
    ImportData.columns u' = ImportData.columns u ∧
    ImportData.rowsTotal u' = ImportData.rowsTotal u ∧
    ImportData.loading u' = false.
Proof.
  intros Hwf Hw Hpath Hdisk Hblank Hes.
  destruct (drive_select_chosen st u path others es1 es2 Hwf Hw Hes)
    as (st2 & es' & Hwf2 & Ew & ->).
  rewrite <-Ew in Hdisk.
  destruct (invoke_preview_file_blank st2 path text Hwf2 Hpath Hdisk Hblank)
    as [Hh Hs].
  unfold ImportData.previewSelected.
  destruct (invoke "preview-file" (obj [("filePath", JStr path)]) st2)
    as [[h|e] st3] eqn:Ei; simpl in Hh; [|done]. injection Hh as ->.
  cbn [snd] in Hs.
  rewrite (drive_await _ _ _ _ _ _ _ _ _ _ Ei (settle_wait_now _ _ _ _ Hs)).
  rewrite member_obj.
  assert (getprop (obj [("error", JStr "File is empty")]) "error"
          = JStr "File is empty") as ->
    by (unfold obj, getprop; simpl; by simplify_map_eq).
  replace (truthy (JStr "File is empty")) with true by done.
  unfold ImportData.select_failed. cbn [drive].
  eexists _, _. split; [done|]. cbn. by split_and!.
Qed.

Lemma settle_wait_open h st es :
  dialog_open h st → Forall (fun e => ¬ closes_dialog h e) es →
  settle_wait h st es = None.
Proof.
  revert st. induction es as [|e es IH]; intros st Hopen Hes.
  - simpl. by destruct Hopen as (_ & -> & _).
  - apply Forall_cons in Hes as [He Hes]. simpl.
    destruct Hopen as (Hd & Hs & Hrest). rewrite Hs.
    apply IH; [|done]. by apply dialog_open_step.
Qed.

(** X24. [handleSelectFile] without a choice. While the dialog is open the
    function has not returned, so [loading] stays true. When the user cancels
    the dialog or closes it without a path, the function returns having
    changed nothing but the error message, which it has cleared. Without a
    main window it returns with the error [Main window not available]. *)
Theorem select_file_without_choice st u es1 es2 canceled filePaths :
  wf st →
  let waiting := ImportData.setError EmptyString (ImportData.setLoading true u) in
  (mainWindow st = true →
   Forall (fun e => ¬ closes_dialog (next_prom st) e) es1 →
   drive (ImportData.handleSelectFile true u) st es1 = None ∧
   (canceled = true ∨ filePaths = [] →
    ∃ st', drive (ImportData.handleSelectFile true u) st
             (es1 ++ DialogClosed (next_prom st) canceled filePaths :: es2)
           = Some (ImportData.setLoading false waiting, st'))) ∧
  (mainWindow st = false →
   ∃ st', drive (ImportData.handleSelectFile true u) st es1
          = Some (ImportData.setLoading false
                    (ImportData.log
                       [ConsoleError "File selection error:"
                          [JStr "Main window not available"]]
                       (ImportData.setError "Main window not available" waiting)),
                  st')).
Proof.
  intros Hwf waiting. split.
  - intros Hw Hes.
    destruct (dialog_open_invoke JUndefined st Hwf Hw) as [Hh Hopen].
    unfold ImportData.handleSelectFile. cbn [negb].
    destruct (invoke "open-file-dialog" JUndefined st) as [[h|e] st1] eqn:Ei;
      simpl in Hh; [|done]. injection Hh as ->. cbn [snd] in Hopen.
    split.
    + simpl. rewrite Ei. by rewrite settle_wait_open.
    + intros Hno.
      pose proof (dialog_reply_run JUndefined st es1 es2 canceled filePaths Hwf Hw Hes)
        as Hreply.
      rewrite Ei in Hreply. cbn [snd] in Hreply.
      destruct (settle_wait_settled _ _ _ _ Hreply) as (es0 & es' & Ees & Hwait).
      rewrite (drive_await _ _ _ _ _ _ _ _ _ _ Ei Hwait).
      assert (match filePaths with
              | filePath :: _ =>
                  if canceled then obj [("canceled", JBool true)]
                  else obj [("canceled", JBool false); ("filePath", JStr filePath)]
              | [] => obj [("canceled", JBool true)]
              end = obj [("canceled", JBool true)]) as ->.
      { destruct Hno as [-> | ->]; [by destruct filePaths|done]. }
      rewrite member_obj.
      assert (getprop (obj [("canceled", JBool true)]) "canceled" = JBool true) as ->
        by (unfold obj, getprop; simpl; by simplify_map_eq).
      replace (truthy (JBool true)) with true by done.
      unfold ImportData.select_done. cbn [drive]. by eexists.
  - intros Hw.
    destruct (open_file_dialog_no_window JUndefined st Hwf Hw) as [Hh Hs].
    unfold ImportData.handleSelectFile. cbn [negb].
    destruct (invoke "open-file-dialog" JUndefined st) as [[h|e] st1] eqn:Ei;
      simpl in Hh; [|done]. injection Hh as ->. cbn [snd] in Hs.
    rewrite (drive_await _ _ _ _ _ _ _ _ _ _ Ei (settle_wait_now _ _ _ _ Hs)).
    rewrite member_obj.
    set (r := obj [("canceled", JBool false); ("error", _)]).
    assert (getprop r "canceled" = JBool false) as ->
      by (unfold r, obj, getprop; simpl; by simplify_map_eq).
    assert (getprop r "error" = JStr "Main window not available") as ->
      by (unfold r, obj, getprop; simpl; by simplify_map_eq).
    replace (truthy (JBool false)) with false by done.
    replace (truthy (JStr "Main window not available")) with true by done.
    unfold ImportData.select_failed. cbn [drive]. by eexists.
Qed.

Lemma import_settles (props : gmap string jsval) st es :
  wf st → is_Some (pythonProcess st) →
  truthy (getprop (JObj props) "filePath") = true →
  (existsSync (getprop (JObj props) "filePath") st).1 = Normal true →
  100 ≤ elapsed es →
  (invoke "import-data" (JObj props) st).1 = Normal (next_prom st) ∧
  settled (run (invoke "import-data" (JObj props) st).2 es) !! next_prom st
  = Some (Resolved (obj [("success", JBool true); ("rowsImported", JNum 0);
                         ("symbol", getprop (JObj props) "symbol")])).
Proof.
  intros Hwf Hlive Ht Hex Hes.
  rewrite invoke_import_data. unfold handle_import_data, new_promise.
  rewrite import_data_checks_ok by done. cbn [fst snd]. split; [done|].
  set (filePath := getprop (JObj props) "filePath").
  set (symbol := getprop (JObj props) "symbol").
  set (h := next_prom st).
  set (x := emit [ExistsSync filePath]
              (set_next_prom (S h) (emit [IpcInvoke "import-data" (JObj props)] st))).
  set (d := obj [("file_path", filePath); ("symbol", symbol)]).
  rewrite (timer_verdict_run h (MockTimer (S h) "import-data" (WImport h symbol))
             (now st + 100)
             (fun _ _ => Resolved (obj [("success", JBool true);
                                        ("rowsImported", JNum 0);
                                        ("symbol", symbol)]))).
  - done.
  - intros y Hy. apply fire_mock_import; [lia|done].
  - simpl. apply list_elem_of_further, list_elem_of_here.
  - apply (timer_pending_send_ref h "import-data" d (WImport h symbol) x).
    + done.
    + simpl. lia.
    + by apply (unheld_fresh (next_prom st) st).
  - rewrite now_sendToPython. simpl. lia.
Qed.

(** X25. Importing, end to end. Without a selected file [handleImportData]
    returns with an error message and calls nothing. With a file selected
    that exists, and a child held by the main process: whatever happens or
    the child answers, once 100 ms have passed the function has returned and
    the component reports that 0 rows were imported, under the symbol of
    the input field - trimmed, and [DEFAULT] when that is missing or
    blank. *)
Theorem import_button_reports_no_rows st u symbolInput path es :
  let symbol :=
    match symbolInput with
    | Some v => if String.eqb (trim v) EmptyString then "DEFAULT" else trim v
    | None => "DEFAULT"
    end in
  (∀ api, truthy (ImportData.filePath u) = false →
     drive (ImportData.handleImportData api symbolInput u) st es
     = Some (ImportData.setError "No file selected or Electron API not available" u,
             run st es)) ∧
  (wf st → is_Some (pythonProcess st) →
   ImportData.filePath u = JStr path → path ≠ EmptyString →
   is_Some (disk (world st) !! path) → 100 ≤ elapsed es →
   ∃ u' st',
     drive (ImportData.handleImportData true symbolInput u) st es = Some (u', st') ∧
     ImportData.importSuccess u'
     = "Successfully imported 0 rows of " +:+ symbol +:+ " data" ∧
     ImportData.error u' = EmptyString ∧ ImportData.importing u' = false).
Proof.
  intros symbol. split.
  - intros api Ht. unfold ImportData.handleImportData. rewrite Ht.
    by rewrite orb_true_r.
  - intros Hwf Hlive Hu Hpath Hdisk Hes.
    unfold ImportData.handleImportData. rewrite Hu, truthy_path by done.
    cbn [negb orb].
    set (sym := js_or (from_option (fun v => JStr (trim v)) JUndefined symbolInput)
                  (JStr "DEFAULT")).
    assert (sym = JStr symbol) as Esym.
    { unfold sym, symbol, js_or, truthy. destruct symbolInput as [v|]; simpl; [|done].
      by destruct (String.eqb (trim v) EmptyString). }
    set (props := list_to_map [("filePath", JStr path); ("symbol", sym)]
                  : gmap string jsval).
    change (obj [("filePath", JStr path); ("symbol", sym)]) with (JObj props).
    assert (getprop (JObj props) "filePath" = JStr path) as Ep
      by (unfold props, getprop; simpl; by simplify_map_eq).
    assert (getprop (JObj props) "symbol" = sym) as Es
      by (unfold props, getprop; simpl; by simplify_map_eq).
    destruct (import_settles props st es) as [Hh Hs]; [done..| | | |].
    { rewrite Ep. by apply truthy_path. }
    { rewrite Ep. unfold existsSync. simpl. by rewrite bool_decide_eq_true_2. }
    { done. }
    destruct (invoke "import-data" (JObj props) st) as [[h|e] st1] eqn:Ei;
      simpl in Hh; [|done]. injection Hh as ->. cbn [snd] in Hs.
    destruct (settle_wait_settled _ _ _ _ Hs) as (es0 & es' & Ees & Hwait).
    rewrite (drive_await _ _ _ _ _ _ _ _ _ _ Ei Hwait).
    rewrite member_obj, Es.
    set (r := obj [("success", JBool true); ("rowsImported", JNum 0); ("symbol", sym)]).
    assert (getprop r "error" = JUndefined) as ->
      by (unfold r, obj, getprop; simpl; by simplify_map_eq).
    assert (getprop r "rowsImported" = JNum 0) as ->
      by (unfold r, obj, getprop; simpl; by simplify_map_eq).
    rewrite truthy_false_undefined. cbn [drive].
    eexists _, _. split; [done|]. cbn. rewrite Esym. by split_and!.
Qed.

(** ** Further properties at the test benches *)

Lemma preview_of_regular_file_witness :
  let props : gmap string jsval := {[ "filePath" := JStr "/data/long.csv" ]} in
  wf Desk.up ∧ "/data/long.csv" ≠ EmptyString ∧
  props !! "filePath" = Some (JStr "/data/long.csv") ∧
  disk (world Desk.up) !! "/data/long.csv" = Some (RegularFile Desk.csv) ∧
  nonblank_lines Desk.csv = Desk.header :: Desk.rows ∧
  ∃ h preview,
    (invoke "preview-file" (JObj props) Desk.up).1 = Normal h ∧
    settled (invoke "preview-file" (JObj props) Desk.up).2 !! h
    = Some (Resolved (obj [("preview", JArr preview);
                           ("columns", JArr [JStr "date"; JStr "open"; JStr "close"]);
                           ("rows_total", JNum 12)])) ∧
    length preview = 10.
Proof.
  intros props.
  assert (wf Desk.up) as Hwf by apply wf_run, wf_booted.
  assert ("/data/long.csv" ≠ EmptyString) as Hpath by discriminate.
  assert (props !! "filePath" = Some (JStr "/data/long.csv")) as Hprops
    by apply lookup_singleton_eq.
  assert (disk (world Desk.up) !! "/data/long.csv" = Some (RegularFile Desk.csv))
    as Hdisk by (vm_compute; reflexivity).
  assert (nonblank_lines Desk.csv = Desk.header :: Desk.rows) as Hls
    by (vm_compute; reflexivity).
  split; [exact Hwf|]. split; [exact Hpath|]. split; [exact Hprops|].
  split; [exact Hdisk|]. split; [exact Hls|].
  destruct (preview_of_regular_file Desk.up "/data/long.csv" props Desk.csv
              Desk.header Desk.rows Hwf Hpath Hprops Hdisk Hls)
    as (h & preview & H1 & H2 & _ & H4).
  exists h, preview. split; [exact H1|]. split; [exact H2 | exact H4].
Defined.

Lemma preview_of_blank_file_witness :
  let props : gmap string jsval := {[ "filePath" := JStr "/data/blank.csv" ]} in
  wf Desk.up ∧ "/data/blank.csv" ≠ EmptyString ∧
  props !! "filePath" = Some (JStr "/data/blank.csv") ∧
  disk (world Desk.up) !! "/data/blank.csv" = Some (RegularFile Desk.blank) ∧
  all_space Desk.blank = true ∧
  ∃ h, (invoke "preview-file" (JObj props) Desk.up).1 = Normal h ∧
       settled (invoke "preview-file" (JObj props) Desk.up).2 !! h
       = Some (Resolved (obj [("error", JStr "File is empty")])).
Proof.
  intros props.
  assert (wf Desk.up) as Hwf by apply wf_run, wf_booted.
  assert ("/data/blank.csv" ≠ EmptyString) as Hpath by discriminate.
  assert (props !! "filePath" = Some (JStr "/data/blank.csv")) as Hprops
    by apply lookup_singleton_eq.
  assert (disk (world Desk.up) !! "/data/blank.csv" = Some (RegularFile Desk.blank))
    as Hdisk by (vm_compute; reflexivity).
  assert (all_space Desk.blank = true) as Hblank by (vm_compute; reflexivity).
  split; [exact Hwf|]. split; [exact Hpath|]. split; [exact Hprops|].
  split; [exact Hdisk|]. split; [exact Hblank|].
  exact (preview_of_blank_file Desk.up "/data/blank.csv" props Desk.blank
           Hwf Hpath Hprops Hdisk Hblank).
Defined.

Lemma preview_row_fields_witness :
  let columns := ["date"; "close"; "__proto__"; "date"] in
  let values := ["d1"; "7"; "x"] in
  columns !! 3 = Some "date" ∧ columns !! 1 = Some "close" ∧
  ∃ row,
    make_row columns values = JObj row ∧
    row !! "date" = Some (JStr EmptyString) ∧
    row !! "close" = Some (JStr "7") ∧
    ¬ is_Some (row !! "__proto__") ∧ ¬ is_Some (row !! "open").
Proof.
  intros columns values.
  assert (columns !! 3 = Some "date") as H3 by reflexivity.
  assert (columns !! 1 = Some "close") as H1 by reflexivity.
  assert ("open" ∉ columns) as Hout.
  { apply (bool_decide_unpack _). vm_compute. exact I. }
  assert (∀ j, 3 < j → columns !! j ≠ Some "date") as Hlast3.
  { intros [|[|[|[|j]]]] Hj; [lia..|discriminate]. }
  assert (∀ j, 1 < j → columns !! j ≠ Some "close") as Hlast1.
  { intros [|[|[|[|j]]]] Hj; [lia|lia|discriminate..]. }
  destruct (preview_row_fields columns values) as (row & E & Hdom & Hin).
  split; [exact H3|]. split; [exact H1|].
  exists row. split; [exact E|]. split; [|split; [|split]].
  - apply (Hin 3 "date" H3); [discriminate|exact Hlast3].
  - apply (Hin 1 "close" H1); [discriminate|exact Hlast1].
  - intros [_ Hne]%Hdom. by apply Hne.
  - intros [Hopen _]%Hdom. by apply Hout.
Defined.

Lemma whitelisted_without_handler_witness :
  wf Bench.up ∧ "run-backtest" ∈ validChannels ∧
  ("run-backtest" ∉ registered_channels) ∧
  ∃ h, (invoke "run-backtest" JNull Bench.up).1 = Normal h ∧
       settled (invoke "run-backtest" JNull Bench.up).2 !! h
       = Some (Rejected (Error "Error invoking remote method 'run-backtest': Error: No handler registered for 'run-backtest'")) ∧
       timers (invoke "run-backtest" JNull Bench.up).2 = timers Bench.up.
Proof.
  assert (wf Bench.up) as Hwf by apply wf_run, wf_booted.
  assert ("run-backtest" ∈ validChannels) as Hin.
  { apply (bool_decide_unpack _). vm_compute. exact I. }
  assert ("run-backtest" ∉ registered_channels) as Hout.
  { apply (bool_decide_unpack _). vm_compute. exact I. }
  split; [exact Hwf|]. split; [exact Hin|]. split; [exact Hout|].
  destruct (whitelisted_without_handler "run-backtest" JNull Bench.up Hwf Hin Hout)
    as (h & H1 & H2 & _ & _ & _ & H6).
  exists h. split; [exact H1|]. split; [exact H2 | exact H6].
Defined.

Lemma file_handlers_check_the_path_witness :
  let absent : gmap string jsval :=
    {[ "filePath" := JStr "/data/absent.csv"; "symbol" := JStr "AAPL" ]} in
  let empty : gmap string jsval := {[ "filePath" := JStr EmptyString ]} in
  wf (loaded Desk.w) ∧ pythonProcess (loaded Desk.w) = None ∧
  (existsSync (getprop (JObj absent) "filePath") (loaded Desk.w)).1 = Normal false ∧
  truthy (getprop (JObj empty) "filePath") = false ∧
  (∃ h, (invoke "import-data" (JObj absent) (loaded Desk.w)).1 = Normal h ∧
        settled (invoke "import-data" (JObj absent) (loaded Desk.w)).2 !! h
        = Some (Resolved (obj [("error", JStr "File does not exist")])) ∧
        pythonProcess (invoke "import-data" (JObj absent) (loaded Desk.w)).2 = None) ∧
  (∃ h, (invoke "preview-file" (JObj empty) (loaded Desk.w)).1 = Normal h ∧
        settled (invoke "preview-file" (JObj empty) (loaded Desk.w)).2 !! h
        = Some (Resolved (obj [("error", JStr "No file path provided")]))).
Proof.
  intros absent empty.
  assert (wf (loaded Desk.w)) as Hwf by apply wf_loaded.
  assert (pythonProcess (loaded Desk.w) = None) as Hdown by (vm_compute; reflexivity).
  assert ((existsSync (getprop (JObj absent) "filePath") (loaded Desk.w)).1 = Normal false)
    as Hno by (vm_compute; reflexivity).
  assert (truthy (getprop (JObj empty) "filePath") = false) as Hfalsy
    by (vm_compute; reflexivity).
  split; [exact Hwf|]. split; [exact Hdown|]. split; [exact Hno|].
  split; [exact Hfalsy|]. split.
  - destruct (file_handlers_check_the_path "import-data" absent (loaded Desk.w) Hwf
                (or_intror eq_refl) (or_intror Hno))
      as (h & H1 & H2 & _ & H4 & _).
    exists h. split; [exact H1|]. split; [exact H2|]. rewrite H4. exact Hdown.
  - destruct (file_handlers_check_the_path "preview-file" empty (loaded Desk.w) Hwf
                (or_introl eq_refl) (or_introl Hfalsy))
      as (h & H1 & H2 & _).
    exists h. split; [exact H1 | exact H2].
Defined.

Lemma open_file_dialog_answer_witness :
  let es := [ApiPingPython; Tick; WindowClosed; Close 0 1] in
  let paths := ["/data/long.csv"; "/data/blank.csv"] in
  let st1 := (invoke "open-file-dialog" JUndefined Desk.up).2 in
  let st0 := (invoke "open-file-dialog" JUndefined (loaded Desk.w)).2 in
  wf Desk.up ∧ mainWindow Desk.up = true ∧
  Forall (fun e => ¬ closes_dialog (next_prom Desk.up) e) es ∧
  wf (loaded Desk.w) ∧ mainWindow (loaded Desk.w) = false ∧
  settled (run st1 es) !! next_prom Desk.up = None ∧
  settled (step (run st1 es) (DialogClosed (next_prom Desk.up) false paths))
    !! next_prom Desk.up
  = Some (Resolved (obj [("canceled", JBool false);
                         ("filePath", JStr "/data/long.csv")])) ∧
  settled st0 !! next_prom (loaded Desk.w)
  = Some (Resolved (obj [("canceled", JBool false);
                         ("error", JStr "Main window not available")])).
Proof.
  intros es paths st1 st0.
  assert (wf Desk.up) as Hwf by apply wf_run, wf_booted.
  assert (mainWindow Desk.up = true) as Hwin by (vm_compute; reflexivity).
  assert (Forall (fun e => ¬ closes_dialog (next_prom Desk.up) e) es) as Hes.
  { repeat constructor; intros []. }
  assert (mainWindow (loaded Desk.w) = false) as Hnone by reflexivity.
  split; [exact Hwf|]. split; [exact Hwin|]. split; [exact Hes|].
  split; [apply wf_loaded|]. split; [exact Hnone|].
  destruct (open_file_dialog_answer JUndefined Desk.up es false paths Hwf)
    as (_ & _ & Hopen).
  destruct (Hopen Hwin) as (_ & Hrun). destruct (Hrun Hes) as (H1 & H2).
  destruct (open_file_dialog_answer JUndefined (loaded Desk.w) es false paths
              (wf_loaded Desk.w)) as (_ & Hclosed & _).
  destruct (Hclosed Hnone) as (H3 & _).
  split; [exact H1|]. split; [exact H2 | exact H3].
Defined.

Lemma on_and_its_cleanup_witness :
  let others := [("progress-update", 8); ("error-occurred", 7); ("file-changed", 7)] in
  let subscribe (r : gmap string (list nat)) :=
    foldl (fun r o => (on o.1 o.2 r).2) r others in
  ("file-changed" ∉ on_validChannels) ∧ "progress-update" ∈ on_validChannels ∧
  (("progress-update", 7) ∉ others) ∧
  on "file-changed" 7 ∅ = (Throw (Error "Invalid channel: file-changed"), ∅) ∧
  ∃ c, (on "progress-update" 7 ∅).1 = Normal c ∧
       listeners (on "progress-update" 7 ∅).2 "progress-update" = [7] ∧
       ∀ ch, listeners (run_cleanup c (subscribe (on "progress-update" 7 ∅).2)) ch
             = listeners (subscribe ∅) ch.
Proof.
  intros others subscribe.
  assert ("file-changed" ∉ on_validChannels) as Hout.
  { apply (bool_decide_unpack _). vm_compute. exact I. }
  assert ("progress-update" ∈ on_validChannels) as Hin.
  { apply (bool_decide_unpack _). vm_compute. exact I. }
  assert (("progress-update", 7) ∉ others) as Hothers.
  { apply (bool_decide_unpack _). vm_compute. exact I. }
  split; [exact Hout|]. split; [exact Hin|]. split; [exact Hothers|]. split.
  - exact (proj1 (on_and_its_cleanup "file-changed" 7 ∅ others) Hout).
  - destruct (proj2 (on_and_its_cleanup "progress-update" 7 ∅ others) Hin)
      as (c & H1 & H2 & _ & H4).
    exists c. split; [exact H1|]. split; [exact H2 | exact (H4 Hothers)].
Defined.

Lemma cleanup_removes_one_witness :
  let r : gmap string (list nat) := {[ "progress-update" := [7; 8; 7; 9] ]} in
  let r' := run_cleanup (Cleanup "progress-update" 7) r in
  listeners r "progress-update" = [7; 8] ++ 7 :: [9] ∧ (7 ∉ [9]) ∧
  listeners r' "progress-update" = [7; 8; 9] ∧
  (5 ∉ listeners r "progress-update") ∧
  listeners (run_cleanup (Cleanup "progress-update" 5) r) "progress-update"
  = [7; 8; 7; 9].
Proof.
  intros r r'.
  assert (listeners r "progress-update" = [7; 8] ++ 7 :: [9]) as Hl by reflexivity.
  assert (7 ∉ [9]) as H7.
  { apply (bool_decide_unpack _). vm_compute. exact I. }
  assert (5 ∉ listeners r "progress-update") as H5.
  { apply (bool_decide_unpack _). vm_compute. exact I. }
  split; [exact Hl|]. split; [exact H7|].
  destruct (cleanup_removes_one "progress-update" 7 r) as (_ & _ & Hlast & _).
  destruct (cleanup_removes_one "progress-update" 5 r) as (_ & _ & _ & Hnone & _).
  split; [exact (Hlast [7; 8] [9] Hl H7)|]. split; [exact H5 | exact (Hnone H5)].
Defined.

Lemma send_restarts_the_worker_witness :
  let st := loaded Desk.w in
  let c := (sendToPython "ping" JUndefined WNobody st).1 in
  let st0 := (sendToPython "ping" JUndefined WNobody st).2 in
  let exits := Close 0 1 :: wait 999 in
  wf st ∧ pythonProcess st = None ∧
  elapsed (wait 999) = 999 ∧ elapsed exits = 999 ∧
  pythonProcess (run st0 exits) = None ∧
  is_Some (pythonProcess (run st0 (wait 999))) ∧
  100 ≤ elapsed (wait 100) ∧
  pythonProcess st0 = Some 0 ∧
  journal st0
  = journal st ++ [ConsoleLog "Starting Python backend:" [JStr "/app/backend/main.py"];
                   SpawnPython 0 "/app/backend/main.py"] ∧
  settled (tick (run st0 exits)) !! c
  = Some (Rejected (Error "Failed to start Python process")) ∧
  settled (run (tick (run st0 (wait 999))) (wait 100)) !! c
  = Some (Resolved (mock_response "ping")).
Proof.
  intros st c st0 exits.
  assert (wf st) as Hwf by apply wf_loaded.
  assert (pythonProcess st = None) as Hp by (vm_compute; reflexivity).
  assert (∀ h, h ∈ waiter_refs WNobody → h < next_prom st) as Hw
    by (intros h []%elem_of_nil).
  assert (elapsed (wait 999) = 999) as E1 by (vm_compute; reflexivity).
  assert (elapsed exits = 999) as E2 by (vm_compute; reflexivity).
  assert (pythonProcess (run st0 exits) = None) as Hdead by (vm_compute; reflexivity).
  assert (is_Some (pythonProcess (run st0 (wait 999)))) as Hlive.
  { exists 0. vm_compute. reflexivity. }
  assert (100 ≤ elapsed (wait 100)) as Hel.
  { vm_compute. apply (bool_decide_unpack _). vm_compute. exact I. }
  split; [exact Hwf|]. split; [exact Hp|]. split; [exact E1|]. split; [exact E2|].
  split; [exact Hdead|]. split; [exact Hlive|]. split; [exact Hel|].
  destruct (send_restarts_the_worker "ping" JUndefined WNobody st exits Hwf Hp Hw E2)
    as (H1 & _ & Hj & _ & Hfail & _).
  destruct (send_restarts_the_worker "ping" JUndefined WNobody st (wait 999)
              Hwf Hp Hw E1) as (_ & _ & _ & _ & _ & Hok).
  split; [exact H1|]. split; [exact Hj|]. split; [exact (Hfail Hdead)|].
  exact (proj2 (Hok Hlive) (wait 100) Hel).
Defined.

Lemma health_check_report_witness :
  let es := Stdout 0 "{}" :: wait 100 in
  wf Desk.up ∧ is_Some (pythonProcess Desk.up) ∧ 100 ≤ elapsed es ∧
  getprop (health_report (world Desk.up) (now Desk.up + 100)
             (mock_response "health-check")) "database" = JStr "connected" ∧
  ∃ h, (invoke "health-check" JUndefined Desk.up).1 = Normal h ∧
       settled (run (invoke "health-check" JUndefined Desk.up).2 es) !! h
       = Some (Resolved (health_report (world Desk.up) (now Desk.up + 100)
                           (mock_response "health-check"))).
Proof.
  intros es.
  assert (wf Desk.up) as Hwf by apply wf_run, wf_booted.
  assert (is_Some (pythonProcess Desk.up)) as Hlive.
  { exists 0. vm_compute. reflexivity. }
  assert (100 ≤ elapsed es) as Hel.
  { vm_compute. apply (bool_decide_unpack _). vm_compute. exact I. }
  split; [exact Hwf|]. split; [exact Hlive|]. split; [exact Hel|].
  split; [vm_compute; reflexivity|].
  exact (health_check_report JUndefined Desk.up es Hwf Hlive Hel).
Defined.

Lemma health_check_restarts_the_worker_witness :
  let st := loaded Desk.w in
  let r := invoke "health-check" JUndefined st in
  let exits := Close 0 1 :: wait 999 in
  wf st ∧ pythonProcess st = None ∧
  elapsed (wait 999) = 999 ∧ elapsed exits = 999 ∧
  pythonProcess (run r.2 exits) = None ∧
  is_Some (pythonProcess (run r.2 (wait 999))) ∧
  100 ≤ elapsed (wait 100) ∧
  ∃ h, r.1 = Normal h ∧
       settled (tick (run r.2 exits)) !! h
       = Some (Resolved (health_failure (world st) (now st + 1000)
                           (Error "Failed to start Python process"))) ∧
       settled (run (tick (run r.2 (wait 999))) (wait 100)) !! h
       = Some (Resolved (health_report (world st) (now st + 1100)
                           (mock_response "health-check"))).
Proof.
  intros st r exits.
  assert (wf st) as Hwf by apply wf_loaded.
  assert (pythonProcess st = None) as Hp by (vm_compute; reflexivity).
  assert (elapsed (wait 999) = 999) as E1 by (vm_compute; reflexivity).
  assert (elapsed exits = 999) as E2 by (vm_compute; reflexivity).
  assert (pythonProcess (run r.2 exits) = None) as Hdead by (vm_compute; reflexivity).
  assert (is_Some (pythonProcess (run r.2 (wait 999)))) as Hlive.
  { exists 0. vm_compute. reflexivity. }
  assert (100 ≤ elapsed (wait 100)) as Hel.
  { vm_compute. apply (bool_decide_unpack _). vm_compute. exact I. }
  split; [exact Hwf|]. split; [exact Hp|]. split; [exact E1|]. split; [exact E2|].
  split; [exact Hdead|]. split; [exact Hlive|]. split; [exact Hel|].
  destruct (health_check_restarts_the_worker JUndefined st exits Hwf Hp E2)
    as (h & H1 & _ & _ & Hfail & _).
  destruct (health_check_restarts_the_worker JUndefined st (wait 999) Hwf Hp E1)
    as (h' & H1' & _ & _ & _ & Hok).
  exists h. split; [exact H1|]. split; [exact (Hfail Hdead)|].
  assert (h' = h) as Eh.
  { rewrite H1 in H1'. injection H1' as Eh. symmetry. exact Eh. }
  rewrite <-Eh. exact (Hok Hlive (wait 100) Hel).
Defined.

Lemma import_reports_no_rows_witness :
  let props : gmap string jsval :=
    {[ "filePath" := JStr "/data/prices.csv"; "symbol" := JStr "AAPL" ]} in
  let es := Stdout 0 (Bench.frame "AAPL" "3") :: wait 100 in
  wf Bench.up ∧ truthy (getprop (JObj props) "filePath") = true ∧
  (existsSync (getprop (JObj props) "filePath") Bench.up).1 = Normal true ∧
  100 ≤ elapsed es ∧ pythonProcess Bench.up = Some 0 ∧
  ∃ h, (invoke "import-data" (JObj props) Bench.up).1 = Normal h ∧
       settled (run (invoke "import-data" (JObj props) Bench.up).2 es) !! h
       = Some (Resolved (obj [("success", JBool true); ("rowsImported", JNum 0);
                              ("symbol", JStr "AAPL")])).
Proof.
  intros props es.
  assert (wf Bench.up) as Hwf by apply wf_run, wf_booted.
  assert (truthy (getprop (JObj props) "filePath") = true) as Ht
    by (vm_compute; reflexivity).
  assert ((existsSync (getprop (JObj props) "filePath") Bench.up).1 = Normal true)
    as Hex by (vm_compute; reflexivity).
  assert (100 ≤ elapsed es) as Hel.
  { vm_compute. apply (bool_decide_unpack _). vm_compute. exact I. }
  assert (pythonProcess Bench.up = Some 0) as Hp by (vm_compute; reflexivity).
  split; [exact Hwf|]. split; [exact Ht|]. split; [exact Hex|].
  split; [exact Hel|]. split; [exact Hp|].
  destruct (import_reports_no_rows props Bench.up es Hwf Ht Hex Hel 0 Hp)
    as (h & request & H1 & _ & _ & H4).
  exists h. split; [exact H1 | exact H4].
Defined.

Lemma window_opens_after_startup_witness :
  let early := Close 0 1 :: wait 999 in
  let late := Close 0 1 :: wait 1000 in
  Forall (worker_event 0) early ∧ Forall (worker_event 0) late ∧
  elapsed early < 1000 ∧ 1000 ≤ elapsed late ∧
  mainWindow (run (booted Bench.w) early) = false ∧
  mainWindow (run (booted Bench.w) late) = true ∧
  windows_created (run (booted Bench.w) late) = 1.
Proof.
  intros early late.
  assert (∀ n, Forall (worker_event 0) (wait n)) as Hwait.
  { intros n. apply Forall_replicate. exact I. }
  assert (Forall (worker_event 0) early) as H1.
  { constructor; [reflexivity|apply Hwait]. }
  assert (Forall (worker_event 0) late) as H2.
  { constructor; [reflexivity|apply Hwait]. }
  assert (elapsed early < 1000) as E1.
  { vm_compute. apply (bool_decide_unpack _). vm_compute. exact I. }
  assert (1000 ≤ elapsed late) as E2.
  { vm_compute. apply (bool_decide_unpack _). vm_compute. exact I. }
  split; [exact H1|]. split; [exact H2|]. split; [exact E1|]. split; [exact E2|].
  destruct (window_opens_after_startup Bench.w early H1) as (Hearly & _).
  destruct (window_opens_after_startup Bench.w late H2) as (_ & Hlate).
  destruct (Hearly E1) as (Hw1 & _). destruct (Hlate E2) as (Hw2 & Hc2 & _).
  split; [exact Hw1|]. split; [exact Hw2 | exact Hc2].
Defined.

Lemma stop_cancels_no_call_witness :
  let c := (sendToPython "ping" JUndefined WNobody Bench.up).1 in
  let st1 := stop (sendToPython "ping" JUndefined WNobody Bench.up).2 in
  wf Bench.up ∧ pythonProcess Bench.up = Some 0 ∧ 100 ≤ elapsed (wait 100) ∧
  pythonProcess st1 = None ∧
  settled (run st1 (wait 100)) !! c = Some (Resolved (mock_response "ping")).
Proof.
  intros c st1.
  assert (wf Bench.up) as Hwf by apply wf_run, wf_booted.
  assert (pythonProcess Bench.up = Some 0) as Hp by (vm_compute; reflexivity).
  assert (∀ h, h ∈ waiter_refs WNobody → h < next_prom Bench.up) as Hw
    by (intros h []%elem_of_nil).
  assert (100 ≤ elapsed (wait 100)) as Hel.
  { vm_compute. apply (bool_decide_unpack _). vm_compute. exact I. }
  split; [exact Hwf|]. split; [exact Hp|]. split; [exact Hel|].
  destruct (stop_cancels_no_call "ping" JUndefined WNobody Bench.up (wait 100) 0
              Hwf Hp Hw Hel) as (H1 & _ & _ & H4 & _).
  split; [exact H1 | exact H4].
Defined.

Lemma close_after_stop_drops_the_new_child_witness :
  let st1 := (sendToPython "ping" JUndefined WNobody (stop Bench.up)).2 in
  let st2 := step st1 (Close 0 0) in
  let st3 := (sendToPython "ping" JUndefined WNobody st2).2 in
  pythonProcess Bench.up = Some 0 ∧ running Bench.up = {[0]} ∧
  0 ≠ next_pid Bench.up ∧
  pythonProcess st2 = None ∧ running st2 = {[next_pid Bench.up]} ∧
  running st3 = {[S (next_pid Bench.up); next_pid Bench.up]}.
Proof.
  intros st1 st2 st3.
  assert (pythonProcess Bench.up = Some 0) as Hp by (vm_compute; reflexivity).
  assert (running Bench.up = {[0]}) as Hr by (vm_compute; reflexivity).
  assert (0 ≠ next_pid Bench.up) as Hne by (vm_compute; discriminate).
  split; [exact Hp|]. split; [exact Hr|]. split; [exact Hne|].
  destruct (close_after_stop_drops_the_new_child "ping" JUndefined WNobody Bench.up
              0 0 Hp Hr Hne) as (_ & _ & H3 & H4 & _ & H6).
  split; [exact H3|]. split; [exact H4 | exact H6].
Defined.

Lemma preview_needs_no_worker_witness :
  wf (loaded Desk.w) ∧ pythonProcess (loaded Desk.w) = None ∧
  ∃ h v, (invoke "preview-file" JUndefined (loaded Desk.w)).1 = Normal h ∧
         settled (invoke "preview-file" JUndefined (loaded Desk.w)).2 !! h
         = Some (Resolved v) ∧
         pythonProcess (invoke "preview-file" JUndefined (loaded Desk.w)).2 = None ∧
         timers (invoke "preview-file" JUndefined (loaded Desk.w)).2 = timers (loaded Desk.w).
Proof.
  assert (wf (loaded Desk.w)) as Hwf by apply wf_loaded.
  assert (pythonProcess (loaded Desk.w) = None) as Hp by (vm_compute; reflexivity).
  split; [exact Hwf|]. split; [exact Hp|].
  destruct (preview_needs_no_worker JUndefined (loaded Desk.w) Hwf)
    as (h & v & H1 & H2 & H3 & _ & _ & H6 & _).
  exists h, v. split; [exact H1|]. split; [exact H2|].
  split; [rewrite H3; exact Hp | exact H6].
Defined.

Lemma ping_python_answer_witness :
  let exits := Close 0 1 :: wait 999 in
  let unanswered := Close 0 1 :: wait 100 in
  wf Bench.up ∧ is_Some (pythonProcess Bench.up) ∧ 100 ≤ elapsed unanswered ∧
  wf (loaded Desk.w) ∧ pythonProcess (loaded Desk.w) = None ∧ elapsed exits = 999 ∧
  pythonProcess (run (pingPython (loaded Desk.w)).2 exits) = None ∧
  (∃ h, (pingPython Bench.up).1 = Normal h ∧
        settled (run (pingPython Bench.up).2 unanswered) !! h
        = Some (Resolved (mock_response "ping"))) ∧
  (∃ h, (pingPython (loaded Desk.w)).1 = Normal h ∧
        settled (tick (run (pingPython (loaded Desk.w)).2 exits)) !! h
        = Some (Resolved (obj [("error", JStr "Failed to start Python process")]))).
Proof.
  intros exits unanswered.
  assert (wf Bench.up) as Hwf by apply wf_run, wf_booted.
  assert (is_Some (pythonProcess Bench.up)) as Hlive.
  { exists 0. vm_compute. reflexivity. }
  assert (100 ≤ elapsed unanswered) as Hel.
  { vm_compute. apply (bool_decide_unpack _). vm_compute. exact I. }
  assert (wf (loaded Desk.w)) as Hwf' by apply wf_loaded.
  assert (pythonProcess (loaded Desk.w) = None) as Hp by (vm_compute; reflexivity).
  assert (elapsed exits = 999) as E2 by (vm_compute; reflexivity).
  assert (pythonProcess (run (pingPython (loaded Desk.w)).2 exits) = None) as Hdead
    by (vm_compute; reflexivity).
  split; [exact Hwf|]. split; [exact Hlive|]. split; [exact Hel|].
  split; [exact Hwf'|]. split; [exact Hp|]. split; [exact E2|].
  split; [exact Hdead|]. split.
  - destruct (ping_python_answer Bench.up unanswered Hwf) as (h & H1 & Hup & _).
    exists h. split; [exact H1 | exact (Hup Hlive Hel)].
  - destruct (ping_python_answer (loaded Desk.w) exits Hwf') as (h & H1 & _ & Hdown).
    destruct (Hdown Hp E2) as (_ & Hfail & _).
    exists h. split; [exact H1 | exact (Hfail Hdead)].
Defined.

Lemma cells_ignore_trailing_space_witness :
  let cr := String (ascii_of_nat 13) EmptyString in
  all_space cr = true ∧
  cells ("d1, 1 ,2" +:+ cr) = ["d1"; "1"; "2"].
Proof.
  intros cr.
  assert (all_space cr = true) as Hcr by reflexivity.
  split; [exact Hcr|].
  exact (eq_trans (cells_ignore_trailing_space "d1, 1 ,2" cr Hcr) eq_refl).
Defined.

Lemma component_releases_its_flags_witness :
  let u := ImportData.setFilePath (JStr "/data/long.csv") ImportData.initial in
  let cancelled := [Tick; DialogClosed 1 true []] in
  truthy (ImportData.filePath u) = true ∧
  (∃ u' st',
     drive (ImportData.handleSelectFile true u) Desk.up cancelled = Some (u', st') ∧
     ImportData.loading u' = false) ∧
  (∃ u' st',
     drive (ImportData.handleImportData true None u) Desk.up (wait 100)
     = Some (u', st') ∧
     ImportData.importing u' = false).
Proof.
  intros u cancelled.
  assert (truthy (ImportData.filePath u) = true) as Ht by reflexivity.
  split; [exact Ht|]. split.
  - destruct (drive (ImportData.handleSelectFile true u) Desk.up cancelled)
      as [[u' st']|] eqn:Hd.
    + exists u', st'. split; [reflexivity|].
      exact (proj1 (component_releases_its_flags Desk.up cancelled u u' st' None) Hd).
    + exfalso. revert Hd. vm_compute. discriminate.
  - destruct (drive (ImportData.handleImportData true None u) Desk.up (wait 100))
      as [[u' st']|] eqn:Hd.
    + exists u', st'. split; [reflexivity|].
      exact (proj2 (component_releases_its_flags Desk.up (wait 100) u u' st' None)
               Ht Hd).
    + exfalso. revert Hd. vm_compute. discriminate.
Defined.

Lemma select_file_shows_preview_witness :
  let es1 := [Tick; ApiPingPython] in
  let es := es1 ++ DialogClosed (next_prom Desk.up) false ["/data/long.csv"] :: [Tick] in
  wf Desk.up ∧ mainWindow Desk.up = true ∧ "/data/long.csv" ≠ EmptyString ∧
  disk (world Desk.up) !! "/data/long.csv" = Some (RegularFile Desk.csv) ∧
  nonblank_lines Desk.csv = Desk.header :: Desk.rows ∧
  Forall (fun e => ¬ closes_dialog (next_prom Desk.up) e) es1 ∧
  ∃ u' st',
    drive (ImportData.handleSelectFile true ImportData.initial) Desk.up es
    = Some (u', st') ∧
    ImportData.filePath u' = JStr "/data/long.csv" ∧
    ImportData.columns u' = JArr [JStr "date"; JStr "open"; JStr "close"] ∧
    ImportData.rowsTotal u' = JNum 12 ∧
    ImportData.loading u' = false.
Proof.
  intros es1 es.
  assert (wf Desk.up) as Hwf by apply wf_run, wf_booted.
  assert (mainWindow Desk.up = true) as Hw by (vm_compute; reflexivity).
  assert ("/data/long.csv" ≠ EmptyString) as Hpath by discriminate.
  assert (disk (world Desk.up) !! "/data/long.csv" = Some (RegularFile Desk.csv))
    as Hdisk by (vm_compute; reflexivity).
  assert (nonblank_lines Desk.csv = Desk.header :: Desk.rows) as Hls
    by (vm_compute; reflexivity).
  assert (Forall (fun e => ¬ closes_dialog (next_prom Desk.up) e) es1) as Hes.
  { repeat constructor; intros []. }
  split; [exact Hwf|]. split; [exact Hw|]. split; [exact Hpath|].
  split; [exact Hdisk|]. split; [exact Hls|]. split; [exact Hes|].
  destruct (select_file_shows_preview Desk.up ImportData.initial "/data/long.csv" []
              Desk.csv Desk.header Desk.rows es1 [Tick] Hwf Hw Hpath Hdisk Hls Hes)
    as (u' & st' & H1 & H2 & _ & H4 & H5 & _ & H7).
  exists u', st'. split; [exact H1|]. split; [exact H2|]. split; [exact H4|].
  split; [exact H5 | exact H7].
Defined.

Lemma select_file_keeps_old_preview_witness :
  let u := ImportData.setRowsTotal (JNum 12)
             (ImportData.setFilePath (JStr "/data/long.csv") ImportData.initial) in
  let es := [] ++ DialogClosed (next_prom Desk.up) false ["/data/blank.csv"] :: [] in
  wf Desk.up ∧ mainWindow Desk.up = true ∧ "/data/blank.csv" ≠ EmptyString ∧
  disk (world Desk.up) !! "/data/blank.csv" = Some (RegularFile Desk.blank) ∧
  all_space Desk.blank = true ∧
  ∃ u' st',
    drive (ImportData.handleSelectFile true u) Desk.up es = Some (u', st') ∧
    ImportData.filePath u' = JStr "/data/blank.csv" ∧
    ImportData.error u' = "File is empty" ∧
    ImportData.rowsTotal u' = JNum 12.
Proof.
  intros u es.
  assert (wf Desk.up) as Hwf by apply wf_run, wf_booted.
  assert (mainWindow Desk.up = true) as Hw by (vm_compute; reflexivity).
  assert ("/data/blank.csv" ≠ EmptyString) as Hpath by discriminate.
  assert (disk (world Desk.up) !! "/data/blank.csv" = Some (RegularFile Desk.blank))
    as Hdisk by (vm_compute; reflexivity).
  assert (all_space Desk.blank = true) as Hblank by (vm_compute; reflexivity).
  split; [exact Hwf|]. split; [exact Hw|]. split; [exact Hpath|].
  split; [exact Hdisk|]. split; [exact Hblank|].
  destruct (select_file_keeps_old_preview Desk.up u "/data/blank.csv" []
              Desk.blank [] [] Hwf Hw Hpath Hdisk Hblank (List.Forall_nil _))
    as (u' & st' & H1 & H2 & H3 & _ & _ & H6 & _).
  exists u', st'. split; [exact H1|]. split; [exact H2|]. split; [exact H3 | exact H6].
Defined.

Lemma select_file_without_choice_witness :
  let u := ImportData.setError "File is empty" ImportData.initial in
  let es1 := [Tick; WindowClosed] in
  wf Desk.up ∧ mainWindow Desk.up = true ∧
  Forall (fun e => ¬ closes_dialog (next_prom Desk.up) e) es1 ∧
  wf (loaded Desk.w) ∧ mainWindow (loaded Desk.w) = false ∧
  drive (ImportData.handleSelectFile true u) Desk.up es1 = None ∧
  (∃ st', drive (ImportData.handleSelectFile true u) Desk.up
            (es1 ++ DialogClosed (next_prom Desk.up) true ["/data/x.csv"] :: [])
          = Some (ImportData.initial, st')) ∧
  (∃ u' st', drive (ImportData.handleSelectFile true u) (loaded Desk.w) es1
             = Some (u', st') ∧
             ImportData.error u' = "Main window not available").
Proof.
  intros u es1.
  assert (wf Desk.up) as Hwf by apply wf_run, wf_booted.
  assert (mainWindow Desk.up = true) as Hw by (vm_compute; reflexivity).
  assert (Forall (fun e => ¬ closes_dialog (next_prom Desk.up) e) es1) as Hes.
  { repeat constructor; intros []. }
  assert (mainWindow (loaded Desk.w) = false) as Hno by reflexivity.
  split; [exact Hwf|]. split; [exact Hw|]. split; [exact Hes|].
  split; [apply wf_loaded|]. split; [exact Hno|].
  destruct (select_file_without_choice Desk.up u es1 [] true ["/data/x.csv"] Hwf)
    as (Hopen & _).
  destruct (Hopen Hw Hes) as (Hwait & Hcancel).
  destruct (select_file_without_choice (loaded Desk.w) u es1 [] true ["/data/x.csv"]
              (wf_loaded Desk.w)) as (_ & Hnowin).
  split; [exact Hwait|]. split.
  - destruct (Hcancel (or_introl eq_refl)) as (st' & Hd). exists st'. exact Hd.
  - destruct (Hnowin Hno) as (st' & Hd). eexists _, st'. split; [exact Hd|reflexivity].
Defined.

Lemma import_button_reports_no_rows_witness :
  let u := ImportData.setFilePath (JStr "/data/prices.csv") ImportData.initial in
  let es := Stdout 0 (Bench.frame "AAPL" "3") :: wait 100 in
  wf Bench.up ∧ is_Some (pythonProcess Bench.up) ∧
  ImportData.filePath u = JStr "/data/prices.csv" ∧
  "/data/prices.csv" ≠ EmptyString ∧
  is_Some (disk (world Bench.up) !! "/data/prices.csv") ∧ 100 ≤ elapsed es ∧
  truthy (ImportData.filePath ImportData.initial) = false ∧
  drive (ImportData.handleImportData true (Some " AAPL ") ImportData.initial)
    Bench.up es
  = Some (ImportData.setError "No file selected or Electron API not available"
            ImportData.initial, run Bench.up es) ∧
  ∃ u' st',
    drive (ImportData.handleImportData true (Some " AAPL ") u) Bench.up es
    = Some (u', st') ∧
    ImportData.importSuccess u' = "Successfully imported 0 rows of AAPL data".
Proof.
  intros u es.
  assert (wf Bench.up) as Hwf by apply wf_run, wf_booted.
  assert (is_Some (pythonProcess Bench.up)) as Hlive.
  { exists 0. vm_compute. reflexivity. }
  assert (ImportData.filePath u = JStr "/data/prices.csv") as Hu by reflexivity.
  assert ("/data/prices.csv" ≠ EmptyString) as Hpath by discriminate.
  assert (is_Some (disk (world Bench.up) !! "/data/prices.csv")) as Hdisk.
  { eexists. vm_compute. reflexivity. }
  assert (100 ≤ elapsed es) as Hel.
  { vm_compute. apply (bool_decide_unpack _). vm_compute. exact I. }
  assert (truthy (ImportData.filePath ImportData.initial) = false) as Hfalsy
    by reflexivity.
  split; [exact Hwf|]. split; [exact Hlive|]. split; [exact Hu|].
  split; [exact Hpath|]. split; [exact Hdisk|]. split; [exact Hel|].
  split; [exact Hfalsy|]. split.
  - exact (proj1 (import_button_reports_no_rows Bench.up ImportData.initial
                    (Some " AAPL ") "/data/prices.csv" es) true Hfalsy).
  - destruct (proj2 (import_button_reports_no_rows Bench.up u (Some " AAPL ")
                       "/data/prices.csv" es) Hwf Hlive Hu Hpath Hdisk Hel)
      as (u' & st' & H1 & H2 & _).
    exists u', st'. split; [exact H1 | exact H2].
Defined.
